(** * BARLineDP training loop: loss construction, batching, model selection

    A shallow embedding of [train_model.py]: the rank-discounted divergence
    ([kld], [jsd]), the per-batch blend of file loss and line loss, the class
    weights, the batching policy of the two data loaders, one optimisation
    step, the epoch loop with its best-model selector and checkpoint, and
    the features of a line of code with the dataset built from them.

    Numbers.  Tensor entries and Python floats are modelled by [scalar]: a
    real number, one of the two infinities, or not-a-number, with the IEEE 754
    rules for the special values.  Arithmetic on finite values is exact (no
    rounding, no overflow, a single zero), which is the usual idealisation
    of floating point by real numbers; the special values are kept because
    the program divides by [max - min].  The blend of lines 219-220 is
    written a second time in the arithmetic of the program, binary64 for
    Python floats and binary32 for tensors ([SpecFloat]), to see what
    rounding does to it.

    Sorting.  [Tensor.sort] and [torch.argsort] are modelled by a stable
    insertion sort: entries that compare equal keep the order of their
    indices, which is the order the specification states for ties.

    Effects.  Statements that can raise return an [option] or a [result];
    objects that are mutated in place ([model], the copies made by
    [copy.deepcopy]) live in a store addressed by location; what the run
    writes and the calls whose order matters are appended to a log.

    External collaborators (the frozen encoder, the attention network,
    autograd, Adam, the AUC metric, the random shuffle) are fields of the
    record [Collaborators]; library functions with a documented meaning
    (softmax, sort, argsort, DataLoader batching, compute_class_weight,
    clip_grad_norm_) are written out. *)

From Stdlib Require Import String.
From Stdlib Require Import Reals Lra Lia List Bool Arith ZArith QArith Qround.
From Stdlib Require Import Permutation Sorted.
From Stdlib Require DecimalString.
From Stdlib Require SpecFloat.
Import ListNotations.

Local Open Scope R_scope.

(* ================================================================= *)
(** ** Scalars *)

Inductive scalar : Type :=
| Fin (r : R)
| PInf
| NInf
| NaN.

Definition Rltb (x y : R) : bool := if Rlt_dec x y then true else false.
Definition Reqb (x y : R) : bool := if Req_dec_T x y then true else false.

Definition sneg (a : scalar) : scalar :=
  match a with
  | Fin x => Fin (- x)
  | PInf => NInf
  | NInf => PInf
  | NaN => NaN
  end.

Definition sadd (a b : scalar) : scalar :=
  match a, b with
  | NaN, _ | _, NaN => NaN
  | Fin x, Fin y => Fin (x + y)
  | PInf, NInf | NInf, PInf => NaN
  | PInf, _ | _, PInf => PInf
  | NInf, _ | _, NInf => NInf
  end.

Definition ssub (a b : scalar) : scalar :=
  match a, b with
  | Fin x, Fin y => Fin (x - y)
  | _, _ => sadd a (sneg b)
  end.

(** The infinity whose sign is that of the non-zero real [x]. *)
Definition signed_inf (x : R) : scalar := if Rltb 0 x then PInf else NInf.

Definition smul (a b : scalar) : scalar :=
  match a, b with
  | NaN, _ | _, NaN => NaN
  | Fin x, Fin y => Fin (x * y)
  | Fin x, PInf | PInf, Fin x => if Reqb x 0 then NaN else signed_inf x
  | Fin x, NInf | NInf, Fin x => if Reqb x 0 then NaN else signed_inf (- x)
  | PInf, PInf | NInf, NInf => PInf
  | PInf, NInf | NInf, PInf => NInf
  end.

(** Division: [0/0] is not a number, [x/0] an infinity of the sign of [x]. *)
Definition sdiv (a b : scalar) : scalar :=
  match a, b with
  | NaN, _ | _, NaN => NaN
  | Fin x, Fin y =>
      if Reqb y 0
      then (if Reqb x 0 then NaN else signed_inf x)
      else Fin (x / y)
  | Fin _, PInf | Fin _, NInf => Fin 0
  | PInf, Fin y => if Rltb y 0 then NInf else PInf
  | NInf, Fin y => if Rltb y 0 then PInf else NInf
  | PInf, PInf | PInf, NInf | NInf, PInf | NInf, NInf => NaN
  end.

Definition sexp (a : scalar) : scalar :=
  match a with
  | Fin x => Fin (exp x)
  | PInf => PInf
  | NInf => Fin 0
  | NaN => NaN
  end.

Definition log2 (x : R) : R := ln x / ln 2.

Definition slog2 (a : scalar) : scalar :=
  match a with
  | Fin x => if Rltb 0 x then Fin (log2 x) else if Reqb x 0 then NInf else NaN
  | PInf => PInf
  | NInf => NaN
  | NaN => NaN
  end.

(** Comparisons are false as soon as one side is not a number. *)
Definition slt (a b : scalar) : bool :=
  match a, b with
  | NaN, _ | _, NaN => false
  | Fin x, Fin y => Rltb x y
  | NInf, NInf => false
  | NInf, _ => true
  | _, NInf => false
  | PInf, _ => false
  | Fin _, PInf => true
  end.

Definition seqb (a b : scalar) : bool :=
  match a, b with
  | Fin x, Fin y => Reqb x y
  | PInf, PInf | NInf, NInf => true
  | _, _ => false
  end.

(** [torch.min] and [torch.max] return not-a-number when they meet one. *)
Definition smin (a b : scalar) : scalar :=
  match a, b with
  | NaN, _ | _, NaN => NaN
  | _, _ => if slt b a then b else a
  end.

Definition smax (a b : scalar) : scalar :=
  match a, b with
  | NaN, _ | _, NaN => NaN
  | _, _ => if slt a b then b else a
  end.

(** The order [torch.sort] uses: not-a-number counts as the greatest value. *)
Definition sort_gt (a b : scalar) : bool :=
  match a, b with
  | NaN, NaN => false
  | NaN, _ => true
  | _, NaN => false
  | _, _ => slt b a
  end.

(* ================================================================= *)
(** ** One-dimensional tensors *)

Definition tensor : Type := list scalar.

(** [t.sum()]; the sum of an empty tensor is 0. *)
Definition tsum (t : tensor) : scalar := fold_right sadd (Fin 0) t.

(** Elementwise binary operation on two tensors of one shape. *)
Definition map2 {A B C : Type} (f : A -> B -> C) (xs : list A) (ys : list B)
  : list C :=
  map (fun p => f (fst p) (snd p)) (combine xs ys).

(** [F.softmax(t, dim=-1)]. *)
Definition softmax (t : tensor) : tensor :=
  let z := tsum (map sexp t) in
  map (fun x => sdiv (sexp x) z) t.

(** Stable insertion sort; [before y x = true] when [y] goes strictly
    before [x].  Elements that tie keep their order. *)
Fixpoint insert_by {A : Type} (before : A -> A -> bool) (x : A) (l : list A)
  : list A :=
  match l with
  | [] => [x]
  | y :: l' => if before y x then y :: insert_by before x l' else x :: y :: l'
  end.

Definition sort_by {A : Type} (before : A -> A -> bool) (l : list A) : list A :=
  fold_right (insert_by before) [] l.

(** Each entry paired with its index. *)
Definition enumerate {A : Type} (l : list A) : list (A * nat) :=
  combine l (seq 0 (length l)).

(** [t.sort(descending=True)]: the sorted values and their indices. *)
Definition sort_desc (t : tensor) : tensor * list nat :=
  let s := sort_by (fun p q => sort_gt (fst p) (fst q)) (enumerate t) in
  (map fst s, map snd s).

(** [torch.argsort(t, descending=True)]. *)
Definition argsort_desc (t : tensor) : list nat := snd (sort_desc t).

(** [torch.argsort] of a tensor of integers, ascending. *)
Definition argsort (l : list nat) : list nat :=
  map snd (sort_by (fun p q => Nat.ltb (fst p) (fst q)) (enumerate l)).

(** [t[idx]] for an index tensor [idx]; an index out of range raises. *)
Fixpoint index_select {A : Type} (t : list A) (idx : list nat)
  : option (list A) :=
  match idx with
  | [] => Some []
  | i :: rest =>
      match nth_error t i, index_select t rest with
      | Some x, Some xs => Some (x :: xs)
      | _, _ => None
      end
  end.

(** [t.min(dim=1)] and [t.max(dim=1)] on one row; an empty row raises. *)
Definition row_min (t : tensor) : option scalar :=
  match t with
  | [] => None
  | x :: rest => Some (fold_left smin rest x)
  end.

Definition row_max (t : tensor) : option scalar :=
  match t with
  | [] => None
  | x :: rest => Some (fold_left smax rest x)
  end.

(** [torch.mean(torch.stack(ts))] of a non-empty list of scalars. *)
Definition tmean (t : tensor) : scalar :=
  sdiv (tsum t) (Fin (INR (length t))).

(* ================================================================= *)
(** ** The divergence: [kld] and [jsd] *)

Definition kld (p q discounts : tensor) : scalar :=
  tsum (map2 smul (map2 (fun pi qi => smul pi (slog2 (sdiv pi qi))) p q)
             discounts).

(** The default value of [jsd]'s keyword argument. *)
Definition epsilon_default : R := 1 / 100000000.

(** Lines 89-91 of [jsd]: [sorted_indices], [ranks] and [discounts]. *)
Definition jsd_discounts (gt : tensor) : tensor :=
  let sorted_indices := argsort_desc gt in
  let ranks := map S (argsort sorted_indices) in
  map (fun r => sdiv (Fin 1) (slog2 (sadd (Fin (INR r)) (Fin 1)))) ranks.

(** Line 88 of [jsd]: [m = 0.5 * (top1_pred + top1_gt + epsilon)]. *)
Definition jsd_m (top1_pred top1_gt : tensor) (epsilon : R) : tensor :=
  map (smul (Fin (1 / 2)))
      (map (fun s => sadd s (Fin epsilon)) (map2 sadd top1_pred top1_gt)).

Definition jsd (pred gt : tensor) (epsilon : R) : scalar :=
  let top1_pred := softmax pred in
  let top1_gt := softmax gt in
  let m := jsd_m top1_pred top1_gt epsilon in
  let discounts := jsd_discounts gt in
  smul (Fin (1 / 2))
       (sadd (kld top1_pred m discounts) (kld top1_gt m discounts)).

(* ================================================================= *)
(** ** Line loss of a batch and the blended loss *)

(** [att_mins], [att_maxs] and the division of lines 195-197 (and 255-257),
    on one row of [line_atts]. *)
Definition normalize_row (row : tensor) : option tensor :=
  match row_min row, row_max row with
  | Some mn, Some mx =>
      Some (map (fun a => sdiv (ssub a mn) (ssub mx mn)) row)
  | _, _ => None
  end.

Fixpoint normalize (line_atts : list tensor) : option (list tensor) :=
  match line_atts with
  | [] => Some []
  | row :: rest =>
      match normalize_row row, normalize rest with
      | Some r, Some rs => Some (r :: rs)
      | _, _ => None
      end
  end.

(** The guard of the loop body: [continue] when it is [true]. *)
Definition skipped (file_label : scalar) (line_label : tensor) : bool :=
  seqb file_label (Fin 0) || negb (existsb (fun x => seqb x (Fin 1)) line_label).

(** [int(0.2 * len(line_label))], with 0.2 read as the rational 2/10: the
    double nearest to 0.2 exceeds it by a relative [2^-54], too little to
    carry the product over the next integer for any length a file can
    have. *)
Definition top_k (len : nat) : nat :=
  Z.to_nat (Qfloor ((2 # 10) * inject_Z (Z.of_nat len))).

(** The body of the loop for one example that is not skipped. *)
Definition example_line_loss (att line_label : tensor) : option scalar :=
  let att := firstn (length line_label) att in
  let k := top_k (length line_label) in
  let (sorted_att, sorted_indices) := sort_desc att in
  let sorted_att := firstn k sorted_att in
  let sorted_indices := firstn k sorted_indices in
  match index_select line_label sorted_indices with
  | Some line_label' => Some (jsd sorted_att line_label' epsilon_default)
  | None => None
  end.

(** The loop over [zip(line_atts, line_labels, labels)]: the count of
    examples that were scored and their losses, in order. *)
Fixpoint line_loss_loop (line_atts line_labels : list tensor) (labels : tensor)
         (cnt : nat) (losses : tensor) : option (nat * tensor) :=
  match line_atts, line_labels, labels with
  | att :: atts, line_label :: lls, file_label :: fls =>
      if skipped file_label line_label
      then line_loss_loop atts lls fls cnt losses
      else
        match example_line_loss att line_label with
        | Some l => line_loss_loop atts lls fls (S cnt) (losses ++ [l])
        | None => None
        end
  | _, _, _ => Some (cnt, losses)
  end.

(** The examples of a batch that the loop scores: those it does not skip,
    each with its attention row, its line labels and its file label. *)
Definition eligible_examples (line_atts line_labels : list tensor)
           (labels : tensor) : list (tensor * tensor * scalar) :=
  filter (fun t => negb (skipped (snd t) (snd (fst t))))
         (combine (combine line_atts line_labels) labels).

(** [k = args.k * (cnt / len(labels))], for a batch that is not empty. *)
Definition k_eff (args_k : R) (cnt len_labels : nat) : R :=
  args_k * (INR cnt / INR len_labels).

(** [(1 - k) * file_loss + k * line_loss]. *)
Definition blend (k : R) (file_loss line_loss : scalar) : scalar :=
  sadd (smul (Fin (1 - k)) file_loss) (smul (Fin k) line_loss).

Record batch_result : Type := {
  br_cnt : nat;
  br_line_loss : scalar;
  br_k : R;
  br_loss : scalar
}.

(** Lines 195-220 of the training loop and, with the same text, lines
    255-280 of the validation loop. *)
Definition batch_loss (args_k : R) (file_loss : scalar)
           (line_atts line_labels : list tensor) (labels : tensor)
  : option batch_result :=
  match normalize line_atts with
  | None => None
  | Some line_atts' =>
      match line_loss_loop line_atts' line_labels labels 0 [] with
      | None => None
      | Some (cnt, losses) =>
          let line_loss :=
            if Nat.ltb 0 (length losses) then tmean losses else Fin 0 in
          (* [cnt / len(labels)] raises on a batch without examples *)
          if Nat.eqb (length labels) 0 then None
          else
            let k := k_eff args_k cnt (length labels) in
            Some {| br_cnt := cnt; br_line_loss := line_loss; br_k := k;
                    br_loss := blend k file_loss line_loss |}
      end
  end.

(* ================================================================= *)
(** ** Lines 219-220 in the arithmetic of the program

    [args.k], [cnt / len(labels)], [k] and [1 - k] are Python floats,
    binary64 numbers; [file_loss] and [line_loss] are tensors of one
    binary32 number each.  The product of a Python float and such a tensor
    is a binary32 tensor: the float is rounded to binary32 and the product
    is rounded once more, and so is the sum of the two products. *)

Definition float : Type := SpecFloat.spec_float.

(** A mantissa and an exponent of two, rounded to binary64, to binary32. *)
Definition binary64 (m e : Z) : float :=
  SpecFloat.binary_normalize 53 1024 m e false.

Definition binary32 (m e : Z) : float :=
  SpecFloat.binary_normalize 24 128 m e false.

(** [float(n)] of a Python integer. *)
Definition float_of_int (n : nat) : float := binary64 (Z.of_nat n) 0.

(** A Python float as the scalar operand of a binary32 tensor. *)
Definition to_binary32 (x : float) : float :=
  match x with
  | SpecFloat.S754_finite s m e => SpecFloat.binary_round 24 128 s m e
  | _ => x
  end.

(** [k = args.k * (cnt / len(labels))], in binary64. *)
Definition k_eff64 (args_k : float) (cnt len_labels : nat) : float :=
  SpecFloat.SFmul 53 1024 args_k
    (SpecFloat.SFdiv 53 1024 (float_of_int cnt) (float_of_int len_labels)).

(** [(1 - k) * file_loss + k * line_loss], with binary32 losses. *)
Definition blend32 (k : float) (file_loss line_loss : float) : float :=
  SpecFloat.SFadd 24 128
    (SpecFloat.SFmul 24 128
       (to_binary32 (SpecFloat.SFsub 53 1024 (float_of_int 1) k)) file_loss)
    (SpecFloat.SFmul 24 128 (to_binary32 k) line_loss).

(** The Python float [0.2], the default of [args.k]: the binary64 number
    nearest to 1/5. *)
Definition float_0_2 : float := binary64 7205759403792794 (-55).

(* ================================================================= *)
(** ** Class weights *)

Definition insert_unique (x : nat) : list nat -> list nat :=
  fix go (l : list nat) : list nat :=
    match l with
    | [] => [x]
    | y :: l' =>
        if Nat.ltb x y then x :: y :: l'
        else if Nat.eqb x y then y :: l'
        else y :: go l'
    end.

(** [np.unique]: the distinct values, ascending. *)
Definition np_unique (y : list nat) : list nat :=
  fold_right insert_unique [] y.

(** [compute_class_weight(class_weight='balanced', classes=classes, y=y)] of
    scikit-learn: [n_samples / (n_classes * np.bincount(y))], one weight per
    class, in the order of [classes]. *)
Definition compute_class_weight (classes y : list nat) : list R :=
  map (fun c => INR (length y)
                / (INR (length classes) * INR (count_occ Nat.eq_dec y c)))
      classes.

(** [np.max] and [np.min]; they raise on an empty array. *)
Definition np_max (l : list R) : option R :=
  match l with
  | [] => None
  | x :: rest => Some (fold_left Rmax rest x)
  end.

Definition np_min (l : list R) : option R :=
  match l with
  | [] => None
  | x :: rest => Some (fold_left Rmin rest x)
  end.

(** A Python dict with string keys. *)
Definition dict : Type := list (string * R).

Definition dict_set (d : dict) (key : string) (v : R) : dict :=
  (key, v) :: filter (fun p => negb (String.eqb (fst p) key)) d.

Fixpoint dict_get (d : dict) (key : string) : option R :=
  match d with
  | [] => None
  | (k, v) :: d' => if String.eqb k key then Some v else dict_get d' key
  end.

(** Lines 116-118, from the array [sample_weights] of line 114; [np.max]
    and [np.min] raise on an empty array. *)
Definition weight_dict_of (sample_weights : list R) : option dict :=
  match np_max sample_weights, np_min sample_weights with
  | Some mx, Some mn =>
      let weight_dict := [] in
      let weight_dict := dict_set weight_dict "defect" mx in
      let weight_dict := dict_set weight_dict "clean" mn in
      Some weight_dict
  | _, _ => None
  end.

(** Lines 114-118, as a function of the training labels. *)
Definition make_weight_dict (train_label : list nat) : option dict :=
  let sample_weights :=
    compute_class_weight (np_unique train_label) train_label in
  weight_dict_of sample_weights.

(** [get_loss_weight].  [labels.numpy().squeeze().tolist()], wrapped in a
    list again when there is a single label, is the list of the labels. *)
Fixpoint get_loss_weight (labels : tensor) (weight_dict : dict)
  : option tensor :=
  match labels with
  | [] => Some []
  | lab :: rest =>
      let w := if seqb lab (Fin 0)
               then dict_get weight_dict "clean"
               else dict_get weight_dict "defect" in
      match w, get_loss_weight rest weight_dict with
      | Some x, Some xs => Some (Fin x :: xs)
      | _, _ => None
      end
  end.

(* ================================================================= *)
(** ** Data loaders *)

(** [torch.utils.data.BatchSampler]: indices are appended to the current
    batch, a batch that reaches [batch_size] is yielded, and what is left
    at the end is yielded unless [drop_last]. *)
Fixpoint batch_sampler {A : Type} (batch_size : nat) (drop_last : bool)
         (sampler : list A) (batch : list A) : list (list A) :=
  match sampler with
  | [] => if Nat.ltb 0 (length batch) && negb drop_last then [batch] else []
  | idx :: rest =>
      let batch := batch ++ [idx] in
      if Nat.eqb (length batch) batch_size
      then batch :: batch_sampler batch_size drop_last rest []
      else batch_sampler batch_size drop_last rest batch
  end.

Definition collate_fn {A : Type} (batch : list A) : list A :=
  map (fun data_list => data_list) batch.

(** [DataLoader(dataset, batch_size=.., drop_last=.., collate_fn=collate_fn)]
    over a dataset already put in the sampler's order. *)
Definition DataLoader {A : Type} (dataset : list A) (batch_size : nat)
           (drop_last : bool) : list (list A) :=
  map collate_fn (batch_sampler batch_size drop_last dataset []).

(** [t.reshape(rows, 1)]: raises unless [t] has [rows] entries. *)
Definition reshape_column (t : tensor) (rows : nat) : option tensor :=
  if Nat.eqb (length t) rows then Some t else None.

(* ================================================================= *)
(** ** Gradients *)

Definition Rsum (l : list R) : R := fold_right Rplus 0 l.

(** [nn.utils.clip_grad_norm_(parameters, max_norm)] on the gradients. *)
Definition clip_grad_norm_ (grads : list R) (max_norm : R) : list R :=
  let total_norm := sqrt (Rsum (map (fun g => g * g) grads)) in
  let clip_coef := max_norm / (total_norm + 1 / 1000000) in
  let clip_coef_clamped := Rmin clip_coef 1 in
  map (fun g => g * clip_coef_clamped) grads.

(** An [nn.Module] as the loop sees it: its parameters and their [.grad]. *)
Record module_obj : Type := {
  parameters : list R;
  grad : list R
}.

(* ================================================================= *)
(** ** Python exceptions *)

Inductive exn : Type :=
| ValueError
| RuntimeError
| IndexError
| KeyError
| AttributeError.

Inductive result (A : Type) : Type :=
| Ok (a : A)
| Raise (e : exn).

Arguments Ok {A} a.
Arguments Raise {A} e.

Definition bind {A B : Type} (r : result A) (k : A -> result B) : result B :=
  match r with
  | Ok a => k a
  | Raise e => Raise e
  end.

Definition of_option {A : Type} (e : exn) (o : option A) : result A :=
  match o with
  | Some a => Ok a
  | None => Raise e
  end.

Notation "x <- r ;; k" := (bind r (fun x => k))
  (at level 61, r at next level, right associativity).
Notation "' p <- r ;; k" := (bind r (fun p => k))
  (at level 61, p pattern, r at next level, right associativity).

(* ================================================================= *)
(** ** The object store *)

Definition loc : Type := nat.
Definition heap : Type := list module_obj.

Definition heap_get (h : heap) (l : loc) : option module_obj := nth_error h l.

Fixpoint heap_set (h : heap) (l : loc) (o : module_obj) : heap :=
  match h, l with
  | [], _ => []
  | _ :: h', O => o :: h'
  | x :: h', S l' => x :: heap_set h' l' o
  end.

(** [copy.deepcopy(obj)]: a new object with a copy of the contents. *)
Definition deepcopy (h : heap) (l : loc) : option (heap * loc) :=
  match heap_get h l with
  | Some o => Some (h ++ [o], length h)
  | None => None
  end.

(* ================================================================= *)
(** ** The training run *)

(** What the run takes from outside: the frozen encoder ([codebert]), the
    attention network as a function of its parameters, the training flag and
    the embedded batch, the file criterion ([nn.BCEWithLogitsLoss] with its
    [weight]), reverse-mode differentiation of a loss in the parameters, one
    step of the optimiser, the AUC metric (it raises on a single class) and
    the permutation drawn for each epoch. *)
Record Collaborators : Type := {
  input : Type;
  embedding : Type;
  opt_state : Type;
  codebert : input -> embedding;
  network : list R -> bool -> list embedding -> tensor * list tensor;
  criterion_file : option tensor -> tensor -> tensor -> scalar;
  autograd : (list R -> option scalar) -> list R -> list R;
  optimizer_step : opt_state -> list R -> list R -> opt_state * list R;
  roc_auc_score : tensor -> tensor -> option R;
  shuffle : nat -> list (input * scalar * tensor) -> list (input * scalar * tensor)
}.

Record Args : Type := {
  args_batch_size : nat;
  args_num_epochs : nat;
  args_k : R;
  args_max_grad_norm : R
}.

Record selector : Type := {
  best_auc : R;
  best_epoch : nat;
  best_model : option loc
}.

Record metrics : Type := {
  train_loss_all_epochs : tensor;
  val_loss_all_epochs : tensor;
  val_auc_all_epochs : list R
}.

(** [nn.Sigmoid]. *)
Definition sig (output : tensor) : tensor :=
  map (fun x => sdiv (Fin 1) (sadd (Fin 1) (sexp (sneg x)))) output.

(** [torch.cat]; it raises on an empty list of tensors. *)
Definition torch_cat (ts : list tensor) : option tensor :=
  match ts with
  | [] => None
  | _ => Some (concat ts)
  end.

(** [np.mean] of a Python list of floats (not a number when it is empty). *)
Definition np_mean (l : tensor) : scalar := tmean l.

(** The variable [model] is bound once, to the first object of the store. *)
Definition model : loc := 0%nat.

Section Run.

Variable C : Collaborators.

Definition example : Type := (input C * scalar * tensor)%type.

(** [TextDataset]: one item per file, the file label as a float. *)
Definition TextDataset (datasets : list (input C)) (labels : list nat)
           (line_labels : list tensor) : list example :=
  map (fun p => (fst (fst p), Fin (INR (snd (fst p))), snd p))
      (combine (combine datasets labels) line_labels).

Record checkpoint : Type := {
  ck_epoch : nat;
  ck_model_state_dict : list R;
  ck_optimizer_state_dict : opt_state C
}.

(** What the run does that can be observed from outside a single
    expression, in the order in which it happens. *)
Inductive event : Type :=
| EvClassWeight (sample_weights : list R)
| EvBackward (g : list R)
| EvOptimizerStep (g : list R)
| EvZeroGrad
| EvClipGradNorm (g : list R)
| EvDeepcopy (epoch : nat) (l : loc)
| EvSaveCheckpoint (c : checkpoint)
| EvSaveLossCsv (rows : list (nat * scalar * scalar * R)).

Record state : Type := {
  st_heap : heap;
  st_optimizer : opt_state C;
  st_selector : selector;
  st_metrics : metrics;
  st_log : list event
}.

Definition with_heap (h : heap) (st : state) : state :=
  {| st_heap := h; st_optimizer := st_optimizer st;
     st_selector := st_selector st; st_metrics := st_metrics st;
     st_log := st_log st |}.

Definition with_optimizer (o : opt_state C) (st : state) : state :=
  {| st_heap := st_heap st; st_optimizer := o;
     st_selector := st_selector st; st_metrics := st_metrics st;
     st_log := st_log st |}.

Definition with_selector (s : selector) (st : state) : state :=
  {| st_heap := st_heap st; st_optimizer := st_optimizer st;
     st_selector := s; st_metrics := st_metrics st;
     st_log := st_log st |}.

Definition with_metrics (m : metrics) (st : state) : state :=
  {| st_heap := st_heap st; st_optimizer := st_optimizer st;
     st_selector := st_selector st; st_metrics := m;
     st_log := st_log st |}.

Definition emit (e : event) (st : state) : state :=
  {| st_heap := st_heap st; st_optimizer := st_optimizer st;
     st_selector := st_selector st; st_metrics := st_metrics st;
     st_log := st_log st ++ [e] |}.

(** The forward pass and the loss of one batch, as a function of the
    parameters of the network: lines 189-220 with [training = true] and
    [rows = args.batch_size], lines 250-280 with [training = false] and
    [rows = len(labels)]. *)
Definition forward_loss (args : Args) (training : bool)
           (weight : option tensor) (rows : nat)
           (cov_inputs : list (embedding C)) (labels : tensor)
           (line_labels : list tensor) (theta : list R)
  : result (tensor * scalar) :=
  let (output, line_atts) := network C theta training cov_inputs in
  target <- of_option RuntimeError (reshape_column labels rows) ;;
  let file_loss := criterion_file C weight output target in
  r <- of_option IndexError
         (batch_loss (args_k args) file_loss line_atts line_labels labels) ;;
  Ok (output, br_loss r).

(** [loss.backward()]: the gradient is added to [.grad]. *)
Definition loss_backward (g : list R) (st : state) : result state :=
  m <- of_option RuntimeError (heap_get (st_heap st) model) ;;
  let m' := {| parameters := parameters m; grad := map2 Rplus (grad m) g |} in
  Ok (emit (EvBackward g) (with_heap (heap_set (st_heap st) model m') st)).

(** [optimizer.step()]: reads [.grad], writes the parameters in place. *)
Definition optimizer_step_ (st : state) : result state :=
  m <- of_option RuntimeError (heap_get (st_heap st) model) ;;
  let (o, theta) := optimizer_step C (st_optimizer st) (parameters m) (grad m) in
  let m' := {| parameters := theta; grad := grad m |} in
  Ok (emit (EvOptimizerStep (grad m))
        (with_optimizer o (with_heap (heap_set (st_heap st) model m') st))).

(** [optimizer.zero_grad()]. *)
Definition optimizer_zero_grad (st : state) : result state :=
  m <- of_option RuntimeError (heap_get (st_heap st) model) ;;
  let m' := {| parameters := parameters m;
               grad := map (fun _ => 0) (grad m) |} in
  Ok (emit EvZeroGrad (with_heap (heap_set (st_heap st) model m') st)).

(** [nn.utils.clip_grad_norm_(model.parameters(), args.max_grad_norm)]. *)
Definition clip_gradients (max_norm : R) (st : state) : result state :=
  m <- of_option RuntimeError (heap_get (st_heap st) model) ;;
  let m' := {| parameters := parameters m;
               grad := clip_grad_norm_ (grad m) max_norm |} in
  Ok (emit (EvClipGradNorm (grad m))
        (with_heap (heap_set (st_heap st) model m') st)).

(** One iteration of the training loop, lines 176-227; the result carries
    [loss.item()]. *)
Definition train_batch (args : Args) (weight_dict : dict)
           (batch : list example) (st : state) : result (state * scalar) :=
  let inputs := map (fun item => fst (fst item)) batch in
  let labels := map (fun item => snd (fst item)) batch in
  let line_labels := map (fun item => snd item) batch in
  let cov_inputs := map (codebert C) inputs in
  weight_tensor_file <-
    of_option KeyError (get_loss_weight labels weight_dict) ;;
  m <- of_option RuntimeError (heap_get (st_heap st) model) ;;
  let loss_of := forward_loss args true (Some weight_tensor_file)
                   (args_batch_size args) cov_inputs labels line_labels in
  ' (_, loss) <- loss_of (parameters m) ;;
  let g := autograd C
             (fun theta => match loss_of theta with
                           | Ok (_, l) => Some l
                           | Raise _ => None
                           end)
             (parameters m) in
  st <- loss_backward g st ;;
  st <- optimizer_step_ st ;;
  st <- optimizer_zero_grad st ;;
  st <- clip_gradients (args_max_grad_norm args) st ;;
  Ok (st, loss).

Fixpoint train_loop (args : Args) (weight_dict : dict)
         (train_dl : list (list example)) (st : state) (train_losses : tensor)
  : result (state * tensor) :=
  match train_dl with
  | [] => Ok (st, train_losses)
  | batch :: rest =>
      ' (st', loss) <- train_batch args weight_dict batch st ;;
      train_loop args weight_dict rest st' (train_losses ++ [loss])
  end.

(** One iteration of the validation loop, lines 238-281: the sigmoid of
    the outputs, the labels and [val_loss.item()]. *)
Definition valid_batch (args : Args) (theta : list R) (batch : list example)
  : result (tensor * tensor * scalar) :=
  let inputs := map (fun item => fst (fst item)) batch in
  let labels := map (fun item => snd (fst item)) batch in
  let line_labels := map (fun item => snd item) batch in
  let cov_inputs := map (codebert C) inputs in
  ' (output, val_loss) <-
    forward_loss args false None (length labels) cov_inputs labels
                 line_labels theta ;;
  Ok (sig output, labels, val_loss).

Fixpoint valid_loop (args : Args) (theta : list R)
         (valid_dl : list (list example))
         (outputs outputs_labels : list tensor) (val_losses : tensor)
  : result (list tensor * list tensor * tensor) :=
  match valid_dl with
  | [] => Ok (outputs, outputs_labels, val_losses)
  | batch :: rest =>
      ' (o, l, val_loss) <- valid_batch args theta batch ;;
      valid_loop args theta rest (outputs ++ [o]) (outputs_labels ++ [l])
                 (val_losses ++ [val_loss])
  end.

(** Lines 291-294. *)
Definition select_best (epoch : nat) (valid_auc : R) (st : state)
  : result state :=
  if Rle_dec (best_auc (st_selector st)) valid_auc
  then
    ' (h, l) <- of_option RuntimeError (deepcopy (st_heap st) model) ;;
    Ok (emit (EvDeepcopy epoch l)
          (with_selector {| best_auc := valid_auc; best_epoch := epoch;
                            best_model := Some l |}
             (with_heap h st)))
  else Ok st.

(** Lines 302-305; [best_model.state_dict()] raises when [best_model] is
    still [None]. *)
Definition save_checkpoint (st : state) : result state :=
  match best_model (st_selector st) with
  | None => Raise AttributeError
  | Some l =>
      b <- of_option RuntimeError (heap_get (st_heap st) l) ;;
      Ok (emit (EvSaveCheckpoint
                  {| ck_epoch := best_epoch (st_selector st);
                     ck_model_state_dict := parameters b;
                     ck_optimizer_state_dict := st_optimizer st |}) st)
  end.

(** Lines 307-312: the table of all epochs so far. *)
Definition loss_df (m : metrics) : list (nat * scalar * scalar * R) :=
  combine (combine (combine (seq 1 (length (train_loss_all_epochs m)))
                            (train_loss_all_epochs m))
                   (val_loss_all_epochs m))
          (val_auc_all_epochs m).

(** The body of the loop over epochs, lines 171-312. *)
Definition epoch_body (args : Args) (weight_dict : dict)
           (x_train_vec x_valid_vec : list example) (epoch : nat) (st : state)
  : result state :=
  let train_dl :=
    DataLoader (shuffle C epoch x_train_vec) (args_batch_size args) true in
  let valid_dl := DataLoader x_valid_vec (args_batch_size args) false in
  ' (st, train_losses) <- train_loop args weight_dict train_dl st [] ;;
  let mt := st_metrics st in
  let st := with_metrics
              {| train_loss_all_epochs :=
                   train_loss_all_epochs mt ++ [np_mean train_losses];
                 val_loss_all_epochs := val_loss_all_epochs mt;
                 val_auc_all_epochs := val_auc_all_epochs mt |} st in
  m <- of_option RuntimeError (heap_get (st_heap st) model) ;;
  ' (outputs, outputs_labels, val_losses) <-
    valid_loop args (parameters m) valid_dl [] [] [] ;;
  let mt := st_metrics st in
  let st := with_metrics
              {| train_loss_all_epochs := train_loss_all_epochs mt;
                 val_loss_all_epochs :=
                   val_loss_all_epochs mt ++ [np_mean val_losses];
                 val_auc_all_epochs := val_auc_all_epochs mt |} st in
  y_prob <- of_option RuntimeError (torch_cat outputs) ;;
  y_gt <- of_option RuntimeError (torch_cat outputs_labels) ;;
  valid_auc <- of_option ValueError (roc_auc_score C y_gt y_prob) ;;
  let mt := st_metrics st in
  let st := with_metrics
              {| train_loss_all_epochs := train_loss_all_epochs mt;
                 val_loss_all_epochs := val_loss_all_epochs mt;
                 val_auc_all_epochs := val_auc_all_epochs mt ++ [valid_auc] |}
              st in
  st <- select_best epoch valid_auc st ;;
  st <- (if Nat.eqb (epoch mod args_num_epochs args) 0
         then save_checkpoint st
         else Ok st) ;;
  Ok (emit (EvSaveLossCsv (loss_df (st_metrics st))) st).

(** [for epoch in range(1, args.num_epochs + 1)]. *)
Fixpoint epoch_loop (args : Args) (weight_dict : dict)
         (x_train_vec x_valid_vec : list example) (epochs : list nat)
         (st : state) : result state :=
  match epochs with
  | [] => Ok st
  | epoch :: rest =>
      st' <- epoch_body args weight_dict x_train_vec x_valid_vec epoch st ;;
      epoch_loop args weight_dict x_train_vec x_valid_vec rest st'
  end.

(** The objects of the run as lines 138, 157 and 161-169 build them: the
    network with its gradients at zero, the optimiser, the selector and the
    empty metrics.  Nothing has been logged. *)
Definition initial_state (theta0 : list R) (opt0 : opt_state C) : state :=
  {| st_heap := [ {| parameters := theta0;
                     grad := map (fun _ => 0) theta0 |} ];
     st_optimizer := opt0;
     st_selector := {| best_auc := 0; best_epoch := 0%nat;
                       best_model := None |};
     st_metrics := {| train_loss_all_epochs := [];
                      val_loss_all_epochs := [];
                      val_auc_all_epochs := [] |};
     st_log := [] |}.

(** Line 114: the call of [compute_class_weight], which the log records,
    and the array it returns. *)
Definition compute_sample_weights (train_label : list nat) (st : state)
  : list R * state :=
  let sample_weights :=
    compute_class_weight (np_unique train_label) train_label in
  (sample_weights, emit (EvClassWeight sample_weights) st).

(** [train_model], from the labelled files of the two releases and the
    freshly built network and optimiser.  The objects that lines 138-169
    build are read by the loop only, so the state starts with them. *)
Definition train_model (args : Args) (theta0 : list R) (opt0 : opt_state C)
           (train_code3d : list (input C)) (train_label : list nat)
           (train_line_label : list tensor)
           (valid_code3d : list (input C)) (valid_label : list nat)
           (valid_line_label : list tensor) : result state :=
  let st := initial_state theta0 opt0 in
  let (sample_weights, st) := compute_sample_weights train_label st in
  weight_dict <- of_option ValueError (weight_dict_of sample_weights) ;;
  let x_train_vec := TextDataset train_code3d train_label train_line_label in
  let x_valid_vec := TextDataset valid_code3d valid_label valid_line_label in
  epoch_loop args weight_dict x_train_vec x_valid_vec
             (seq 1 (args_num_epochs args)) st.

End Run.

Arguments st_heap {C} s.
Arguments st_optimizer {C} s.
Arguments st_selector {C} s.
Arguments st_metrics {C} s.
Arguments st_log {C} s.

(* ================================================================= *)
(** ** Vocabulary of the specification *)

(** A strictly positive entry of a label vector. *)
Definition positive_entry (x : scalar) : Prop :=
  match x with
  | Fin r => 0 < r
  | PInf => True
  | _ => False
  end.

(** Line labels are 0 or 1. *)
Definition binary_labels (line_label : tensor) : Prop :=
  Forall (fun x => x = Fin 0 \/ x = Fin 1) line_label.

(** Events of the optimisation step of a training iteration. *)
Definition training_event {C : Collaborators} (e : event C) : Prop :=
  match e with
  | EvBackward _ _ | EvOptimizerStep _ _ | EvZeroGrad _ | EvClipGradNorm _ _ => True
  | _ => False
  end.

Definition is_save {C : Collaborators} (e : event C) : bool :=
  match e with EvSaveCheckpoint _ _ => true | _ => false end.

Definition is_loss_csv {C : Collaborators} (e : event C) : bool :=
  match e with EvSaveLossCsv _ _ => true | _ => false end.

Definition is_class_weight {C : Collaborators} (e : event C) : bool :=
  match e with EvClassWeight _ _ => true | _ => false end.

(** What training may change between two states: the model object, the
    optimiser and the log, the latter by events of optimisation steps
    only.  Objects other than the model, the selector and the metrics are
    untouched. *)
Definition trains {C : Collaborators} (st st' : state C) : Prop :=
  st_selector st' = st_selector st /\
  st_metrics st' = st_metrics st /\
  length (st_heap st') = length (st_heap st) /\
  (forall l : loc, l <> model ->
                   heap_get (st_heap st') l = heap_get (st_heap st) l) /\
  exists evs : list (event C),
    st_log st' = st_log st ++ evs /\ Forall training_event evs.

(** [auc] is the largest of the validation AUCs [aucs] of the epochs 1, 2,
    ... and [epoch] is the last epoch that reached it. *)
Definition is_last_max (aucs : list R) (auc : R) (epoch : nat) : Prop :=
  (1 <= epoch <= length aucs)%nat /\
  nth_error aucs (epoch - 1) = Some auc /\
  Forall (fun a => a <= auc) aucs /\
  (forall (i : nat) (a : R),
      (epoch <= i)%nat -> nth_error aucs i = Some a -> a < auc).

(** What the run needs from its collaborators in order to complete: the
    network returns no empty attention row, and the AUC is defined (the
    validation labels hold both classes) and not negative. *)
Definition well_behaved (C : Collaborators) : Prop :=
  (forall (theta : list R) (training : bool) (cov_inputs : list (embedding C)),
      Forall (fun row => row <> [])
             (snd (network C theta training cov_inputs))) /\
  (forall y_gt y_prob : tensor,
      exists auc : R, roc_auc_score C y_gt y_prob = Some auc /\ 0 <= auc).

(** The selector refers to an object of the store, and before the first
    accepted epoch its best AUC is still the initial 0. *)
Definition selector_ready {C : Collaborators} (st : state C) : Prop :=
  (0 < length (st_heap st))%nat /\
  match best_model (st_selector st) with
  | None => best_auc (st_selector st) = 0
  | Some b => (b < length (st_heap st))%nat
  end.

(** The comparison of [sort_desc] on finite entries: larger values first. *)
Definition desc_before (p q : R * nat) : bool := Rltb (fst q) (fst p).

(** [p] comes before [q] in the descending stable order: a larger value,
    or the same value and a smaller index. *)
Definition comes_before (p q : R * nat) : Prop :=
  fst q < fst p \/ (fst p = fst q /\ (snd p < snd q)%nat).

Definition comes_before_b (p q : R * nat) : bool :=
  Rltb (fst q) (fst p) || (Reqb (fst p) (fst q) && Nat.ltb (snd p) (snd q)).

Definition inject (p : R * nat) : scalar * nat := (Fin (fst p), snd p).

(** The rank of position [i] among [values]: its 1-based position when the
    values are sorted in descending order, ties in the order of the
    indices; that is, one more than the number of positions that hold a
    larger value, or the same value at a smaller index. *)
Definition rank_of (values : list R) (i : nat) : nat :=
  S (length (filter (fun q => comes_before_b q (nth i values 0, i))
                    (enumerate values))).

(** The divergence as the specification writes it, position by position
    over the [k] selected lines: [P] and [Q] are the softmax of the
    restricted attention scores and of the restricted labels, [M] their
    smoothed midpoint, and each Kullback-Leibler term is discounted by the
    rank of its position among the labels. *)
Definition softmax_at (xs : list R) (i : nat) : R :=
  exp (nth i xs 0) / Rsum (map exp xs).

Definition discount_at (gt : list R) (i : nat) : R :=
  1 / log2 (INR (rank_of gt i) + 1).

Definition sum_over (k : nat) (f : nat -> R) : R := Rsum (map f (seq 0 k)).

Definition KL (k : nat) (p m discount : nat -> R) : R :=
  sum_over k (fun i => p i * log2 (p i / m i) * discount i).

(** The midpoint as the specification states it, [0.5 * (P + Q) + epsilon], and as
    line 88 computes it, [0.5 * (P + Q + epsilon)]. *)
Definition mid_claimed (epsilon p q : R) : R := 1 / 2 * (p + q) + epsilon.
Definition mid_code (epsilon p q : R) : R := 1 / 2 * (p + q + epsilon).

Definition line_rank_divergence (mid : R -> R -> R) (pred gt : list R) : R :=
  let k := length pred in
  let P := softmax_at pred in
  let Q := softmax_at gt in
  let M := fun i => mid (P i) (Q i) in
  1 / 2 * (KL k P M (discount_at gt) + KL k Q M (discount_at gt)).

(** A file of 100 lines whose normalised attention grows with the line
    number and whose last 20 lines are the defective ones: the 20 lines
    selected by the attention are the annotated lines. *)
Definition sample_att : list R := map (fun i => INR i / 99) (seq 0 100).

Definition sample_line_label : list R :=
  map (fun i => if Nat.leb 80 i then 1 else 0) (seq 0 100).

(* ================================================================= *)
(** ** A small instance of the collaborators

    Files are numbers, the network gives every file the logit 0 and the
    attention row [0, 1], the file criterion is the constant 1, the
    gradient of every loss is [30, 40], the optimiser is gradient descent
    with step 1 and counts its steps, the AUC is always 1/2 and the
    sampler keeps the order of the data. *)

Definition toy : Collaborators :=
  {| input := nat;
     embedding := nat;
     opt_state := nat;
     codebert := fun item => item;
     network := fun _ _ cov_inputs =>
                  (map (fun _ => Fin 0) cov_inputs,
                   map (fun _ => [Fin 0; Fin 1]) cov_inputs);
     criterion_file := fun _ _ _ => Fin 1;
     autograd := fun _ _ => [30; 40];
     optimizer_step := fun o theta g => (S o, map2 Rminus theta g);
     roc_auc_score := fun _ _ => Some (1 / 2);
     shuffle := fun _ dataset => dataset |}.

Definition toy_args : Args :=
  {| args_batch_size := 1; args_num_epochs := 2; args_k := 1 / 5;
     args_max_grad_norm := 5 |}.

(** A clean file of two lines. *)
Definition toy_batch : list (example toy) := [(7%nat, Fin 0, [Fin 0; Fin 0])].

Definition toy_weight_dict : dict := [("clean"%string, 1); ("defect"%string, 2)].

(* ================================================================= *)
(** ** Tokenisation and the dataset *)

(** Python's [l[:n]]: a negative [n] counts from the end of the list. *)
Definition slice_to {A : Type} (l : list A) (n : Z) : list A :=
  if (n <? 0)%Z
  then firstn (length l - Z.to_nat (- n)) l
  else firstn (Z.to_nat n) l.

(** Python's [[x] * n]: the empty list when [n] is not positive. *)
Definition list_times {A : Type} (x : A) (n : Z) : list A :=
  repeat x (Z.to_nat n).

(** Python's [l[i]]: a negative [i] counts from the end, and an index
    outside [-len(l) .. len(l) - 1] raises. *)
Definition py_index {A : Type} (l : list A) (i : Z) : option A :=
  let n := Z.of_nat (length l) in
  if ((i <? - n) || (n <=? i))%Z then None
  else nth_error l (Z.to_nat (if (i <? 0)%Z then i + n else i)).

(** What the program uses of the tokenizer.  [convert_tokens_to_ids] looks
    the tokens up one by one. *)
Record Tokenizer : Type := {
  tokenize : string -> list string;
  convert_token_to_id : string -> nat;
  cls_token : string;
  sep_token : string;
  pad_token_id : nat;
  max_len_single_sentence : Z
}.

Definition convert_tokens_to_ids (tokenizer : Tokenizer) (tokens : list string)
  : list nat :=
  map (convert_token_to_id tokenizer) tokens.

(** [convert_examples_to_features], with [args.block_size] as [block_size]. *)
Definition convert_examples_to_features (item : list string)
           (tokenizer : Tokenizer) (block_size : Z) : list nat :=
  let code := String.concat " " item in
  let code_tokens := slice_to (tokenize tokenizer code) (block_size - 2) in
  let source_tokens :=
    [cls_token tokenizer] ++ code_tokens ++ [sep_token tokenizer] in
  let source_ids := convert_tokens_to_ids tokenizer source_tokens in
  let padding_length := (block_size - Z.of_nat (length source_ids))%Z in
  source_ids ++ list_times (pad_token_id tokenizer) padding_length.

(** Lines 127-129: the block size [train_model] leaves in [args]. *)
Definition adjust_block_size (tokenizer : Tokenizer) (block_size : Z) : Z :=
  let block_size :=
    if (block_size <=? 0)%Z then max_len_single_sentence tokenizer
    else block_size in
  Z.min block_size (max_len_single_sentence tokenizer).

Record InputFeatures : Type := {
  feat_input_ids : list (list nat);
  feat_label : scalar;
  feat_line_label : tensor
}.

(** [TextDataset.__init__]: the list [self.examples].  A file is a list of
    lines, a line a list of words; [zip] stops at the shortest of its three
    arguments. *)
Definition TextDataset_init (tokenizer : Tokenizer) (block_size : Z)
           (datasets : list (list (list string))) (labels : list nat)
           (line_labels : list tensor) : list InputFeatures :=
  map (fun t =>
         {| feat_input_ids :=
              map (fun item =>
                     convert_examples_to_features item tokenizer block_size)
                  (fst (fst t));
            feat_label := Fin (INR (snd (fst t)));
            feat_line_label := snd t |})
      (combine (combine datasets labels) line_labels).

(** [TextDataset.__len__]. *)
Definition TextDataset_len (examples : list InputFeatures) : nat :=
  length examples.

(** [torch.tensor] of a list of lists of integers: the rows must have one
    length. *)
Definition torch_tensor_2d (rows : list (list nat)) : option (list (list nat)) :=
  match rows with
  | [] => Some []
  | r :: rest =>
      if forallb (fun r' => Nat.eqb (length r') (length r)) rest
      then Some rows else None
  end.

(** [TextDataset.__getitem__]. *)
Definition TextDataset_getitem (examples : list InputFeatures) (i : Z)
  : result (list (list nat) * scalar * tensor) :=
  e <- of_option IndexError (py_index examples i) ;;
  ids <- of_option ValueError (torch_tensor_2d (feat_input_ids e)) ;;
  Ok (ids, feat_label e, feat_line_label e).

(** A tokenizer for examples: every character is a token, and the id of a
    token is the code of its character. *)
Definition toy_tokenizer : Tokenizer :=
  {| tokenize := fun code =>
                   map (fun c => String c EmptyString) (list_ascii_of_string code);
     convert_token_to_id := fun t => match t with
                                     | String c _ => Ascii.nat_of_ascii c
                                     | EmptyString => 0%nat
                                     end;
     cls_token := "<";
     sep_token := ">";
     pad_token_id := 1;
     max_len_single_sentence := 510 |}.

(* ================================================================= *)
(** ** Seeds, and the files of a data set *)

(** [os.environ]. *)
Definition os_environ : Type := list (string * string).

Definition environ_set (env : os_environ) (key value : string) : os_environ :=
  (key, value) :: filter (fun p => negb (String.eqb (fst p) key)) env.

Fixpoint environ_get (env : os_environ) (key : string) : option string :=
  match env with
  | [] => None
  | (k, v) :: env' => if String.eqb k key then Some v else environ_get env' key
  end.

(** What [set_seed] writes: the seeds of the four generators, the cuDNN
    flag and the environment of the process. *)
Record process : Type := {
  random_seed : option Z;
  np_random_seed : option Z;
  torch_seed : option Z;
  torch_cuda_seed : option Z;
  cudnn_deterministic : bool;
  environ : os_environ
}.

(** Python's [str] of an integer. *)
Definition str (n : Z) : string :=
  DecimalString.NilZero.string_of_int (Z.to_int n).

(** [set_seed].  [np.random.seed] takes a seed between 0 and [2**32 - 1]
    and raises [ValueError] on any other one. *)
Definition set_seed (seed : Z) (p : process) : result process :=
  let random_seed' := Some seed in
  let environ' := environ_set (environ p) "PYHTONHASHSEED" (str seed) in
  if ((0 <=? seed) && (seed <? 2 ^ 32))%Z
  then Ok {| random_seed := random_seed';
             np_random_seed := Some seed;
             torch_seed := Some seed;
             torch_cuda_seed := Some seed;
             cudnn_deterministic := true;
             environ := environ' |}
  else Raise ValueError.

(** Line 97, the path of line 305 and the path of line 312. *)
Definition actual_save_model_dir (save_model_dir dataset_name : string) : string :=
  String.append (String.append save_model_dir dataset_name) "/".

Definition checkpoint_path (save_model_dir dataset_name : string) : string :=
  String.append (actual_save_model_dir save_model_dir dataset_name)
                "best_model.pth".

Definition loss_record_path (loss_dir dataset_name : string) : string :=
  String.append (String.append loss_dir dataset_name) "-loss_record.csv".

(* ================================================================= *)
(** ** Reading the log and the metrics *)

(** The tables that the run wrote with [loss_df.to_csv], in order. *)
Definition csv_tables {C : Collaborators} (log : list (event C))
  : list (list (nat * scalar * scalar * R)) :=
  flat_map (fun e => match e with
                     | EvSaveLossCsv _ rows => [rows]
                     | _ => []
                     end) log.

(** A call of [clip_grad_norm_] that found no gradient to clip: the
    gradients it was given were all 0. *)
Definition clips_zeros {C : Collaborators} (e : event C) : Prop :=
  match e with
  | EvClipGradNorm _ g => Forall (fun x => x = 0) g
  | _ => True
  end.

(** The file label of an item of the dataset. *)
Definition label_of {C : Collaborators} (item : example C) : scalar :=
  snd (fst item).

(** The three lists of metrics have [n] entries each, and so has the
    table, whose first column counts the epochs from 1. *)
Definition table_of (m : metrics) (n : nat) : Prop :=
  length (train_loss_all_epochs m) = n /\
  length (val_loss_all_epochs m) = n /\
  length (val_auc_all_epochs m) = n /\
  length (loss_df m) = n /\
  map (fun r => fst (fst (fst r))) (loss_df m) = seq 1 n.

(* ================================================================= *)
(** * Properties *)

(** ** Decisions on reals *)

Lemma Reqb_true (x y : R) : x = y -> Reqb x y = true.
Proof. intros H. unfold Reqb. destruct (Req_dec_T x y); [reflexivity | contradiction]. Qed.

Lemma Reqb_false (x y : R) : x <> y -> Reqb x y = false.
Proof. intros H. unfold Reqb. destruct (Req_dec_T x y); [contradiction | reflexivity]. Qed.

Lemma Rltb_true (x y : R) : x < y -> Rltb x y = true.
Proof. intros H. unfold Rltb. destruct (Rlt_dec x y); [reflexivity | contradiction]. Qed.

Lemma Rltb_false (x y : R) : ~ x < y -> Rltb x y = false.
Proof. intros H. unfold Rltb. destruct (Rlt_dec x y); [contradiction | reflexivity]. Qed.

(** ** [top_k] is integer division by five *)

Lemma top_k_div5 (len : nat) : top_k len = (len / 5)%nat.
Proof.
  unfold top_k.
  assert (H : Qfloor ((2 # 10) * inject_Z (Z.of_nat len)) = (Z.of_nat len / 5)%Z).
  { unfold Qfloor, Qmult, inject_Z. simpl Qnum. simpl Qden.
    change (Z.pos (10 * 1)) with (2 * 5)%Z.
    rewrite Z.div_mul_cancel_l by lia. reflexivity. }
  rewrite H. change 5%Z with (Z.of_nat 5).
  rewrite <- Nat2Z.inj_div. apply Nat2Z.id.
Qed.

Lemma top_k_small (len : nat) : (len < 5)%nat -> top_k len = 0%nat.
Proof. intros H. rewrite top_k_div5. apply Nat.div_small. exact H. Qed.

(** ** Finite arithmetic *)

Lemma sdiv_fin (x y : R) : y <> 0 -> sdiv (Fin x) (Fin y) = Fin (x / y).
Proof. intros H. unfold sdiv. rewrite Reqb_false by exact H. reflexivity. Qed.

Lemma sdiv_zero_zero (x y : R) : x = 0 -> y = 0 -> sdiv (Fin x) (Fin y) = NaN.
Proof. intros Hx Hy. unfold sdiv. rewrite !Reqb_true by assumption. reflexivity. Qed.

Lemma slog2_fin (x : R) : 0 < x -> slog2 (Fin x) = Fin (log2 x).
Proof. intros H. unfold slog2. rewrite Rltb_true by exact H. reflexivity. Qed.

Lemma sadd_nan_r (a : scalar) : sadd a NaN = NaN.
Proof. destruct a; reflexivity. Qed.

Lemma smul_nan_r (a : scalar) : smul a NaN = NaN.
Proof. destruct a; reflexivity. Qed.

Lemma k_eff_zero (args_k : R) (n : nat) : k_eff args_k 0 n = 0.
Proof. unfold k_eff. simpl INR. unfold Rdiv. rewrite Rmult_0_l. apply Rmult_0_r. Qed.

Lemma k_eff_full (args_k : R) (n : nat) : (0 < n)%nat -> k_eff args_k n n = args_k.
Proof.
  intros H. unfold k_eff.
  assert (Hn : INR n <> 0) by (apply not_0_INR; lia).
  field. exact Hn.
Qed.

Lemma k_eff_bounds (args_k : R) (cnt n : nat) :
  0 <= args_k -> (cnt <= n)%nat -> (0 < n)%nat ->
  0 <= k_eff args_k cnt n <= args_k.
Proof.
  intros Hk Hc Hn. unfold k_eff.
  assert (Hn' : 0 < INR n) by (apply lt_0_INR; exact Hn).
  assert (Hc' : 0 <= INR cnt) by apply pos_INR.
  assert (Hcn : INR cnt <= INR n) by (apply le_INR; exact Hc).
  assert (H0 : 0 <= INR cnt / INR n).
  { apply Rmult_le_pos; [exact Hc' | left; apply Rinv_0_lt_compat; exact Hn']. }
  assert (H1 : INR cnt / INR n <= 1).
  { apply Rmult_le_reg_r with (INR n); [exact Hn' |].
    unfold Rdiv. rewrite Rmult_assoc, Rinv_l by lra. lra. }
  split; nra.
Qed.

Lemma blend_fin (k f l : R) :
  blend k (Fin f) (Fin l) = Fin ((1 - k) * f + k * l).
Proof. reflexivity. Qed.

Lemma convex_between (k f l : R) :
  0 <= k <= 1 ->
  Rmin f l <= (1 - k) * f + k * l <= Rmax f l.
Proof.
  intros [H0 H1]. unfold Rmin, Rmax.
  destruct (Rle_dec f l); split; nra.
Qed.

(** With no weight on the line loss and a line loss of 0, the blend is the
    file loss, whatever value the file loss has. *)
Lemma blend_zero (k : R) (file_loss : scalar) :
  k = 0 -> blend k file_loss (Fin 0) = file_loss.
Proof.
  intros ->. unfold blend.
  destruct file_loss as [f | | |]; simpl.
  - f_equal. lra.
  - rewrite Reqb_false by lra. unfold signed_inf. rewrite Rltb_true by lra. reflexivity.
  - rewrite Reqb_false by lra. unfold signed_inf. rewrite Rltb_false by lra. reflexivity.
  - reflexivity.
Qed.

(** ** The loop over the examples of a batch *)

Lemma line_loss_loop_acc (line_atts line_labels : list tensor) :
  forall (labels : tensor) (cnt : nat) (losses : tensor) (cnt' : nat) (losses' : tensor),
    line_loss_loop line_atts line_labels labels cnt losses = Some (cnt', losses') ->
    exists new : tensor,
      losses' = losses ++ new /\
      cnt' = (cnt + length new)%nat /\
      Forall2 (fun t l => example_line_loss (fst (fst t)) (snd (fst t)) = Some l)
              (eligible_examples line_atts line_labels labels) new.
Proof.
  revert line_labels.
  induction line_atts as [| att atts IH]; intros line_labels labels cnt losses cnt' losses' H.
  - simpl in H. injection H as <- <-. exists []. rewrite app_nil_r.
    repeat split; [simpl; lia | constructor].
  - destruct line_labels as [| ll lls].
    { simpl in H. injection H as <- <-. exists []. rewrite app_nil_r.
      repeat split; [simpl; lia | constructor]. }
    destruct labels as [| fl fls].
    { simpl in H. injection H as <- <-. exists []. rewrite app_nil_r.
      repeat split; [simpl; lia | constructor]. }
    simpl in H. unfold eligible_examples. simpl.
    destruct (skipped fl ll) eqn:Hs; simpl.
    + apply IH in H. exact H.
    + destruct (example_line_loss att ll) as [l |] eqn:Hl; [| discriminate].
      apply IH in H. destruct H as (new & -> & -> & HF).
      exists (l :: new). rewrite <- app_assoc. simpl.
      repeat split; [lia |]. constructor; [exact Hl | exact HF].
Qed.

Lemma eligible_examples_length (line_atts line_labels : list tensor) (labels : tensor) :
  (length (eligible_examples line_atts line_labels labels) <= length labels)%nat.
Proof.
  unfold eligible_examples.
  eapply Nat.le_trans; [apply filter_length_le |].
  rewrite length_combine. apply Nat.le_min_r.
Qed.

(** What [batch_loss] returns, in terms of the examples that are scored. *)
Lemma batch_loss_inv (args_k : R) (file_loss : scalar)
      (line_atts line_labels : list tensor) (labels : tensor) (r : batch_result) :
  batch_loss args_k file_loss line_atts line_labels labels = Some r ->
  exists (line_atts' : list tensor) (losses : tensor),
    normalize line_atts = Some line_atts' /\
    Forall2 (fun t l => example_line_loss (fst (fst t)) (snd (fst t)) = Some l)
            (eligible_examples line_atts' line_labels labels) losses /\
    br_cnt r = length losses /\
    br_line_loss r = (if Nat.ltb 0 (length losses) then tmean losses else Fin 0) /\
    br_k r = k_eff args_k (br_cnt r) (length labels) /\
    br_loss r = blend (br_k r) file_loss (br_line_loss r).
Proof.
  unfold batch_loss. intros H.
  destruct (normalize line_atts) as [line_atts' |]; [| discriminate].
  destruct (line_loss_loop line_atts' line_labels labels 0 []) as [[cnt losses] |] eqn:HL;
    [| discriminate].
  destruct (Nat.eqb (length labels) 0); [discriminate |].
  injection H as <-. simpl.
  apply line_loss_loop_acc in HL. destruct HL as (new & Hl & Hc & HF).
  simpl in Hl, Hc. subst.
  exists line_atts', new. repeat split; assumption || reflexivity.
Qed.

Lemma batch_cnt_le (args_k : R) (file_loss : scalar)
      (line_atts line_labels : list tensor) (labels : tensor) (r : batch_result) :
  batch_loss args_k file_loss line_atts line_labels labels = Some r ->
  (br_cnt r <= length labels)%nat.
Proof.
  intros H. apply batch_loss_inv in H.
  destruct H as (la & losses & _ & HF & Hc & _).
  rewrite Hc. rewrite <- (Forall2_length HF). apply eligible_examples_length.
Qed.

(** ** The stable sort permutes its input *)

Lemma insert_by_perm {A : Type} (before : A -> A -> bool) (x : A) (l : list A) :
  Permutation (insert_by before x l) (x :: l).
Proof.
  induction l as [| y l IH]; simpl.
  - apply Permutation_refl.
  - destruct (before y x).
    + eapply Permutation_trans; [apply perm_skip, IH | apply perm_swap].
    + apply Permutation_refl.
Qed.

Lemma sort_by_perm {A : Type} (before : A -> A -> bool) (l : list A) :
  Permutation (sort_by before l) l.
Proof.
  induction l as [| x l IH]; simpl.
  - apply perm_nil.
  - eapply Permutation_trans; [apply insert_by_perm | apply perm_skip, IH].
Qed.

Lemma sort_by_length {A : Type} (before : A -> A -> bool) (l : list A) :
  length (sort_by before l) = length l.
Proof. apply Permutation_length, sort_by_perm. Qed.

Lemma map_snd_combine_seq {A : Type} (l : list A) (start : nat) :
  map snd (combine l (seq start (length l))) = seq start (length l).
Proof.
  revert start. induction l as [| x l IH]; intros start; simpl.
  - reflexivity.
  - f_equal. apply IH.
Qed.

Lemma map_fst_combine_seq {A : Type} (l : list A) (start : nat) :
  map fst (combine l (seq start (length l))) = l.
Proof.
  revert start. induction l as [| x l IH]; intros start; simpl.
  - reflexivity.
  - f_equal. apply IH.
Qed.

Lemma sort_desc_indices_perm (t : tensor) :
  Permutation (snd (sort_desc t)) (seq 0 (length t)).
Proof.
  unfold sort_desc. simpl.
  rewrite <- (map_snd_combine_seq t 0).
  apply Permutation_map, sort_by_perm.
Qed.

Lemma sort_desc_values_perm (t : tensor) :
  Permutation (fst (sort_desc t)) t.
Proof.
  unfold sort_desc. simpl.
  rewrite <- (map_fst_combine_seq t 0) at 2.
  apply Permutation_map, sort_by_perm.
Qed.

Lemma sort_desc_indices_bound (t : tensor) :
  Forall (fun i => (i < length t)%nat) (snd (sort_desc t)).
Proof.
  apply Forall_forall. intros i Hi.
  apply (Permutation_in _ (sort_desc_indices_perm t)) in Hi.
  apply in_seq in Hi. lia.
Qed.

Lemma sort_desc_lengths (t : tensor) :
  length (fst (sort_desc t)) = length t /\ length (snd (sort_desc t)) = length t.
Proof.
  unfold sort_desc. simpl. rewrite !length_map, sort_by_length.
  unfold enumerate. rewrite length_combine, length_seq, Nat.min_id. auto.
Qed.

(** ** Indexing never leaves the label vector *)

Lemma index_select_in_range {A : Type} (t : list A) (idx : list nat) :
  Forall (fun i => (i < length t)%nat) idx ->
  exists xs, index_select t idx = Some xs /\ length xs = length idx.
Proof.
  induction idx as [| i idx IH]; intros H.
  - exists []. auto.
  - inversion H as [| ? ? Hi Hrest]; subst.
    destruct (IH Hrest) as (xs & Hxs & Hlen).
    destruct (nth_error t i) as [x |] eqn:Hx.
    + exists (x :: xs). simpl. rewrite Hx, Hxs. simpl. auto.
    + apply nth_error_None in Hx. lia.
Qed.

Lemma Forall_firstn {A : Type} (P : A -> Prop) (n : nat) (l : list A) :
  Forall P l -> Forall P (firstn n l).
Proof.
  intros H. rewrite <- (firstn_skipn n l) in H.
  apply Forall_app in H. apply H.
Qed.

Lemma example_line_loss_total (att line_label : tensor) :
  exists l, example_line_loss att line_label = Some l.
Proof.
  unfold example_line_loss.
  destruct (sort_desc (firstn (length line_label) att)) as [sa si] eqn:Hs.
  assert (Hb : Forall (fun i => (i < length line_label)%nat)
                      (firstn (top_k (length line_label)) si)).
  { apply Forall_firstn.
    pose proof (sort_desc_indices_bound (firstn (length line_label) att)) as H.
    rewrite Hs in H. simpl in H.
    eapply Forall_impl; [| exact H]. intros i Hi. simpl in Hi.
    rewrite length_firstn in Hi. lia. }
  destruct (index_select_in_range line_label _ Hb) as (xs & Hxs & _).
  rewrite Hxs. eexists. reflexivity.
Qed.

Ltac real_dec :=
  repeat match goal with
    | |- context [Reqb ?x ?y] =>
        first [ rewrite (Reqb_true x y) by lra | rewrite (Reqb_false x y) by lra ]
    | |- context [Rltb ?x ?y] =>
        first [ rewrite (Rltb_true x y) by lra | rewrite (Rltb_false x y) by lra ]
    end.

(** ** The batch computation raises only on an empty attention row *)

Lemma normalize_row_nonempty (row : tensor) :
  row <> [] -> exists r, normalize_row row = Some r /\ length r = length row.
Proof.
  destruct row as [| a row]; [congruence | intros _].
  unfold normalize_row. simpl. eexists. split; [reflexivity |].
  simpl. rewrite length_map. reflexivity.
Qed.

Lemma normalize_total (line_atts : list tensor) :
  Forall (fun row => row <> []) line_atts ->
  exists line_atts', normalize line_atts = Some line_atts'.
Proof.
  induction 1 as [| row rest Hrow _ IH]; simpl.
  - eexists. reflexivity.
  - destruct (normalize_row_nonempty row Hrow) as (r & -> & _).
    destruct IH as (rs & ->). eexists. reflexivity.
Qed.

Lemma line_loss_loop_total (line_atts line_labels : list tensor) :
  forall (labels : tensor) (cnt : nat) (losses : tensor),
  exists res, line_loss_loop line_atts line_labels labels cnt losses = Some res.
Proof.
  revert line_labels.
  induction line_atts as [| att atts IH]; intros line_labels labels cnt losses.
  - simpl. eexists. reflexivity.
  - destruct line_labels as [| ll lls]; [simpl; eexists; reflexivity |].
    destruct labels as [| fl fls]; [simpl; eexists; reflexivity |].
    simpl. destruct (skipped fl ll).
    + apply IH.
    + destruct (example_line_loss_total att ll) as (l & ->). apply IH.
Qed.

Lemma batch_loss_total (args_k : R) (file_loss : scalar)
      (line_atts line_labels : list tensor) (labels : tensor) :
  labels <> [] ->
  Forall (fun row => row <> []) line_atts ->
  exists r, batch_loss args_k file_loss line_atts line_labels labels = Some r.
Proof.
  intros Hne H. unfold batch_loss.
  destruct (normalize_total line_atts H) as (la & ->).
  destruct (line_loss_loop_total la line_labels labels 0 []) as ([cnt losses] & ->).
  destruct labels as [| lab labels]; [congruence |].
  eexists. reflexivity.
Qed.

(** ** The empty selection *)

Lemma jsd_nil (epsilon : R) : jsd [] [] epsilon = Fin 0.
Proof.
  unfold jsd, kld, jsd_m, jsd_discounts, softmax, map2. simpl.
  f_equal. lra.
Qed.

Lemma example_line_loss_short (att line_label : tensor) :
  (length line_label < 5)%nat ->
  example_line_loss att line_label = Some (Fin 0).
Proof.
  intros H. unfold example_line_loss.
  rewrite (top_k_small _ H).
  destruct (sort_desc (firstn (length line_label) att)) as [sa si].
  rewrite !firstn_0. simpl. rewrite jsd_nil. reflexivity.
Qed.

(** ** The guard of the loop, in the words of the data model *)

Lemma seqb_fin_zero (a : scalar) : seqb a (Fin 0) = true <-> a = Fin 0.
Proof.
  destruct a as [x | | |]; simpl; try (split; discriminate).
  unfold Reqb. destruct (Req_dec_T x 0) as [-> | Hne].
  - split; reflexivity.
  - split; [discriminate | intros H; injection H; contradiction].
Qed.

Lemma existsb_one_positive (line_label : tensor) :
  binary_labels line_label ->
  (existsb (fun x => seqb x (Fin 1)) line_label = true
   <-> Exists positive_entry line_label).
Proof.
  induction 1 as [| x l Hx _ IH]; simpl.
  - split; [discriminate | intros H; inversion H].
  - rewrite orb_true_iff, IH. split.
    + intros [H | H]; [left | right; exact H].
      destruct Hx as [-> | ->]; simpl in *.
      * rewrite Reqb_false in H by lra. discriminate.
      * lra.
    + intros H. inversion H as [? ? Hp | ? ? Hp]; subst; [left | right; exact Hp].
      destruct Hx as [-> | ->]; simpl in *; [lra | apply Reqb_true; reflexivity].
Qed.

Lemma skipped_iff (file_label : scalar) (line_label : tensor) :
  binary_labels line_label ->
  (skipped file_label line_label = true
   <-> file_label = Fin 0 \/ ~ Exists positive_entry line_label).
Proof.
  intros Hb. unfold skipped.
  rewrite orb_true_iff, seqb_fin_zero, negb_true_iff.
  rewrite <- (existsb_one_positive line_label Hb).
  destruct (existsb _ line_label); split; intros [H | H]; auto; try discriminate.
  exfalso. apply H. reflexivity.
Qed.

(** ** A constant attention row *)

Lemma fold_smin_constant (c : R) (rest : tensor) :
  Forall (fun a => a = Fin c) rest -> fold_left smin rest (Fin c) = Fin c.
Proof.
  induction 1 as [| a rest Ha _ IH]; simpl; [reflexivity |].
  subst a. simpl. rewrite Rltb_false by lra. exact IH.
Qed.

Lemma fold_smax_constant (c : R) (rest : tensor) :
  Forall (fun a => a = Fin c) rest -> fold_left smax rest (Fin c) = Fin c.
Proof.
  induction 1 as [| a rest Ha _ IH]; simpl; [reflexivity |].
  subst a. simpl. rewrite Rltb_false by lra. exact IH.
Qed.

(** When the largest and the smallest score of a row are one value [c],
    every entry of the normalised row is [0/0]. *)
Lemma normalize_row_constant (c : R) (row : tensor) :
  row <> [] -> Forall (fun a => a = Fin c) row ->
  normalize_row row = Some (map (fun _ => NaN) row).
Proof.
  destruct row as [| a rest]; [congruence | intros _ H].
  inversion H as [| ? ? Ha Hrest]; subst.
  unfold normalize_row, row_min, row_max.
  rewrite fold_smin_constant, fold_smax_constant by assumption.
  f_equal. apply map_ext_in. intros x Hx.
  rewrite Forall_forall in H. rewrite (H x Hx).
  simpl. apply sdiv_zero_zero; lra.
Qed.

Lemma jsd_discounts_length (gt : tensor) :
  length (jsd_discounts gt) = length gt.
Proof.
  unfold jsd_discounts, argsort, argsort_desc.
  rewrite !length_map, sort_by_length. unfold enumerate.
  rewrite length_combine, length_seq, Nat.min_id.
  apply sort_desc_lengths.
Qed.

(** A prediction that starts with not-a-number poisons the divergence. *)
Lemma jsd_nan (p gs : tensor) (g : scalar) (epsilon : R) :
  jsd (NaN :: p) (g :: gs) epsilon = NaN.
Proof.
  unfold jsd.
  pose proof (jsd_discounts_length (g :: gs)) as Hd.
  destruct (jsd_discounts (g :: gs)) as [| d ds]; [discriminate |].
  assert (Hq : exists q qs, softmax (g :: gs) = q :: qs).
  { unfold softmax. simpl. eauto. }
  destruct Hq as (q & qs & ->).
  unfold softmax. simpl map.
  unfold kld at 1, jsd_m, map2. simpl. reflexivity.
Qed.

Lemma Forall_nan_perm (l l' : tensor) :
  Permutation l l' -> Forall (fun a => a = NaN) l' -> Forall (fun a => a = NaN) l.
Proof.
  intros HP H. apply Forall_forall. intros x Hx.
  rewrite Forall_forall in H. apply H. eapply Permutation_in; eassumption.
Qed.

(** An example that is scored, has at least five lines and an attention
    row of not-a-number gets a line loss that is not a number. *)
Lemma example_line_loss_nan (att line_label : tensor) :
  Forall (fun a => a = NaN) att ->
  (5 <= length line_label)%nat -> att <> [] ->
  example_line_loss att line_label = Some NaN.
Proof.
  intros Hnan Hlen Hne. unfold example_line_loss.
  set (att' := firstn (length line_label) att).
  assert (Hk : (1 <= top_k (length line_label))%nat).
  { rewrite top_k_div5. apply Nat.div_le_lower_bound; lia. }
  assert (Hlen' : (1 <= length att')%nat).
  { unfold att'. rewrite length_firstn. destruct att; [congruence | simpl; lia]. }
  assert (Hnan' : Forall (fun a => a = NaN) att').
  { unfold att'. apply Forall_firstn. exact Hnan. }
  pose proof (sort_desc_values_perm att') as HP.
  pose proof (sort_desc_lengths att') as [HL1 HL2].
  pose proof (sort_desc_indices_bound att') as HB.
  destruct (sort_desc att') as [sa si]. simpl in *.
  assert (Hb : Forall (fun i => (i < length line_label)%nat)
                      (firstn (top_k (length line_label)) si)).
  { apply Forall_firstn. eapply Forall_impl; [| exact HB].
    intros i Hi. simpl in Hi. unfold att' in Hi. rewrite length_firstn in Hi. lia. }
  destruct (index_select_in_range line_label _ Hb) as (xs & -> & Hxs).
  apply (Forall_nan_perm _ _ HP) in Hnan'.
  destruct sa as [| a sa]; [simpl in HL1; lia |].
  inversion Hnan' as [| ? ? Ha _]; subst a.
  destruct (top_k (length line_label)) as [| k]; [lia |].
  destruct si as [| i si]; [simpl in HL2; lia |].
  simpl in Hxs. destruct xs as [| g gs]; [discriminate |].
  simpl firstn. rewrite jsd_nan. reflexivity.
Qed.

Lemma normalize_nth (line_atts line_atts' : list tensor) :
  normalize line_atts = Some line_atts' ->
  forall (i : nat) (row : tensor),
    nth_error line_atts i = Some row ->
    exists row', nth_error line_atts' i = Some row' /\ normalize_row row = Some row'.
Proof.
  revert line_atts'. induction line_atts as [| r rest IH]; intros la' H i row Hi.
  - destruct i; discriminate.
  - simpl in H. destruct (normalize_row r) as [r' |] eqn:Hr; [| discriminate].
    destruct (normalize rest) as [rs |]; [| discriminate].
    injection H as <-. destruct i as [| i]; simpl in *.
    + injection Hi as <-. eauto.
    + eapply IH; eauto.
Qed.

Lemma nth_error_combine {A B : Type} (l : list A) (l' : list B) :
  forall (i : nat) (a : A) (b : B),
    nth_error l i = Some a -> nth_error l' i = Some b ->
    nth_error (combine l l') i = Some (a, b).
Proof.
  revert l'. induction l as [| x l IH]; intros l' i a b Ha Hb.
  - destruct i; discriminate.
  - destruct l' as [| y l']; [destruct i; discriminate |].
    destruct i as [| i]; simpl in *.
    + congruence.
    + apply IH; assumption.
Qed.

Lemma Forall2_in_left {A B : Type} (P : A -> B -> Prop) (l : list A) (l' : list B) :
  Forall2 P l l' -> forall x, In x l -> exists y, In y l' /\ P x y.
Proof.
  induction 1 as [| a b l l' Hab _ IH]; intros x Hx; [destruct Hx |].
  destruct Hx as [<- | Hx].
  - exists b. split; [left; reflexivity | exact Hab].
  - destruct (IH x Hx) as (y & Hy & HP). exists y. split; [right |]; assumption.
Qed.

Lemma tsum_nan (t : tensor) : In NaN t -> tsum t = NaN.
Proof.
  induction t as [| a t IH]; intros H; [destruct H |].
  unfold tsum. simpl. destruct H as [-> | H]; [reflexivity |].
  fold (tsum t). rewrite (IH H). apply sadd_nan_r.
Qed.

(** One scored example with a constant attention row and five lines or more
    is enough to make the line loss and the loss of the whole batch
    not-a-number. *)
Lemma batch_loss_constant_row (args_k : R) (file_loss : scalar)
      (line_atts line_labels : list tensor) (labels : tensor) (r : batch_result)
      (i : nat) (c : R) (row line_label : tensor) (file_label : scalar) :
  batch_loss args_k file_loss line_atts line_labels labels = Some r ->
  nth_error line_atts i = Some row ->
  nth_error line_labels i = Some line_label ->
  nth_error labels i = Some file_label ->
  skipped file_label line_label = false ->
  row <> [] -> Forall (fun a => a = Fin c) row ->
  (5 <= length line_label)%nat ->
  br_line_loss r = NaN /\ br_loss r = NaN.
Proof.
  intros H Hrow Hll Hfl Hsk Hne Hc Hlen.
  apply batch_loss_inv in H.
  destruct H as (la & losses & Hn & HF & _ & Hline & _ & Hloss).
  destruct (normalize_nth _ _ Hn i row Hrow) as (row' & Hrow' & Hnr).
  rewrite (normalize_row_constant c row Hne Hc) in Hnr. injection Hnr as <-.
  assert (Hin : In (map (fun _ => NaN) row, line_label, file_label)
                   (eligible_examples la line_labels labels)).
  { unfold eligible_examples. apply filter_In. split.
    - eapply nth_error_In. apply nth_error_combine; [| exact Hfl].
      apply nth_error_combine; eassumption.
    - simpl. rewrite Hsk. reflexivity. }
  destruct (Forall2_in_left _ _ _ HF _ Hin) as (l & Hl & He). simpl in He.
  rewrite example_line_loss_nan in He.
  - injection He as <-.
    assert (Hlosses : br_line_loss r = NaN).
    { rewrite Hline. destruct losses as [| l0 ls]; [destruct Hl |].
      simpl Nat.ltb. cbv iota. unfold tmean. rewrite (tsum_nan _ Hl). reflexivity. }
    split; [exact Hlosses |].
    rewrite Hloss, Hlosses. unfold blend. rewrite smul_nan_r. apply sadd_nan_r.
  - apply Forall_forall. intros x Hx. apply in_map_iff in Hx.
    destruct Hx as (? & <- & _). reflexivity.
  - exact Hlen.
  - destruct row; [congruence | discriminate].
Qed.

(** C1, evaluated where it fails.  A batch of one defective file with five
    lines, the second one annotated, and raw attention 1/2 on every line:
    [max - min] is 0, every normalised score is 0/0, and both the line loss
    and the loss of the batch are not-a-number.  No uniform attention is
    substituted. *)
Theorem constant_attention_gives_nan_loss :
  exists r : batch_result,
    batch_loss (1 / 5) (Fin 1)
               [[Fin (1 / 2); Fin (1 / 2); Fin (1 / 2); Fin (1 / 2); Fin (1 / 2)]]
               [[Fin 0; Fin 1; Fin 0; Fin 0; Fin 0]]
               [Fin 1] = Some r /\
    normalize_row [Fin (1 / 2); Fin (1 / 2); Fin (1 / 2); Fin (1 / 2); Fin (1 / 2)]
      = Some [NaN; NaN; NaN; NaN; NaN] /\
    br_line_loss r = NaN /\ br_loss r = NaN.
Proof.
  set (row := [Fin (1 / 2); Fin (1 / 2); Fin (1 / 2); Fin (1 / 2); Fin (1 / 2)]).
  set (ll := [Fin 0; Fin 1; Fin 0; Fin 0; Fin 0]).
  assert (Hrows : Forall (fun t : tensor => t <> []) [row]).
  { constructor; [discriminate | constructor]. }
  assert (Hlab : [Fin 1] <> []) by discriminate.
  destruct (batch_loss_total (1 / 5) (Fin 1) [row] [ll] [Fin 1] Hlab Hrows) as (r & Hr).
  assert (Hc : Forall (fun a => a = Fin (1 / 2)) row).
  { unfold row. repeat constructor. }
  exists r. split; [exact Hr |]. split.
  - apply (normalize_row_constant (1 / 2) row); [discriminate | exact Hc].
  - assert (Hsk : skipped (Fin 1) ll = false).
    { unfold skipped, ll. simpl. real_dec. reflexivity. }
    assert (Hlen : (5 <= length ll)%nat) by (unfold ll; simpl; lia).
    assert (Hne : row <> []) by discriminate.
    exact (batch_loss_constant_row _ _ _ _ _ r 0%nat (1 / 2) row ll (Fin 1) Hr
             eq_refl eq_refl eq_refl Hsk Hne Hc Hlen).
Qed.

(** ** Equalities under a constructor *)

Lemma Some_eq {A : Type} (a b : A) : Some a = Some b -> a = b.
Proof. intros H. congruence. Qed.

Lemma Fin_eq (x y : R) : Fin x = Fin y -> x = y.
Proof. intros H. congruence. Qed.

(** ** The blend coefficient (C8) *)

(** C8, in exact arithmetic.  For every batch with at least one example, a
    non-negative hyperparameter [k] and no empty attention row, the batch
    is evaluated; [cnt] is the number of its examples that are scored; its
    coefficient is [k * (cnt / len(labels))] and lies between 0 and [k]; it
    is 0 when no example is scored and [k] when all are; and when the file
    loss and the line loss are finite, the loss of the batch is
    [(1 - k_eff) * file_loss + k_eff * line_loss], which lies between the
    smaller and the larger of the two when the coefficient lies in
    [0,1]. *)
Theorem k_eff_range_and_convex_blend
        (args_k : R) (file_loss : scalar)
        (line_atts line_labels : list tensor) (labels : tensor) :
  0 <= args_k -> labels <> [] -> Forall (fun row => row <> []) line_atts ->
  exists (line_atts' : list tensor) (r : batch_result),
    normalize line_atts = Some line_atts' /\
    batch_loss args_k file_loss line_atts line_labels labels = Some r /\
    br_cnt r = length (eligible_examples line_atts' line_labels labels) /\
    br_k r = args_k * (INR (br_cnt r) / INR (length labels)) /\
    0 <= br_k r <= args_k /\
    (br_cnt r = 0%nat -> br_k r = 0) /\
    (br_cnt r = length labels -> br_k r = args_k) /\
    (forall f l : R,
        file_loss = Fin f -> br_line_loss r = Fin l ->
        br_loss r = Fin ((1 - br_k r) * f + br_k r * l) /\
        (0 <= br_k r <= 1 ->
         Rmin f l <= (1 - br_k r) * f + br_k r * l <= Rmax f l)).
Proof.
  intros Hk Hne Hrows.
  destruct (batch_loss_total args_k file_loss line_atts line_labels labels Hne Hrows)
    as (r & Hr).
  pose proof (batch_cnt_le _ _ _ _ _ _ Hr) as Hcnt.
  pose proof (batch_loss_inv _ _ _ _ _ _ Hr)
    as (la & losses & Hnorm & HF & Hc & _ & Hkr & Hloss).
  assert (Hlen : (0 < length labels)%nat).
  { destruct labels; [congruence | simpl; lia]. }
  exists la, r. split; [exact Hnorm |]. split; [exact Hr |].
  split; [rewrite Hc; symmetry; exact (Forall2_length HF) |].
  split; [exact Hkr |].
  split; [rewrite Hkr; apply k_eff_bounds; assumption |].
  split; [intros H0; rewrite Hkr, H0; apply k_eff_zero |].
  split; [intros Hall; rewrite Hkr, Hall; apply k_eff_full; exact Hlen |].
  intros f l Hf Hl.
  split; [rewrite Hloss, Hf, Hl; apply blend_fin |].
  apply convex_between.
Qed.

(** A batch of two files with the file loss 1, one of them scored on its
    two lines, where the selection is empty and the line loss 0: the
    coefficient is half of the hyperparameter 1/5 and the loss of the batch
    is 9/10. *)
Lemma k_eff_range_and_convex_blend_witness :
  exists r : batch_result,
    batch_loss (1 / 5) (Fin 1)
               [[Fin 0; Fin 1]; [Fin 0; Fin 1]]
               [[Fin 0; Fin 1]; [Fin 0; Fin 0]]
               [Fin 1; Fin 0] = Some r /\
    br_cnt r = 1%nat /\
    br_k r = 1 / 10 /\
    0 <= br_k r <= 1 / 5 /\
    br_loss r = Fin (9 / 10).
Proof.
  assert (Hk : 0 <= 1 / 5) by lra.
  assert (Hne : [Fin 1; Fin 0] <> []) by discriminate.
  assert (Hrows : Forall (fun row : tensor => row <> [])
                         [[Fin 0; Fin 1]; [Fin 0; Fin 1]]).
  { repeat constructor; discriminate. }
  destruct (k_eff_range_and_convex_blend (1 / 5) (Fin 1)
              [[Fin 0; Fin 1]; [Fin 0; Fin 1]]
              [[Fin 0; Fin 1]; [Fin 0; Fin 0]]
              [Fin 1; Fin 0] Hk Hne Hrows)
    as (la & r & Hnorm & Hr & Hcnt & Hkr & Hb & _ & _ & Hblend).
  assert (Hcnt1 : br_cnt r = 1%nat).
  { rewrite Hcnt. clear - Hnorm.
    unfold normalize, normalize_row in Hnorm. simpl in Hnorm.
    revert Hnorm. real_dec. simpl. intros Hnorm.
    apply Some_eq in Hnorm. subst la.
    unfold eligible_examples, skipped. simpl. real_dec. reflexivity. }
  assert (Hk10 : br_k r = 1 / 10).
  { rewrite Hkr, Hcnt1. simpl. lra. }
  assert (Hll : br_line_loss r = Fin 0).
  { clear - Hr. unfold batch_loss, normalize, normalize_row in Hr.
    simpl in Hr. revert Hr. real_dec. simpl. unfold skipped. simpl.
    real_dec. simpl. unfold example_line_loss. simpl.
    intros Hr. apply Some_eq in Hr. subst r. simpl.
    unfold tmean. simpl. real_dec. f_equal. lra. }
  destruct (Hblend 1 0 eq_refl Hll) as (Hloss & _).
  exists r. split; [exact Hr |]. split; [exact Hcnt1 |].
  split; [exact Hk10 |]. split; [exact Hb |].
  rewrite Hloss, Hk10. f_equal. lra.
Defined.

(** C8 as stated fails in the arithmetic of the program.  With the default
    [args.k = 0.2] and a batch whose every example is scored, the
    coefficient [k] is the Python float 0.2, which lies in [0,1]; with a
    file loss and a line loss that are both the binary32 number nearest to
    2/5, the blended loss is the next binary32 number above it, larger than
    both; and with a file loss of 15231703 * 2^-27 and a line loss of
    15231702 * 2^-27 (about 0.1134850), the blended loss is
    15231704 * 2^-27, again larger than both. *)
Lemma rounded_blend_counterexample :
  k_eff64 float_0_2 1 1 = float_0_2 /\
  SpecFloat.SFleb (float_of_int 0) float_0_2 = true /\
  SpecFloat.SFleb float_0_2 (float_of_int 1) = true /\
  blend32 (k_eff64 float_0_2 1 1) (binary32 13421773 (-25)) (binary32 13421773 (-25))
  = binary32 13421774 (-25) /\
  SpecFloat.SFltb (binary32 13421773 (-25)) (binary32 13421774 (-25)) = true /\
  blend32 (k_eff64 float_0_2 1 1) (binary32 15231703 (-27)) (binary32 15231702 (-27))
  = binary32 15231704 (-27) /\
  SpecFloat.SFltb (binary32 15231703 (-27)) (binary32 15231704 (-27)) = true /\
  SpecFloat.SFltb (binary32 15231702 (-27)) (binary32 15231704 (-27)) = true.
Proof. vm_compute. repeat split. Qed.

(** ** Which examples carry line loss (C9) *)

(** C9.  For every batch that has an example, no empty attention row and
    0/1 line labels, the batch is evaluated without raising, and: the examples that
    are scored are exactly those whose file label is not 0 and whose line
    labels have a positive entry, the others add nothing to the list of
    losses nor to [cnt]; when no example is scored the line loss is
    exactly 0 and the loss of the batch is the file loss; and a scored
    example with fewer than five lines (an empty top-k selection) has the
    finite line loss 0. *)
Theorem skipped_examples_and_empty_selection
        (args_k : R) (file_loss : scalar)
        (line_atts line_labels : list tensor) (labels : tensor) :
  labels <> [] ->
  Forall (fun row => row <> []) line_atts ->
  Forall binary_labels line_labels ->
  exists (line_atts' : list tensor) (losses : tensor) (r : batch_result),
    normalize line_atts = Some line_atts' /\
    batch_loss args_k file_loss line_atts line_labels labels = Some r /\
    (forall (att ll : tensor) (fl : scalar),
        In (att, ll, fl) (combine (combine line_atts' line_labels) labels) ->
        (In (att, ll, fl) (eligible_examples line_atts' line_labels labels)
         <-> ~ (fl = Fin 0 \/ ~ Exists positive_entry ll))) /\
    Forall2 (fun t l => example_line_loss (fst (fst t)) (snd (fst t)) = Some l)
            (eligible_examples line_atts' line_labels labels) losses /\
    br_cnt r = length losses /\
    br_line_loss r = match losses with [] => Fin 0 | _ :: _ => tmean losses end /\
    (eligible_examples line_atts' line_labels labels = [] ->
     br_cnt r = 0%nat /\ br_line_loss r = Fin 0 /\ br_loss r = file_loss) /\
    (forall att ll : tensor,
        (length ll < 5)%nat -> example_line_loss att ll = Some (Fin 0)).
Proof.
  intros Hne Hrows Hbin.
  destruct (batch_loss_total args_k file_loss line_atts line_labels labels Hne Hrows)
    as (r & Hr).
  pose proof (batch_loss_inv _ _ _ _ _ _ Hr)
    as (la & losses & Hn & HF & Hcnt & Hline & Hkr & Hloss).
  exists la, losses, r.
  split; [exact Hn |]. split; [exact Hr |]. split.
  { intros att ll fl Hin. unfold eligible_examples.
    rewrite filter_In. simpl.
    assert (Hb : binary_labels ll).
    { rewrite Forall_forall in Hbin. apply Hbin.
      apply in_combine_l in Hin. apply in_combine_r in Hin. exact Hin. }
    rewrite <- (skipped_iff fl ll Hb).
    destruct (skipped fl ll); split.
    - intros [_ H]; discriminate.
    - intros H. exfalso. apply H. reflexivity.
    - intros _. discriminate.
    - intros _. split; [exact Hin | reflexivity]. }
  split; [exact HF |]. split; [exact Hcnt |]. split.
  { rewrite Hline. destruct losses; reflexivity. }
  split.
  { intros Hnone. rewrite Hnone in HF. inversion HF; subst losses.
    simpl in Hcnt, Hline.
    split; [exact Hcnt |]. split; [exact Hline |].
    rewrite Hloss, Hline. apply blend_zero.
    rewrite Hkr, Hcnt. apply k_eff_zero. }
  intros att ll Hlen. apply example_line_loss_short. exact Hlen.
Qed.

(** A batch of a clean file and a defective file without annotated line:
    nothing is scored, the line loss is 0 and the loss is the file loss. *)
Lemma skipped_examples_and_empty_selection_witness :
  exists r : batch_result,
    batch_loss (1 / 5) (Fin 1)
               [[Fin 0; Fin 1]; [Fin 0; Fin 1]]
               [[Fin 0; Fin 1]; [Fin 0; Fin 0]]
               [Fin 0; Fin 1] = Some r /\
    br_cnt r = 0%nat /\ br_line_loss r = Fin 0 /\ br_loss r = Fin 1.
Proof.
  assert (Hrows : Forall (fun row : tensor => row <> [])
                         [[Fin 0; Fin 1]; [Fin 0; Fin 1]]).
  { repeat constructor; discriminate. }
  assert (Hbin : Forall binary_labels [[Fin 0; Fin 1]; [Fin 0; Fin 0]]).
  { unfold binary_labels. repeat first [apply Forall_nil | apply Forall_cons]; auto. }
  assert (Hne : [Fin 0; Fin 1] <> []) by discriminate.
  destruct (skipped_examples_and_empty_selection (1 / 5) (Fin 1)
              [[Fin 0; Fin 1]; [Fin 0; Fin 1]]
              [[Fin 0; Fin 1]; [Fin 0; Fin 0]]
              [Fin 0; Fin 1] Hne Hrows Hbin)
    as (la & losses & r & _ & Hr & _ & _ & _ & _ & Hnone & _).
  exists r. split; [exact Hr |]. apply Hnone.
  unfold eligible_examples.
  destruct la as [| a [| b la]]; simpl; unfold skipped; simpl; real_dec; simpl;
    first [reflexivity | destruct la; reflexivity].
Defined.

(** ** Batching (C10) *)

Lemma collate_fn_id {A : Type} (batch : list A) : collate_fn batch = batch.
Proof. unfold collate_fn. apply map_id. Qed.

Lemma DataLoader_batches {A : Type} (dataset : list A) (bs : nat) (drop_last : bool) :
  DataLoader dataset bs drop_last = batch_sampler bs drop_last dataset [].
Proof.
  unfold DataLoader. rewrite (map_ext _ (fun b => b)) by apply collate_fn_id.
  apply map_id.
Qed.

(** With [drop_last], every batch is full and the batches are the longest
    prefix of the data whose length is a multiple of the batch size. *)
Lemma batch_sampler_drop {A : Type} (bs : nat) (sampler : list A) :
  (0 < bs)%nat ->
  forall batch : list A,
    (length batch < bs)%nat ->
    let m := (length batch + length sampler)%nat in
    Forall (fun b => length b = bs) (batch_sampler bs true sampler batch) /\
    length (batch_sampler bs true sampler batch) = (m / bs)%nat /\
    concat (batch_sampler bs true sampler batch)
    = firstn (bs * (m / bs)) (batch ++ sampler).
Proof.
  intros Hbs. induction sampler as [| idx rest IH]; intros batch Hb m.
  - simpl. rewrite andb_false_r. subst m. simpl length. rewrite Nat.add_0_r.
    rewrite (Nat.div_small _ _ Hb), Nat.mul_0_r. simpl. auto.
  - simpl batch_sampler. rewrite length_app. simpl length.
    destruct (Nat.eqb (length batch + 1) bs) eqn:E.
    + apply Nat.eqb_eq in E.
      destruct (IH [] Hbs) as (HF & HL & HC). simpl in HF, HL, HC.
      assert (Hm : (m / bs = S (length rest / bs))%nat).
      { subst m. simpl length.
        replace (length batch + S (length rest))%nat
          with (length rest + 1 * bs)%nat by lia.
        rewrite Nat.div_add by lia. lia. }
      split; [constructor; [rewrite length_app; simpl; lia | exact HF] |].
      split; [simpl; rewrite HL, Hm; reflexivity |].
      simpl concat. rewrite HC, Hm.
      replace (batch ++ idx :: rest) with ((batch ++ [idx]) ++ rest)
        by (rewrite <- app_assoc; reflexivity).
      replace (bs * S (length rest / bs))%nat
        with (length (batch ++ [idx]) + bs * (length rest / bs))%nat
        by (rewrite length_app; simpl; lia).
      rewrite firstn_app_2. reflexivity.
    + apply Nat.eqb_neq in E.
      assert (Hb' : (length (batch ++ [idx]) < bs)%nat)
        by (rewrite length_app; simpl; lia).
      destruct (IH (batch ++ [idx]) Hb') as (HF & HL & HC).
      rewrite length_app in HL, HC. simpl length in HL, HC.
      rewrite <- app_assoc in HC. simpl app in HC.
      subst m. simpl length.
      replace (length batch + S (length rest))%nat
        with (length batch + 1 + length rest)%nat by lia.
      auto.
Qed.

(** Without [drop_last] the same batches are followed by what is left. *)
Lemma batch_sampler_keep {A : Type} (bs : nat) (sampler : list A) :
  (0 < bs)%nat ->
  forall batch : list A,
    (length batch < bs)%nat ->
    let m := (length batch + length sampler)%nat in
    batch_sampler bs false sampler batch
    = batch_sampler bs true sampler batch
      ++ (if Nat.eqb (m mod bs) 0 then []
          else [skipn (bs * (m / bs)) (batch ++ sampler)]).
Proof.
  intros Hbs. induction sampler as [| idx rest IH]; intros batch Hb m.
  - simpl. rewrite andb_false_r, andb_true_r. subst m. simpl length.
    rewrite Nat.add_0_r, app_nil_r.
    rewrite (Nat.mod_small _ _ Hb), (Nat.div_small _ _ Hb), Nat.mul_0_r.
    simpl skipn. destruct batch; reflexivity.
  - simpl batch_sampler. rewrite length_app. simpl length.
    destruct (Nat.eqb (length batch + 1) bs) eqn:E.
    + apply Nat.eqb_eq in E.
      rewrite (IH [] Hbs). simpl app. simpl length.
      assert (Hm : (m = length rest + 1 * bs)%nat) by (subst m; simpl length; lia).
      rewrite Hm, Nat.Div0.mod_add, Nat.div_add by lia.
      destruct (Nat.eqb (length rest mod bs) 0); [reflexivity |].
      do 3 f_equal.
      replace (batch ++ idx :: rest) with ((batch ++ [idx]) ++ rest)
        by (rewrite <- app_assoc; reflexivity).
      replace (bs * (length rest / bs + 1))%nat
        with (length (batch ++ [idx]) + bs * (length rest / bs))%nat
        by (rewrite length_app; simpl; lia).
      rewrite skipn_app.
      rewrite (skipn_all2 (batch ++ [idx])) by lia.
      replace (length (batch ++ [idx]) + bs * (length rest / bs)
               - length (batch ++ [idx]))%nat
        with (bs * (length rest / bs))%nat by lia.
      reflexivity.
    + apply Nat.eqb_neq in E.
      assert (Hb' : (length (batch ++ [idx]) < bs)%nat)
        by (rewrite length_app; simpl; lia).
      rewrite (IH (batch ++ [idx]) Hb').
      rewrite length_app. simpl length. rewrite <- app_assoc. simpl app.
      subst m. simpl length.
      replace (length batch + S (length rest))%nat
        with (length batch + 1 + length rest)%nat by lia.
      reflexivity.
Qed.

Lemma train_loader_batches_full {A : Type} (dataset : list A) (bs : nat) :
  (0 < bs)%nat -> Forall (fun b => length b = bs) (DataLoader dataset bs true).
Proof.
  intros Hbs. rewrite DataLoader_batches.
  apply (batch_sampler_drop bs dataset Hbs [] Hbs).
Qed.

Lemma valid_loader_batches_nonempty {A : Type} (dataset : list A) (bs : nat) :
  (0 < bs)%nat -> Forall (fun b => b <> []) (DataLoader dataset bs false).
Proof.
  intros Hbs. rewrite DataLoader_batches.
  pose proof (batch_sampler_keep bs dataset Hbs [] Hbs) as HK.
  destruct (batch_sampler_drop bs dataset Hbs [] Hbs) as (HF & _ & _).
  cbv zeta in HK. simpl in HK. rewrite HK. apply Forall_app. split.
  - eapply Forall_impl; [| exact HF]. intros b Hb. simpl in Hb.
    destruct b; [simpl in Hb; lia | discriminate].
  - destruct (Nat.eqb (length dataset mod bs) 0) eqn:Em; [constructor |].
    apply Nat.eqb_neq in Em. constructor; [| constructor].
    intros Hnil. apply (f_equal (@length A)) in Hnil.
    rewrite length_skipn in Hnil. simpl in Hnil.
    pose proof (Nat.div_mod_eq (length dataset) bs). lia.
Qed.

Lemma valid_loader_nonempty {A : Type} (dataset : list A) (bs : nat) :
  (0 < bs)%nat -> dataset <> [] ->
  (0 < length (DataLoader dataset bs false))%nat.
Proof.
  intros Hbs Hne. rewrite DataLoader_batches.
  pose proof (batch_sampler_keep bs dataset Hbs [] Hbs) as HK.
  destruct (batch_sampler_drop bs dataset Hbs [] Hbs) as (_ & HL & _).
  cbv zeta in HK, HL. simpl in HK, HL. rewrite HK, length_app, HL.
  destruct (Nat.eqb (length dataset mod bs) 0) eqn:Em; simpl; [| lia].
  apply Nat.eqb_eq in Em.
  assert (Hpos : (0 < length dataset)%nat)
    by (destruct dataset; [congruence | simpl; lia]).
  pose proof (Nat.div_mod_eq (length dataset) bs) as Hdm. rewrite Em in Hdm.
  destruct (length dataset / bs)%nat; lia.
Qed.




(** ** The object store *)

Lemma heap_set_length (h : heap) (l : loc) (o : module_obj) :
  length (heap_set h l o) = length h.
Proof.
  revert l. induction h as [| x h IH]; intros l; simpl; [reflexivity |].
  destruct l; simpl; [reflexivity | f_equal; apply IH].
Qed.

Lemma heap_get_set_other (h : heap) (l l' : loc) (o : module_obj) :
  l' <> l -> heap_get (heap_set h l o) l' = heap_get h l'.
Proof.
  revert l l'. induction h as [| x h IH]; intros l l' Hne; simpl; [reflexivity |].
  destruct l, l'; simpl; try reflexivity; try congruence.
  apply IH. congruence.
Qed.

Lemma heap_get_some_lt (h : heap) (l : loc) (o : module_obj) :
  heap_get h l = Some o -> (l < length h)%nat.
Proof. intros H. apply nth_error_Some. unfold heap_get in H. congruence. Qed.

Lemma heap_get_app_old (h : heap) (l : loc) (o a : module_obj) :
  heap_get h l = Some o -> heap_get (h ++ [a]) l = Some o.
Proof.
  intros H. unfold heap_get in *. rewrite nth_error_app1; [exact H |].
  eapply heap_get_some_lt; exact H.
Qed.

Lemma heap_get_app_new (h : heap) (a : module_obj) :
  heap_get (h ++ [a]) (length h) = Some a.
Proof.
  unfold heap_get. rewrite nth_error_app2 by lia.
  rewrite Nat.sub_diag. reflexivity.
Qed.

Arguments heap_get : simpl never.

Section RunProperties.

Variable C : Collaborators.

(** ** One optimisation step *)

(** The four statements of lines 223-226, run from a state whose model
    object is [m], with [g] the gradient of the loss, and followed by [K]. *)
Lemma update_steps {B : Type} (st : state C) (m : module_obj) (g : list R)
      (max_norm : R) (K : state C -> result B) :
  heap_get (st_heap st) model = Some m ->
  let g_acc := map2 Rplus (grad m) g in
  let step := optimizer_step C (st_optimizer st) (parameters m) g_acc in
  (st1 <- loss_backward C g st ;;
   st2 <- optimizer_step_ C st1 ;;
   st3 <- optimizer_zero_grad C st2 ;;
   st4 <- clip_gradients C max_norm st3 ;;
   K st4)
  = K {| st_heap :=
           heap_set (st_heap st) model
                    {| parameters := snd step;
                       grad := clip_grad_norm_ (map (fun _ => 0) g_acc) max_norm |};
         st_optimizer := fst step;
         st_selector := st_selector st;
         st_metrics := st_metrics st;
         st_log := st_log st ++ [EvBackward C g; EvOptimizerStep C g_acc;
                                 EvZeroGrad C;
                                 EvClipGradNorm C (map (fun _ => 0) g_acc)] |}.
Proof.
  intros Hm g_acc step. subst step.
  destruct st as [h o s mt lg]. simpl in *.
  destruct h as [| x h]; [discriminate |].
  unfold model in *. simpl in Hm. injection Hm as ->.
  unfold loss_backward. simpl.
  unfold optimizer_step_. simpl.
  fold g_acc.
  destruct (optimizer_step C o (parameters m) g_acc) as [o' theta] eqn:Hstep.
  simpl. unfold optimizer_zero_grad. simpl. unfold clip_gradients. simpl.
  unfold emit, with_heap, with_optimizer. simpl.
  rewrite <- !app_assoc. simpl. reflexivity.
Qed.

Lemma trains_refl (st : state C) : trains st st.
Proof.
  unfold trains. repeat split; try reflexivity.
  exists []. rewrite app_nil_r. split; [reflexivity | constructor].
Qed.

Lemma trains_trans (st1 st2 st3 : state C) :
  trains st1 st2 -> trains st2 st3 -> trains st1 st3.
Proof.
  intros (Hs1 & Hm1 & Hl1 & Hh1 & evs1 & Hlog1 & He1)
         (Hs2 & Hm2 & Hl2 & Hh2 & evs2 & Hlog2 & He2).
  unfold trains. repeat split; try congruence.
  - intros l Hl. rewrite Hh2, Hh1 by exact Hl. reflexivity.
  - exists (evs1 ++ evs2). split.
    + rewrite Hlog2, Hlog1, app_assoc. reflexivity.
    + apply Forall_app. split; assumption.
Qed.

(** What one training iteration does to the state: the optimiser steps
    on the gradient of the loss as it comes out of [backward], added to
    the [.grad] left by the previous iteration, and the clipping comes
    last, on gradients that were just zeroed. *)
Lemma train_batch_effect (args : Args) (weight_dict : dict)
      (batch : list (example C)) (st st' : state C) (loss : scalar) :
  train_batch C args weight_dict batch st = Ok (st', loss) ->
  exists (m : module_obj) (g : list R),
    heap_get (st_heap st) model = Some m /\
    let g_acc := map2 Rplus (grad m) g in
    let step := optimizer_step C (st_optimizer st) (parameters m) g_acc in
    st_heap st' =
      heap_set (st_heap st) model
               {| parameters := snd step;
                  grad := clip_grad_norm_ (map (fun _ => 0) g_acc)
                                          (args_max_grad_norm args) |} /\
    st_optimizer st' = fst step /\
    st_selector st' = st_selector st /\
    st_metrics st' = st_metrics st /\
    st_log st' = st_log st ++ [EvBackward C g; EvOptimizerStep C g_acc;
                               EvZeroGrad C;
                               EvClipGradNorm C (map (fun _ => 0) g_acc)].
Proof.
  unfold train_batch. intros H.
  destruct (get_loss_weight _ weight_dict) as [w |]; [| discriminate].
  cbn [bind of_option] in H.
  destruct (heap_get (st_heap st) model) as [m |] eqn:Hm; [| discriminate].
  cbn [bind of_option] in H.
  match type of H with
  | bind ?r _ = _ => destruct r as [[out l] | e]; [| discriminate]
  end.
  cbn [bind] in H.
  rewrite (update_steps st m _ (args_max_grad_norm args) _ Hm) in H.
  injection H as <- <-.
  exists m. eexists. split; [reflexivity |]. simpl.
  repeat split; reflexivity.
Qed.

Lemma train_batch_trains (args : Args) (weight_dict : dict)
      (batch : list (example C)) (st st' : state C) (loss : scalar) :
  train_batch C args weight_dict batch st = Ok (st', loss) -> trains st st'.
Proof.
  intros H. apply train_batch_effect in H.
  destruct H as (m & g & Hm & Hh & _ & Hs & Hmt & Hlog).
  unfold trains. split; [exact Hs |]. split; [exact Hmt |].
  split; [rewrite Hh; apply heap_set_length |].
  split.
  - intros l Hl. rewrite Hh. apply heap_get_set_other. exact Hl.
  - eexists. split; [exact Hlog |]. repeat constructor.
Qed.

Lemma train_loop_trains (args : Args) (weight_dict : dict)
      (train_dl : list (list (example C))) :
  forall (st st' : state C) (losses losses' : tensor),
    train_loop C args weight_dict train_dl st losses = Ok (st', losses') ->
    trains st st'.
Proof.
  induction train_dl as [| batch rest IH]; intros st st' losses losses' H.
  - simpl in H. injection H as <- _. apply trains_refl.
  - simpl in H.
    destruct (train_batch C args weight_dict batch st) as [[st1 l] | e] eqn:Hb;
      [| discriminate].
    simpl in H. eapply trains_trans.
    + eapply train_batch_trains. exact Hb.
    + eapply IH. exact H.
Qed.


(** ** One epoch *)

Lemma select_best_effect (epoch : nat) (valid_auc : R) (st st' : state C) :
  select_best C epoch valid_auc st = Ok st' ->
  st_optimizer st' = st_optimizer st /\
  st_metrics st' = st_metrics st /\
  ((best_auc (st_selector st) <= valid_auc /\
    exists m, heap_get (st_heap st) model = Some m /\
              st_heap st' = st_heap st ++ [m] /\
              st_selector st' = {| best_auc := valid_auc; best_epoch := epoch;
                                   best_model := Some (length (st_heap st)) |} /\
              st_log st' = st_log st ++ [EvDeepcopy C epoch (length (st_heap st))])
   \/ (~ best_auc (st_selector st) <= valid_auc /\ st' = st)).
Proof.
  unfold select_best. intros H.
  destruct (Rle_dec (best_auc (st_selector st)) valid_auc) as [Hle | Hnle].
  - unfold deepcopy in H.
    destruct (heap_get (st_heap st) model) as [m |] eqn:Hm; [| discriminate].
    cbn [bind of_option] in H. injection H as <-.
    simpl. repeat split. left. split; [exact Hle |].
    exists m. repeat split.
  - injection H as <-. repeat split. right. split; [exact Hnle | reflexivity].
Qed.

Lemma save_checkpoint_effect (st st' : state C) :
  save_checkpoint C st = Ok st' ->
  exists (b : loc) (obj : module_obj),
    best_model (st_selector st) = Some b /\
    heap_get (st_heap st) b = Some obj /\
    st' = emit C (EvSaveCheckpoint C
                    {| ck_epoch := best_epoch (st_selector st);
                       ck_model_state_dict := parameters obj;
                       ck_optimizer_state_dict := st_optimizer st |}) st.
Proof.
  unfold save_checkpoint. intros H.
  destruct (best_model (st_selector st)) as [b |]; [| discriminate].
  destruct (heap_get (st_heap st) b) as [obj |] eqn:Hb; [| discriminate].
  cbn [bind of_option] in H. injection H as <-.
  exists b, obj. repeat split. exact Hb.
Qed.

(** The effect of one pass through the body of the epoch loop. *)
Lemma epoch_body_effect (args : Args) (weight_dict : dict)
      (x_train_vec x_valid_vec : list (example C)) (epoch : nat)
      (st st' : state C) :
  epoch_body C args weight_dict x_train_vec x_valid_vec epoch st = Ok st' ->
  exists (st1 : state C) (m : module_obj) (valid_auc : R)
         (evs_sel evs_save : list (event C)),
    trains st st1 /\
    heap_get (st_heap st1) model = Some m /\
    st_optimizer st' = st_optimizer st1 /\
    val_auc_all_epochs (st_metrics st')
    = val_auc_all_epochs (st_metrics st) ++ [valid_auc] /\
    ((best_auc (st_selector st) <= valid_auc /\
      st_heap st' = st_heap st1 ++ [m] /\
      st_selector st' = {| best_auc := valid_auc; best_epoch := epoch;
                           best_model := Some (length (st_heap st1)) |} /\
      evs_sel = [EvDeepcopy C epoch (length (st_heap st1))])
     \/ (~ best_auc (st_selector st) <= valid_auc /\
         st_heap st' = st_heap st1 /\
         st_selector st' = st_selector st /\
         evs_sel = [])) /\
    ((epoch mod args_num_epochs args <> 0 /\ evs_save = [])%nat
     \/ ((epoch mod args_num_epochs args = 0)%nat /\
         exists (b : loc) (obj : module_obj),
           best_model (st_selector st') = Some b /\
           heap_get (st_heap st') b = Some obj /\
           evs_save = [EvSaveCheckpoint C
                         {| ck_epoch := best_epoch (st_selector st');
                            ck_model_state_dict := parameters obj;
                            ck_optimizer_state_dict := st_optimizer st' |}])) /\
    st_log st' = st_log st1 ++ evs_sel ++ evs_save
                 ++ [EvSaveLossCsv C (loss_df (st_metrics st'))].
Proof.
  unfold epoch_body. intros H.
  destruct (train_loop C args weight_dict _ st []) as [[st1 train_losses] | e] eqn:Htrain;
    [| discriminate].
  cbn [bind] in H.
  apply train_loop_trains in Htrain.
  cbn [st_heap with_metrics] in H.
  destruct (heap_get (st_heap st1) model) as [m |] eqn:Hm; [| discriminate].
  cbn [bind of_option] in H.
  destruct (valid_loop C args (parameters m) _ [] [] []) as [[[outputs outputs_labels] val_losses] | e];
    [| discriminate].
  cbn [bind] in H.
  destruct (torch_cat outputs) as [y_prob |]; [| discriminate].
  cbn [bind of_option] in H.
  destruct (torch_cat outputs_labels) as [y_gt |]; [| discriminate].
  cbn [bind of_option] in H.
  destruct (roc_auc_score C y_gt y_prob) as [valid_auc |]; [| discriminate].
  cbn [bind of_option] in H.
  match type of H with
  | bind (select_best C epoch valid_auc ?s) _ = _ =>
      destruct (select_best C epoch valid_auc s) as [st2 | e] eqn:Hsel; [| discriminate]
  end.
  cbn [bind] in H.
  apply select_best_effect in Hsel. simpl in Hsel.
  destruct Hsel as (Hopt2 & Hmt2 & Hsel).
  exists st1, m, valid_auc.
  assert (Hsum : exists evs_sel,
             ((best_auc (st_selector st) <= valid_auc /\
               st_heap st2 = st_heap st1 ++ [m] /\
               st_selector st2 = {| best_auc := valid_auc; best_epoch := epoch;
                                    best_model := Some (length (st_heap st1)) |} /\
               evs_sel = [EvDeepcopy C epoch (length (st_heap st1))])
              \/ (~ best_auc (st_selector st) <= valid_auc /\
                  st_heap st2 = st_heap st1 /\
                  st_selector st2 = st_selector st /\
                  evs_sel = [])) /\
             st_log st2 = st_log st1 ++ evs_sel).
  { destruct Htrain as (Hs1 & _).
    destruct Hsel as [(Hle & m' & Hm' & Hh & Hs & Hl) | (Hnle & ->)].
    - rewrite Hm in Hm'. injection Hm' as <-.
      eexists. split; [left; rewrite <- Hs1; repeat split; eassumption | exact Hl].
    - exists []. split; [right | simpl; rewrite app_nil_r; reflexivity].
      rewrite <- Hs1. repeat split. exact Hnle. }
  destruct Hsum as (evs_sel & Hcase & Hlog2).
  destruct (Nat.eqb (epoch mod args_num_epochs args) 0) eqn:Emod.
  - apply Nat.eqb_eq in Emod.
    destruct (save_checkpoint C st2) as [st3 | e] eqn:Hsave; [| discriminate].
    cbn [bind] in H. injection H as <-.
    apply save_checkpoint_effect in Hsave.
    destruct Hsave as (b & obj & Hb & Hobj & ->).
    exists evs_sel. eexists. simpl.
    split; [exact Htrain |]. split; [exact Hm |]. split; [exact Hopt2 |].
    split; [rewrite Hmt2; simpl; destruct Htrain as (_ & -> & _); reflexivity |].
    split; [exact Hcase |].
    split; [right; split; [exact Emod |]; exists b, obj; repeat split; assumption |].
    rewrite Hlog2, <- !app_assoc. reflexivity.
  - apply Nat.eqb_neq in Emod. cbn [bind] in H. injection H as <-.
    exists evs_sel, []. simpl.
    split; [exact Htrain |]. split; [exact Hm |]. split; [exact Hopt2 |].
    split; [rewrite Hmt2; simpl; destruct Htrain as (_ & -> & _); reflexivity |].
    split; [exact Hcase |].
    split; [left; split; [exact Emod | reflexivity] |].
    rewrite Hlog2, <- !app_assoc. reflexivity.
Qed.


(** ** The loop over epochs *)

Lemma epoch_loop_app (args : Args) (weight_dict : dict)
      (x_train_vec x_valid_vec : list (example C)) (l1 l2 : list nat) :
  forall st : state C,
    epoch_loop C args weight_dict x_train_vec x_valid_vec (l1 ++ l2) st
    = (st' <- epoch_loop C args weight_dict x_train_vec x_valid_vec l1 st ;;
       epoch_loop C args weight_dict x_train_vec x_valid_vec l2 st').
Proof.
  induction l1 as [| e l1 IH]; intros st; simpl; [reflexivity |].
  destruct (epoch_body C args weight_dict x_train_vec x_valid_vec e st); simpl;
    [apply IH | reflexivity].
Qed.

Lemma epoch_loop_last (args : Args) (weight_dict : dict)
      (x_train_vec x_valid_vec : list (example C)) (j : nat)
      (st0 st : state C) :
  epoch_loop C args weight_dict x_train_vec x_valid_vec (seq 1 (S j)) st0 = Ok st ->
  exists st_j : state C,
    epoch_loop C args weight_dict x_train_vec x_valid_vec (seq 1 j) st0 = Ok st_j /\
    epoch_body C args weight_dict x_train_vec x_valid_vec (S j) st_j = Ok st.
Proof.
  rewrite seq_S, epoch_loop_app. simpl. intros H.
  destruct (epoch_loop C args weight_dict x_train_vec x_valid_vec (seq 1 j) st0)
    as [st_j | e]; [| discriminate].
  simpl in H. exists st_j. split; [reflexivity |].
  destruct (epoch_body C args weight_dict x_train_vec x_valid_vec (S j) st_j);
    simpl in H; [exact H | discriminate].
Qed.

Lemma training_events_filtered (evs : list (event C)) :
  Forall training_event evs ->
  filter is_save evs = [] /\ filter is_loss_csv evs = [] /\
  filter is_class_weight evs = [].
Proof.
  induction 1 as [| e evs He _ (IH1 & IH2 & IH3)]; [auto |].
  destruct e; simpl in He; try contradiction; simpl; auto.
Qed.

(** The log of one epoch: optimisation steps, at most one deep copy, the
    checkpoint when [epoch % num_epochs == 0], and the table of losses. *)
Lemma epoch_body_log (args : Args) (weight_dict : dict)
      (x_train_vec x_valid_vec : list (example C)) (epoch : nat)
      (st st' : state C) :
  epoch_body C args weight_dict x_train_vec x_valid_vec epoch st = Ok st' ->
  exists (pre evs_save : list (event C)) (rows : list (nat * scalar * scalar * R)),
    st_log st' = st_log st ++ pre ++ evs_save ++ [EvSaveLossCsv C rows] /\
    filter is_save pre = [] /\ filter is_loss_csv pre = [] /\
    filter is_class_weight pre = [] /\
    ((epoch mod args_num_epochs args <> 0 /\ evs_save = [])%nat
     \/ ((epoch mod args_num_epochs args = 0)%nat /\
         exists (b : loc) (obj : module_obj),
           best_model (st_selector st') = Some b /\
           heap_get (st_heap st') b = Some obj /\
           evs_save = [EvSaveCheckpoint C
                         {| ck_epoch := best_epoch (st_selector st');
                            ck_model_state_dict := parameters obj;
                            ck_optimizer_state_dict := st_optimizer st' |}])).
Proof.
  intros H. apply epoch_body_effect in H.
  destruct H as (st1 & m & auc & evs_sel & evs_save & Htr & _ & _ & _ & Hsel & Hsave & Hlog).
  destruct Htr as (_ & _ & _ & _ & evs & Hlog1 & Hev).
  destruct (training_events_filtered evs Hev) as (F1 & F2 & F3).
  exists (evs ++ evs_sel), evs_save. eexists.
  split; [rewrite Hlog, Hlog1, <- !app_assoc; reflexivity |].
  assert (Hs : filter is_save evs_sel = [] /\ filter is_loss_csv evs_sel = [] /\
               filter is_class_weight evs_sel = []).
  { destruct Hsel as [(_ & _ & _ & ->) | (_ & _ & _ & ->)]; simpl; auto. }
  destruct Hs as (S1 & S2 & S3).
  rewrite !filter_app, F1, F2, F3, S1, S2, S3. simpl.
  repeat split. exact Hsave.
Qed.

Lemma epoch_loop_log (args : Args) (weight_dict : dict)
      (x_train_vec x_valid_vec : list (example C)) (epochs : list nat) :
  forall st st' : state C,
    epoch_loop C args weight_dict x_train_vec x_valid_vec epochs st = Ok st' ->
    exists evs : list (event C),
      st_log st' = st_log st ++ evs /\
      filter is_class_weight evs = [] /\
      length (filter is_loss_csv evs) = length epochs /\
      ((forall e, In e epochs -> e mod args_num_epochs args <> 0)%nat ->
       filter is_save evs = []).
Proof.
  induction epochs as [| e epochs IH]; intros st st' H.
  - simpl in H. injection H as <-. exists []. rewrite app_nil_r. simpl. auto.
  - simpl in H.
    destruct (epoch_body C args weight_dict x_train_vec x_valid_vec e st)
      as [st1 | err] eqn:Hbody; [| discriminate].
    simpl in H. apply IH in H. destruct H as (evs2 & Hlog2 & Hc2 & Hn2 & Hs2).
    apply epoch_body_log in Hbody.
    destruct Hbody as (pre & evs_save & rows & Hlog1 & P1 & P2 & P3 & Hsave).
    assert (Hsv : filter is_loss_csv evs_save = [] /\
                  filter is_class_weight evs_save = []).
    { destruct Hsave as [(_ & ->) | (_ & b & obj & _ & _ & ->)]; simpl; auto. }
    destruct Hsv as (V1 & V2).
    exists ((pre ++ evs_save ++ [EvSaveLossCsv C rows]) ++ evs2).
    split; [rewrite Hlog2, Hlog1, <- !app_assoc; reflexivity |].
    rewrite !filter_app, P2, P3, V1, V2, Hc2. simpl.
    split; [reflexivity |]. split; [rewrite Hn2; reflexivity |].
    intros Hall. rewrite P1, Hs2 by (intros e' He'; apply Hall; right; exact He').
    destruct Hsave as [(_ & ->) | (Hz & _)]; [reflexivity |].
    exfalso. apply (Hall e); [left; reflexivity | exact Hz].
Qed.


(** Every recorded AUC is a value of the metric. *)
Lemma epoch_body_auc (args : Args) (weight_dict : dict)
      (x_train_vec x_valid_vec : list (example C)) (epoch : nat)
      (st st' : state C) :
  epoch_body C args weight_dict x_train_vec x_valid_vec epoch st = Ok st' ->
  exists (y_gt y_prob : tensor) (valid_auc : R),
    roc_auc_score C y_gt y_prob = Some valid_auc /\
    val_auc_all_epochs (st_metrics st')
    = val_auc_all_epochs (st_metrics st) ++ [valid_auc].
Proof.
  unfold epoch_body. intros H.
  destruct (train_loop C args weight_dict _ st []) as [[st1 train_losses] | e] eqn:Htrain;
    [| discriminate].
  cbn [bind] in H.
  apply train_loop_trains in Htrain. destruct Htrain as (_ & Hmt & _).
  cbn [st_heap with_metrics] in H.
  destruct (heap_get (st_heap st1) model) as [m |]; [| discriminate].
  cbn [bind of_option] in H.
  destruct (valid_loop C args (parameters m) _ [] [] [])
    as [[[outputs outputs_labels] val_losses] | e]; [| discriminate].
  cbn [bind] in H.
  destruct (torch_cat outputs) as [y_prob |]; [| discriminate].
  cbn [bind of_option] in H.
  destruct (torch_cat outputs_labels) as [y_gt |]; [| discriminate].
  cbn [bind of_option] in H.
  destruct (roc_auc_score C y_gt y_prob) as [valid_auc |] eqn:Hauc; [| discriminate].
  cbn [bind of_option] in H.
  match type of H with
  | bind (select_best C epoch valid_auc ?s) _ = _ =>
      destruct (select_best C epoch valid_auc s) as [st2 | e] eqn:Hsel; [| discriminate]
  end.
  cbn [bind] in H.
  apply select_best_effect in Hsel. destruct Hsel as (_ & Hmt2 & _).
  simpl in Hmt2.
  assert (Hfinal : st_metrics st' = st_metrics st2).
  { destruct (Nat.eqb (epoch mod args_num_epochs args) 0).
    - destruct (save_checkpoint C st2) as [st3 | e] eqn:Hsave; [| discriminate].
      cbn [bind] in H. injection H as <-.
      apply save_checkpoint_effect in Hsave.
      destruct Hsave as (b & obj & _ & _ & ->). reflexivity.
    - cbn [bind] in H. injection H as <-. reflexivity. }
  exists y_gt, y_prob, valid_auc. split; [exact Hauc |].
  rewrite Hfinal, Hmt2, Hmt. reflexivity.
Qed.

Lemma epoch_loop_aucs (args : Args) (weight_dict : dict)
      (x_train_vec x_valid_vec : list (example C)) (epochs : list nat) :
  forall st st' : state C,
    epoch_loop C args weight_dict x_train_vec x_valid_vec epochs st = Ok st' ->
    exists new : list R,
      val_auc_all_epochs (st_metrics st')
      = val_auc_all_epochs (st_metrics st) ++ new /\
      length new = length epochs /\
      Forall (fun a => exists y_gt y_prob, roc_auc_score C y_gt y_prob = Some a) new.
Proof.
  induction epochs as [| e epochs IH]; intros st st' H.
  - simpl in H. injection H as <-. exists []. rewrite app_nil_r. auto.
  - simpl in H.
    destruct (epoch_body C args weight_dict x_train_vec x_valid_vec e st)
      as [st1 | err] eqn:Hbody; [| discriminate].
    simpl in H. apply IH in H. destruct H as (new & Hnew & Hlen & HF).
    apply epoch_body_auc in Hbody.
    destruct Hbody as (y_gt & y_prob & auc & Hauc & Hone).
    exists (auc :: new). rewrite Hnew, Hone, <- app_assoc. simpl.
    split; [reflexivity |]. split; [rewrite Hlen; reflexivity |].
    constructor; [eauto | exact HF].
Qed.

(** ** The run, after line 118 *)

(** The run as one equation, for the proofs below: the dictionary of the
    training labels, then the loop over the epochs, from the state in which
    the call of line 114 is all that has been logged. *)
Lemma train_model_unfold
      (args : Args) (theta0 : list R) (opt0 : opt_state C)
      (train_code3d : list (input C)) (train_label : list nat)
      (train_line_label : list tensor)
      (valid_code3d : list (input C)) (valid_label : list nat)
      (valid_line_label : list tensor) :
  train_model C args theta0 opt0 train_code3d train_label train_line_label
              valid_code3d valid_label valid_line_label
  = (weight_dict <- of_option ValueError (make_weight_dict train_label) ;;
     epoch_loop C args weight_dict
                (TextDataset C train_code3d train_label train_line_label)
                (TextDataset C valid_code3d valid_label valid_line_label)
                (seq 1 (args_num_epochs args))
                (emit C (EvClassWeight C
                           (compute_class_weight (np_unique train_label)
                                                 train_label))
                      (initial_state C theta0 opt0))).
Proof. reflexivity. Qed.

(** ** The checkpoint (C7) *)

Lemma seq_no_multiple (n : nat) :
  forall e : nat, In e (seq 1 n) -> (e mod S n <> 0)%nat.
Proof.
  intros e He. apply in_seq in He.
  rewrite Nat.mod_small by lia. lia.
Qed.

(** C7.  For every run of [num_epochs >= 1] epochs that completes, the log
    of the run ends with the write of the checkpoint followed by the write
    of the loss table of the last epoch; no checkpoint is written before,
    while the loss table has been written [num_epochs - 1] times, once at
    the end of each earlier epoch; and the checkpoint holds the best epoch,
    the parameters of the best-model object and the state of the
    optimiser, as they are at the end of the run. *)
Theorem checkpoint_written_once_after_last_epoch
        (args : Args) (theta0 : list R) (opt0 : opt_state C)
        (train_code3d : list (input C)) (train_label : list nat)
        (train_line_label : list tensor)
        (valid_code3d : list (input C)) (valid_label : list nat)
        (valid_line_label : list tensor) (st : state C) :
  (1 <= args_num_epochs args)%nat ->
  train_model C args theta0 opt0 train_code3d train_label train_line_label
              valid_code3d valid_label valid_line_label = Ok st ->
  exists (pre : list (event C)) (rows : list (nat * scalar * scalar * R))
         (b : loc) (obj : module_obj),
    st_log st
    = pre ++ [EvSaveCheckpoint C
                {| ck_epoch := best_epoch (st_selector st);
                   ck_model_state_dict := parameters obj;
                   ck_optimizer_state_dict := st_optimizer st |};
              EvSaveLossCsv C rows] /\
    best_model (st_selector st) = Some b /\
    heap_get (st_heap st) b = Some obj /\
    filter is_save pre = [] /\
    length (filter is_loss_csv pre) = (args_num_epochs args - 1)%nat /\
    length (filter is_save (st_log st)) = 1%nat.
Proof.
  intros HN H. rewrite train_model_unfold in H.
  destruct (make_weight_dict train_label) as [wd |]; [| discriminate].
  cbn [bind of_option] in H.
  destruct (args_num_epochs args) as [| n] eqn:EN; [lia |].
  apply epoch_loop_last in H. destruct H as (st_j & Hloop & Hbody).
  apply epoch_loop_log in Hloop.
  destruct Hloop as (evs & Hlog1 & _ & Hcsv & Hnosave).
  rewrite EN in Hnosave. specialize (Hnosave (seq_no_multiple n)).
  apply epoch_body_log in Hbody.
  destruct Hbody as (pre & evs_save & rows & Hlog2 & P1 & P2 & _ & Hsave).
  rewrite EN in Hsave.
  destruct Hsave as [(Hne & _) | (_ & b & obj & Hb & Hobj & ->)].
  { exfalso. apply Hne. apply Nat.Div0.mod_same. }
  exists (st_log st_j ++ pre), rows, b, obj.
  assert (Hpre : filter is_save (st_log st_j ++ pre) = []).
  { rewrite Hlog1. simpl. rewrite !filter_app, Hnosave, P1. reflexivity. }
  split; [rewrite Hlog2, <- !app_assoc; reflexivity |].
  split; [exact Hb |]. split; [exact Hobj |]. split; [exact Hpre |].
  split.
  - rewrite Hlog1. simpl. rewrite !filter_app, P2, !length_app, Hcsv, length_seq.
    simpl. lia.
  - rewrite Hlog2.
    replace (st_log st_j ++ pre ++ [EvSaveCheckpoint C _] ++ [EvSaveLossCsv C rows])
      with ((st_log st_j ++ pre) ++ [EvSaveCheckpoint C
              {| ck_epoch := best_epoch (st_selector st);
                 ck_model_state_dict := parameters obj;
                 ck_optimizer_state_dict := st_optimizer st |};
              EvSaveLossCsv C rows])
      by (rewrite <- !app_assoc; reflexivity).
    rewrite filter_app, Hpre. reflexivity.
Qed.

(** ** The class weights are computed once (part of C4) *)

Lemma class_weight_logged_once
      (args : Args) (theta0 : list R) (opt0 : opt_state C)
      (train_code3d : list (input C)) (train_label : list nat)
      (train_line_label : list tensor)
      (valid_code3d : list (input C)) (valid_label : list nat)
      (valid_line_label : list tensor) (st : state C) :
  train_model C args theta0 opt0 train_code3d train_label train_line_label
              valid_code3d valid_label valid_line_label = Ok st ->
  exists rest : list (event C),
    st_log st
    = EvClassWeight C (compute_class_weight (np_unique train_label) train_label)
      :: rest /\
    filter is_class_weight rest = [].
Proof.
  intros H. rewrite train_model_unfold in H.
  destruct (make_weight_dict train_label) as [wd |]; [| discriminate].
  cbn [bind of_option] in H.
  apply epoch_loop_log in H. destruct H as (evs & Hlog & Hcw & _).
  exists evs. split; [exact Hlog | exact Hcw].
Qed.


(** ** The selector (C6) *)

Lemma is_last_max_accept (aucs : list R) (auc : R) :
  Forall (fun a => a <= auc) aucs ->
  is_last_max (aucs ++ [auc]) auc (S (length aucs)).
Proof.
  intros Hle. unfold is_last_max. rewrite length_app. simpl.
  split; [lia |]. split.
  - rewrite Nat.sub_0_r, nth_error_app2 by lia. rewrite Nat.sub_diag. reflexivity.
  - split.
    + apply Forall_app. split; [exact Hle | constructor; [lra | constructor]].
    + intros i a Hi Hnth.
      assert (Hnone : nth_error (aucs ++ [auc]) i = None).
      { apply nth_error_None. rewrite length_app. simpl. lia. }
      congruence.
Qed.

Lemma is_last_max_reject (aucs : list R) (best auc : R) (epoch : nat) :
  is_last_max aucs best epoch -> auc < best ->
  is_last_max (aucs ++ [auc]) best epoch.
Proof.
  intros (Hb & Hn & Hle & Hlast) Hlt. unfold is_last_max.
  rewrite length_app. simpl. split; [lia |]. split.
  - rewrite nth_error_app1 by lia. exact Hn.
  - split.
    + apply Forall_app. split; [exact Hle | constructor; [lra | constructor]].
    + intros i a Hi Hnth.
      destruct (Nat.lt_ge_cases i (length aucs)) as [Hlt' | Hge].
      * rewrite nth_error_app1 in Hnth by exact Hlt'. eapply Hlast; eassumption.
      * rewrite nth_error_app2 in Hnth by exact Hge.
        destruct (i - length aucs)%nat as [| k]; simpl in Hnth.
        -- injection Hnth as <-. exact Hlt.
        -- destruct k; discriminate.
Qed.

(** After [j] epochs, either no epoch has been accepted yet (all AUCs were
    negative), or the selector holds the largest AUC, the last epoch that
    reached it, and a copy of the model object as it was at the end of that
    epoch. *)
Lemma selector_invariant (args : Args) (weight_dict : dict)
      (x_train_vec x_valid_vec : list (example C)) (st0 : state C) :
  st_selector st0 = {| best_auc := 0; best_epoch := 0; best_model := None |} ->
  val_auc_all_epochs (st_metrics st0) = [] ->
  (0 < length (st_heap st0))%nat ->
  forall (j : nat) (st : state C),
    epoch_loop C args weight_dict x_train_vec x_valid_vec (seq 1 j) st0 = Ok st ->
    let aucs := val_auc_all_epochs (st_metrics st) in
    let sel := st_selector st in
    length aucs = j /\ (0 < length (st_heap st))%nat /\
    ((best_model sel = None /\ best_epoch sel = 0%nat /\ best_auc sel = 0 /\
      Forall (fun a => a < 0) aucs)
     \/ (is_last_max aucs (best_auc sel) (best_epoch sel) /\
         exists (b : loc) (obj : module_obj) (st_b : state C),
           best_model sel = Some b /\ b <> model /\
           heap_get (st_heap st) b = Some obj /\
           epoch_loop C args weight_dict x_train_vec x_valid_vec
                      (seq 1 (best_epoch sel)) st0 = Ok st_b /\
           heap_get (st_heap st_b) model = Some obj)).
Proof.
  intros Hsel0 Hauc0 Hheap0. induction j as [| j IH]; intros st H.
  - simpl in H. injection H as <-. simpl. rewrite Hauc0, Hsel0. simpl.
    split; [reflexivity |]. split; [exact Hheap0 |]. left. auto.
  - pose proof H as Hrun.
    apply epoch_loop_last in H. destruct H as (st_j & Hloop & Hbody).
    destruct (IH st_j Hloop) as (Hlen & Hheap & Hinv). clear IH.
    apply epoch_body_effect in Hbody.
    destruct Hbody as (st1 & m & auc & evs_sel & evs_save
                       & Htr & Hm & _ & Hauc & Hcase & _ & _).
    destruct Htr as (Hs1 & _ & Hl1 & Hh1 & _).
    cbv zeta. rewrite Hauc, length_app, Hlen. simpl.
    split; [lia |].
    destruct Hcase as [(Hle & Hh & Hs & _) | (Hnle & Hh & Hs & _)].
    + rewrite Hh, Hs, length_app. simpl. split; [lia |]. right.
      split.
      * rewrite <- Hlen. apply is_last_max_accept.
        destruct Hinv as [(_ & _ & Hz & Hneg) | ((_ & _ & Hmax & _) & _)].
        -- rewrite Hz in Hle. eapply Forall_impl; [| exact Hneg].
           intros a Ha. simpl in Ha. lra.
        -- eapply Forall_impl; [| exact Hmax]. intros a Ha. simpl in Ha. lra.
      * exists (length (st_heap st1)), m, st.
        split; [reflexivity |].
        split; [unfold model; lia |].
        split; [apply heap_get_app_new |].
        split; [exact Hrun |].
        rewrite Hh. apply heap_get_app_old. exact Hm.
    + rewrite Hh, Hs. split; [lia |].
      assert (Hlt : auc < best_auc (st_selector st_j)) by lra.
      destruct Hinv as [(Hnone & He & Hz & Hneg) | (Hmax & b & obj & st_b & Hb & Hne & Hobj & Hrb & Hmb)].
      * left. repeat split; try assumption.
        apply Forall_app. split; [exact Hneg |].
        constructor; [lra | constructor].
      * right. split; [apply is_last_max_reject; assumption |].
        exists b, obj, st_b. repeat split; try assumption.
        rewrite (Hh1 b Hne). exact Hobj.
Qed.

(** C6.  For every run of the epoch loop over [num_epochs >= 1] epochs that
    completes from the initial state, with [aucs] the validation AUCs of
    the epochs in order: there are [num_epochs] of them, [best_auc] is
    their maximum and [best_epoch] the last epoch that reached it (a later
    epoch with an equal AUC replaces an earlier one); and [best_model]
    is an object of its own, distinct from [model], whose contents are
    those the model object had at the end of epoch [best_epoch], whatever
    training did to the model afterwards. *)
Theorem selector_holds_last_maximum_and_its_copy
        (args : Args) (weight_dict : dict)
        (x_train_vec x_valid_vec : list (example C))
        (theta0 : list R) (opt0 : opt_state C) (sample_weights : list R)
        (st : state C) :
  (1 <= args_num_epochs args)%nat ->
  epoch_loop C args weight_dict x_train_vec x_valid_vec
             (seq 1 (args_num_epochs args))
             (emit C (EvClassWeight C sample_weights)
                   (initial_state C theta0 opt0)) = Ok st ->
  let aucs := val_auc_all_epochs (st_metrics st) in
  let sel := st_selector st in
  length aucs = args_num_epochs args /\
  is_last_max aucs (best_auc sel) (best_epoch sel) /\
  exists (b : loc) (obj : module_obj) (st_b : state C),
    best_model sel = Some b /\ b <> model /\
    heap_get (st_heap st) b = Some obj /\
    epoch_loop C args weight_dict x_train_vec x_valid_vec
               (seq 1 (best_epoch sel))
               (emit C (EvClassWeight C sample_weights)
                     (initial_state C theta0 opt0)) = Ok st_b /\
    heap_get (st_heap st_b) model = Some obj.
Proof.
  intros HN H.
  assert (Hinv := selector_invariant args weight_dict x_train_vec x_valid_vec
                    (emit C (EvClassWeight C sample_weights)
                          (initial_state C theta0 opt0))
                    eq_refl eq_refl (Nat.lt_0_1) _ st H).
  cbv zeta in Hinv. destruct Hinv as (Hlen & _ & Hinv).
  cbv zeta. split; [exact Hlen |].
  destruct Hinv as [(Hnone & _) | (Hmax & Hcopy)]; [| split; assumption].
  exfalso.
  destruct (args_num_epochs args) as [| n] eqn:EN; [lia |].
  apply epoch_loop_last in H. destruct H as (st_j & _ & Hbody).
  apply epoch_body_log in Hbody.
  destruct Hbody as (pre & evs_save & rows & _ & _ & _ & _ & Hsave).
  rewrite EN in Hsave.
  destruct Hsave as [(Hne & _) | (_ & b & obj & Hb & _)].
  - apply Hne. apply Nat.Div0.mod_same.
  - congruence.
Qed.


(** ** When the run completes *)

Lemma get_loss_weight_total (weight_dict : dict) (wc wd : R) :
  dict_get weight_dict "clean" = Some wc ->
  dict_get weight_dict "defect" = Some wd ->
  forall labels : tensor, exists w, get_loss_weight labels weight_dict = Some w.
Proof.
  intros Hc Hd. induction labels as [| lab labels (w & IH)].
  - exists []. reflexivity.
  - simpl. rewrite Hc, Hd, IH.
    destruct (seqb lab (Fin 0)); eexists; reflexivity.
Qed.

Lemma forward_loss_total (args : Args) (training : bool) (weight : option tensor)
      (cov_inputs : list (embedding C)) (labels : tensor)
      (line_labels : list tensor) (theta : list R) :
  well_behaved C -> labels <> [] ->
  exists (out : tensor) (l : scalar),
    forward_loss C args training weight (length labels) cov_inputs labels
                 line_labels theta = Ok (out, l).
Proof.
  intros (Hnet & _) Hne. unfold forward_loss.
  specialize (Hnet theta training cov_inputs).
  destruct (network C theta training cov_inputs) as [output line_atts].
  simpl in Hnet.
  unfold reshape_column. rewrite Nat.eqb_refl. cbn [bind of_option].
  destruct (batch_loss_total (args_k args)
              (criterion_file C weight output labels) line_atts line_labels labels
              Hne Hnet)
    as (r & ->).
  cbn [bind of_option]. eauto.
Qed.

Lemma train_batch_total (args : Args) (weight_dict : dict) (wc wd : R)
      (batch : list (example C)) (st : state C) :
  well_behaved C ->
  dict_get weight_dict "clean" = Some wc ->
  dict_get weight_dict "defect" = Some wd ->
  (0 < args_batch_size args)%nat ->
  length batch = args_batch_size args ->
  (0 < length (st_heap st))%nat ->
  exists (st' : state C) (loss : scalar),
    train_batch C args weight_dict batch st = Ok (st', loss).
Proof.
  intros HC Hc Hd Hbs Hlen Hheap. unfold train_batch. cbv zeta.
  assert (Hbatch : batch <> []) by (destruct batch; [simpl in Hlen; lia | discriminate]).
  match goal with
  | |- context [get_loss_weight ?labels weight_dict] =>
      destruct (get_loss_weight_total weight_dict wc wd Hc Hd labels) as (w & ->);
      replace (args_batch_size args) with (length labels)
        by (rewrite length_map; exact Hlen)
  end.
  cbn [bind of_option].
  destruct (heap_get (st_heap st) model) as [m |] eqn:Hm.
  2:{ apply nth_error_None in Hm. unfold model in Hm. lia. }
  cbn [bind of_option].
  match goal with
  | |- context [forward_loss C args true ?wt (length ?labels) ?cov ?labels ?ll (parameters m)] =>
      destruct (forward_loss_total args true wt cov labels ll (parameters m) HC)
        as (out & l & ->); [destruct batch; [congruence | discriminate] |]
  end.
  cbn [bind].
  rewrite (update_steps st m _ (args_max_grad_norm args) _ Hm).
  eauto.
Qed.

Lemma train_loop_total (args : Args) (weight_dict : dict) (wc wd : R)
      (train_dl : list (list (example C))) :
  well_behaved C ->
  dict_get weight_dict "clean" = Some wc ->
  dict_get weight_dict "defect" = Some wd ->
  (0 < args_batch_size args)%nat ->
  Forall (fun b => length b = args_batch_size args) train_dl ->
  forall (st : state C) (losses : tensor),
    (0 < length (st_heap st))%nat ->
    exists (st' : state C) (losses' : tensor),
      train_loop C args weight_dict train_dl st losses = Ok (st', losses').
Proof.
  intros HC Hc Hd Hbs. induction 1 as [| batch rest Hb _ IH]; intros st losses Hheap.
  - simpl. eauto.
  - simpl.
    destruct (train_batch_total args weight_dict wc wd batch st HC Hc Hd Hbs Hb Hheap)
      as (st1 & l & Hstep).
    rewrite Hstep. cbn [bind].
    apply IH. apply train_batch_trains in Hstep.
    destruct Hstep as (_ & _ & -> & _). exact Hheap.
Qed.

Lemma valid_loop_total (args : Args) (theta : list R)
      (valid_dl : list (list (example C))) :
  well_behaved C ->
  Forall (fun b => b <> []) valid_dl ->
  forall (outputs outputs_labels : list tensor) (val_losses : tensor),
  exists (outputs' outputs_labels' : list tensor) (val_losses' : tensor),
    valid_loop C args theta valid_dl outputs outputs_labels val_losses
    = Ok (outputs', outputs_labels', val_losses') /\
    (length outputs' = length outputs + length valid_dl)%nat /\
    (length outputs_labels' = length outputs_labels + length valid_dl)%nat.
Proof.
  intros HC. induction 1 as [| batch rest Hbatch _ IH];
    intros outputs outputs_labels val_losses.
  - simpl. exists outputs, outputs_labels, val_losses. repeat split; lia.
  - simpl. unfold valid_batch. cbv zeta.
    match goal with
    | |- context [forward_loss C args false None (length ?labels) ?cov ?labels ?ll theta] =>
        destruct (forward_loss_total args false None cov labels ll theta HC)
          as (out & l & ->); [destruct batch; [congruence | discriminate] |]
    end.
    cbn [bind].
    match goal with
    | |- context [valid_loop C args theta rest ?o ?ol ?vl] =>
        destruct (IH o ol vl) as (o' & ol' & vl' & -> & Ho & Hol)
    end.
    exists o', ol', vl'. rewrite length_app in Ho, Hol. simpl in Ho, Hol.
    repeat split; lia.
Qed.

Lemma torch_cat_nonempty (ts : list tensor) :
  (0 < length ts)%nat -> exists t, torch_cat ts = Some t.
Proof. destruct ts; simpl; [lia | eauto]. Qed.

Lemma epoch_body_total (args : Args) (weight_dict : dict) (wc wd : R)
      (x_train_vec x_valid_vec : list (example C)) (epoch : nat) (st : state C) :
  well_behaved C ->
  dict_get weight_dict "clean" = Some wc ->
  dict_get weight_dict "defect" = Some wd ->
  (0 < args_batch_size args)%nat -> x_valid_vec <> [] ->
  selector_ready st ->
  exists st' : state C,
    epoch_body C args weight_dict x_train_vec x_valid_vec epoch st = Ok st' /\
    selector_ready st'.
Proof.
  intros HC Hc Hd Hbs Hvalid (Hheap & Hsel).
  assert (Hfull : Forall (fun b => length b = args_batch_size args)
                    (DataLoader (shuffle C epoch x_train_vec) (args_batch_size args) true)).
  { apply train_loader_batches_full. exact Hbs. }
  assert (Hvdl : (0 < length (DataLoader x_valid_vec (args_batch_size args) false))%nat).
  { apply valid_loader_nonempty; assumption. }
  unfold epoch_body. cbv zeta.
  destruct (train_loop_total args weight_dict wc wd _ HC Hc Hd Hbs Hfull st [] Hheap)
    as (st1 & train_losses & Htrain).
  rewrite Htrain. cbn [bind].
  apply train_loop_trains in Htrain.
  destruct Htrain as (Hs1 & _ & Hl1 & Hh1 & _).
  cbn [st_heap with_metrics].
  destruct (heap_get (st_heap st1) model) as [m |] eqn:Hm.
  2:{ apply nth_error_None in Hm. unfold model in Hm. lia. }
  cbn [bind of_option].
  destruct (valid_loop_total args (parameters m)
              (DataLoader x_valid_vec (args_batch_size args) false) HC
              (valid_loader_batches_nonempty x_valid_vec _ Hbs) [] [] [])
    as (outputs & outputs_labels & val_losses & -> & Ho & Hol).
  cbn [bind]. simpl in Ho, Hol.
  destruct (torch_cat_nonempty outputs) as (y_prob & ->); [lia |].
  destruct (torch_cat_nonempty outputs_labels) as (y_gt & ->); [lia |].
  cbn [bind of_option].
  destruct HC as (_ & Hauc).
  destruct (Hauc y_gt y_prob) as (auc & -> & Hpos).
  cbn [bind of_option].
  unfold select_best. cbn [st_selector with_metrics st_heap].
  assert (Hready : forall s : state C,
             st_heap s = st_heap st1 ->
             st_selector s = st_selector st1 ->
             ~ best_auc (st_selector st1) <= auc ->
             exists b, best_model (st_selector s) = Some b /\
                       (b < length (st_heap s))%nat).
  { intros s Hhs Hss Hnle. rewrite Hss, Hhs, Hs1, Hl1.
    destruct (best_model (st_selector st)) as [b |] eqn:Hb.
    - exists b. split; [reflexivity | exact Hsel].
    - exfalso. apply Hnle. rewrite Hs1, Hsel. exact Hpos. }
  destruct (Rle_dec (best_auc (st_selector st1)) auc) as [Hle | Hnle].
  - unfold deepcopy. cbn [st_heap with_metrics]. rewrite Hm.
    cbn [bind of_option].
    destruct (Nat.eqb (epoch mod args_num_epochs args) 0).
    + unfold save_checkpoint. simpl.
      rewrite heap_get_app_new. cbn [bind of_option].
      eexists. split; [reflexivity |].
      unfold selector_ready. simpl. rewrite length_app. simpl. lia.
    + cbn [bind]. eexists. split; [reflexivity |].
      unfold selector_ready. simpl. rewrite length_app. simpl. lia.
  - cbn [bind].
    match goal with
    | |- context [save_checkpoint C ?s] =>
        destruct (Hready s eq_refl eq_refl Hnle) as (b & Hb & Hlt);
        set (s2 := s) in *
    end.
    destruct (Nat.eqb (epoch mod args_num_epochs args) 0).
    + unfold save_checkpoint. rewrite Hb.
      destruct (heap_get (st_heap s2) b) as [obj |] eqn:Hobj.
      2:{ apply nth_error_None in Hobj. lia. }
      cbn [bind of_option]. eexists. split; [reflexivity |].
      unfold selector_ready. simpl. split; [lia |].
      simpl in Hb. rewrite Hb. simpl in Hlt. lia.
    + cbn [bind]. eexists. split; [reflexivity |].
      unfold selector_ready. simpl. split; [lia |].
      simpl in Hb. rewrite Hb. simpl in Hlt. lia.
Qed.

(** A run whose collaborators are well behaved completes: with a positive
    batch size and a validation set that is not empty, no statement of the
    loop raises. *)
Lemma epoch_loop_total (args : Args) (weight_dict : dict) (wc wd : R)
      (x_train_vec x_valid_vec : list (example C)) (epochs : list nat) :
  well_behaved C ->
  dict_get weight_dict "clean" = Some wc ->
  dict_get weight_dict "defect" = Some wd ->
  (0 < args_batch_size args)%nat -> x_valid_vec <> [] ->
  forall st : state C,
    selector_ready st ->
    exists st' : state C,
      epoch_loop C args weight_dict x_train_vec x_valid_vec epochs st = Ok st'.
Proof.
  intros HC Hc Hd Hbs Hvalid. induction epochs as [| e epochs IH]; intros st Hst.
  - simpl. eauto.
  - simpl.
    destruct (epoch_body_total args weight_dict wc wd x_train_vec x_valid_vec e st
                HC Hc Hd Hbs Hvalid Hst) as (st1 & -> & Hst1).
    cbn [bind]. apply IH. exact Hst1.
Qed.

Lemma insert_unique_cons (x : nat) (l : list nat) :
  exists y l', insert_unique x l = y :: l'.
Proof.
  destruct l as [| y l]; simpl; [eauto |].
  destruct (Nat.ltb x y); [eauto |]. destruct (Nat.eqb x y); eauto.
Qed.

Lemma make_weight_dict_total (train_label : list nat) :
  train_label <> [] -> exists wd, make_weight_dict train_label = Some wd.
Proof.
  destruct train_label as [| x y]; [congruence | intros _].
  unfold make_weight_dict, weight_dict_of. simpl np_unique.
  destruct (insert_unique_cons x (np_unique y)) as (c & cs & ->).
  simpl. eauto.
Qed.

Lemma make_weight_dict_keys (train_label : list nat) (weight_dict : dict) :
  make_weight_dict train_label = Some weight_dict ->
  exists wc wd : R,
    dict_get weight_dict "clean" = Some wc /\
    dict_get weight_dict "defect" = Some wd.
Proof.
  unfold make_weight_dict, weight_dict_of.
  destruct (np_max _) as [mx |]; [| discriminate].
  destruct (np_min _) as [mn |]; [| discriminate].
  intros H. injection H as <-. simpl. eauto.
Qed.

Lemma TextDataset_nonempty (x : input C) (xs : list (input C))
      (l : nat) (ls : list nat) (t : tensor) (ts : list tensor) :
  TextDataset C (x :: xs) (l :: ls) (t :: ts) <> [].
Proof. unfold TextDataset. simpl. discriminate. Qed.

Lemma initial_state_ready (theta0 : list R) (opt0 : opt_state C) (sw : list R) :
  selector_ready (emit C (EvClassWeight C sw) (initial_state C theta0 opt0)).
Proof. unfold selector_ready. simpl. split; [lia | reflexivity]. Qed.

(** [train_model] completes when the collaborators are well behaved, the
    batch size is positive and neither release is empty. *)
Lemma train_model_total (args : Args) (theta0 : list R) (opt0 : opt_state C)
      (train_code3d : list (input C)) (train_label : list nat)
      (train_line_label : list tensor)
      (x : input C) (valid_code3d : list (input C))
      (l : nat) (valid_label : list nat)
      (t : tensor) (valid_line_label : list tensor) :
  well_behaved C ->
  (0 < args_batch_size args)%nat -> train_label <> [] ->
  exists st : state C,
    train_model C args theta0 opt0 train_code3d train_label train_line_label
                (x :: valid_code3d) (l :: valid_label) (t :: valid_line_label)
    = Ok st.
Proof.
  intros HC Hbs Hne. rewrite train_model_unfold.
  destruct (make_weight_dict_total train_label Hne) as (wd & Hwd).
  rewrite Hwd. cbn [bind of_option].
  destruct (make_weight_dict_keys _ _ Hwd) as (wc & wdf & Hc & Hd).
  eapply epoch_loop_total; try eassumption.
  - apply TextDataset_nonempty.
  - apply initial_state_ready.
Qed.

End RunProperties.

(** ** The order of the optimisation step (C5) *)

Lemma toy_forward_loss (weight : option tensor) (training : bool) (theta : list R) :
  forward_loss toy toy_args training weight 1 [7%nat] [Fin 0] [[Fin 0; Fin 0]] theta
  = Ok ([Fin 0], Fin 1).
Proof.
  unfold forward_loss. simpl.
  unfold batch_loss, normalize, normalize_row. simpl.
  real_dec. simpl. unfold skipped. simpl. real_dec. simpl.
  unfold blend. rewrite k_eff_zero. simpl. do 2 f_equal. f_equal. lra.
Qed.

Lemma norm_30_40 : sqrt (Rsum (map (fun g => g * g) [30; 40])) = 50.
Proof.
  simpl. replace (30 * 30 + (40 * 40 + 0)) with (50 * 50) by lra.
  apply sqrt_square. lra.
Qed.

(** C5, evaluated where it fails.  One training iteration on a batch whose
    loss has the gradient [30, 40], of norm 50, with [max_grad_norm = 5]:
    the optimiser steps on [30, 40] itself, the gradients are zeroed, and
    only then is the clipping applied, to gradients that are all 0.
    Clipping [30, 40] would have shortened it. *)
Theorem clipping_comes_after_the_optimizer_step :
  exists (st' : state toy) (loss : scalar),
    train_batch toy toy_args toy_weight_dict toy_batch
                (emit toy (EvClassWeight toy [])
                      (initial_state toy [0; 0] 0%nat)) = Ok (st', loss) /\
    st_log st' = [EvClassWeight toy [];
                  EvBackward toy [30; 40];
                  EvOptimizerStep toy [0 + 30; 0 + 40];
                  EvZeroGrad toy;
                  EvClipGradNorm toy [0; 0]] /\
    heap_get (st_heap st') model
    = Some {| parameters := [0 - (0 + 30); 0 - (0 + 40)];
              grad := clip_grad_norm_ [0; 0] 5 |} /\
    args_max_grad_norm toy_args < sqrt (Rsum (map (fun g => g * g) [30; 40])) /\
    nth 0 (clip_grad_norm_ [30; 40] (args_max_grad_norm toy_args)) 0 < 30.
Proof.
  assert (Hnorm : args_max_grad_norm toy_args
                  < sqrt (Rsum (map (fun g => g * g) [30; 40]))).
  { rewrite norm_30_40. simpl. lra. }
  assert (Hclip : nth 0 (clip_grad_norm_ [30; 40] (args_max_grad_norm toy_args)) 0 < 30).
  { unfold clip_grad_norm_. rewrite norm_30_40. simpl.
    assert (H : 5 / (50 + 1 / 1000000) < 1).
    { apply Rmult_lt_reg_r with (50 + 1 / 1000000); [lra |].
      unfold Rdiv at 1. rewrite Rmult_assoc, Rinv_l by lra. lra. }
    assert (Hpos : 0 < 5 / (50 + 1 / 1000000)).
    { apply Rdiv_lt_0_compat; lra. }
    rewrite Rmin_left by lra. nra. }
  unfold train_batch, toy_batch, toy_weight_dict. simpl map.
  simpl get_loss_weight. real_dec. simpl get_loss_weight.
  cbn [bind of_option].
  change (heap_get (st_heap (emit toy (EvClassWeight toy [])
                                  (initial_state toy [0; 0] 0%nat))) model)
    with (Some {| parameters := [0; 0]; grad := [0; 0] |}).
  cbn [bind of_option parameters args_batch_size toy_args].
  rewrite toy_forward_loss. cbn [bind].
  rewrite (update_steps toy (emit toy (EvClassWeight toy [])
                                  (initial_state toy [0; 0] 0%nat))
             {| parameters := [0; 0]; grad := [0; 0] |} _ _ _ eq_refl).
  do 2 eexists. split; [reflexivity |].
  split; [reflexivity |]. split; [reflexivity |].
  split; [exact Hnorm | exact Hclip].
Qed.

(** ** The small instance completes its run *)

Lemma toy_well_behaved : well_behaved toy.
Proof.
  split.
  - intros theta training cov_inputs. simpl.
    induction cov_inputs; simpl; constructor; [discriminate | assumption].
  - intros y_gt y_prob. exists (1 / 2). split; [reflexivity | lra].
Qed.

(** Two epochs on one training file and one validation file: the run
    completes and writes its checkpoint once. *)
Lemma checkpoint_written_once_after_last_epoch_witness :
  exists st : state toy,
    train_model toy toy_args [0; 0] 0%nat
                [7%nat] [0%nat] [[Fin 0; Fin 0]]
                [8%nat] [1%nat] [[Fin 0; Fin 1]] = Ok st /\
    length (filter is_save (st_log st)) = 1%nat.
Proof.
  assert (Hbs : (0 < args_batch_size toy_args)%nat) by (simpl; lia).
  assert (Hne : [0%nat] <> []) by discriminate.
  destruct (train_model_total toy toy_args [0; 0] 0%nat
              [7%nat] [0%nat] [[Fin 0; Fin 0]]
              8%nat [] 1%nat [] [Fin 0; Fin 1] []
              toy_well_behaved Hbs Hne) as (st & Hst).
  assert (HN : (1 <= args_num_epochs toy_args)%nat) by (simpl; lia).
  destruct (checkpoint_written_once_after_last_epoch toy toy_args [0; 0] 0%nat
              [7%nat] [0%nat] [[Fin 0; Fin 0]]
              [8%nat] [1%nat] [[Fin 0; Fin 1]] st HN Hst)
    as (pre & rows & b & obj & _ & _ & _ & _ & _ & Hone).
  exists st. split; [exact Hst | exact Hone].
Defined.

(** The same two epochs, seen from the selector: both have the AUC 1/2,
    and the second one is kept. *)
Lemma selector_holds_last_maximum_and_its_copy_witness :
  exists st : state toy,
    epoch_loop toy toy_args toy_weight_dict
               (TextDataset toy [7%nat] [0%nat] [[Fin 0; Fin 0]])
               (TextDataset toy [8%nat] [1%nat] [[Fin 0; Fin 1]])
               (seq 1 (args_num_epochs toy_args))
               (emit toy (EvClassWeight toy [])
                     (initial_state toy [0; 0] 0%nat)) = Ok st /\
    val_auc_all_epochs (st_metrics st) = [1 / 2; 1 / 2] /\
    best_auc (st_selector st) = 1 / 2 /\
    best_epoch (st_selector st) = 2%nat.
Proof.
  assert (Hbs : (0 < args_batch_size toy_args)%nat) by (simpl; lia).
  assert (Hv : TextDataset toy [8%nat] [1%nat] [[Fin 0; Fin 1]] <> []).
  { apply TextDataset_nonempty. }
  destruct (epoch_loop_total toy toy_args toy_weight_dict 1 2
              (TextDataset toy [7%nat] [0%nat] [[Fin 0; Fin 0]])
              (TextDataset toy [8%nat] [1%nat] [[Fin 0; Fin 1]])
              (seq 1 (args_num_epochs toy_args))
              toy_well_behaved eq_refl eq_refl Hbs Hv
              (emit toy (EvClassWeight toy []) (initial_state toy [0; 0] 0%nat))
              (initial_state_ready toy [0; 0] 0%nat [])) as (st & Hst).
  assert (HN : (1 <= args_num_epochs toy_args)%nat) by (simpl; lia).
  destruct (selector_holds_last_maximum_and_its_copy toy toy_args toy_weight_dict
              (TextDataset toy [7%nat] [0%nat] [[Fin 0; Fin 0]])
              (TextDataset toy [8%nat] [1%nat] [[Fin 0; Fin 1]])
              [0; 0] 0%nat [] st HN Hst) as (_ & Hmax & _).
  destruct (epoch_loop_aucs toy _ _ _ _ _ _ _ Hst) as (new & Hnew & Hlen & HF).
  simpl in Hnew, Hlen.
  assert (Haucs : val_auc_all_epochs (st_metrics st) = [1 / 2; 1 / 2]).
  { rewrite Hnew.
    destruct new as [| a [| b [| c new]]]; try discriminate.
    inversion HF as [| ? ? (y1 & p1 & Ha) HF']; subst.
    inversion HF' as [| ? ? (y2 & p2 & Hb) _]; subst.
    simpl in Ha, Hb. congruence. }
  exists st. split; [exact Hst |]. split; [exact Haucs |].
  rewrite Haucs in Hmax. destruct Hmax as ((Hlo & Hhi) & Hnth & _ & Hlast).
  simpl in Hhi.
  destruct (best_epoch (st_selector st)) as [| [| [| e]]] eqn:He; try lia.
  - exfalso. simpl in Hnth.
    assert (Hb : best_auc (st_selector st) = 1 / 2) by congruence.
    specialize (Hlast 1%nat (1 / 2) (le_n 1) eq_refl). lra.
  - simpl in Hnth. split; [congruence | reflexivity].
Defined.

(** ** Class weights (C4) *)

Lemma np_unique_binary (y : list nat) :
  Forall (fun l => l = 0 \/ l = 1)%nat y ->
  np_unique y
  = (if existsb (Nat.eqb 0) y then [0%nat] else [])
    ++ (if existsb (Nat.eqb 1) y then [1%nat] else []).
Proof.
  induction 1 as [| x y Hx _ IH]; [reflexivity |].
  simpl np_unique. rewrite IH. cbn [existsb].
  destruct (existsb (Nat.eqb 0) y), (existsb (Nat.eqb 1) y);
    destruct Hx as [-> | ->]; reflexivity.
Qed.

Lemma existsb_eqb_in (c : nat) (y : list nat) :
  In c y -> existsb (Nat.eqb c) y = true.
Proof.
  intros H. apply existsb_exists. exists c. split; [exact H | apply Nat.eqb_refl].
Qed.

Lemma count_occ_pos (c : nat) (y : list nat) :
  In c y -> 0 < INR (count_occ Nat.eq_dec y c).
Proof.
  intros H. apply lt_0_INR. apply (count_occ_In Nat.eq_dec) in H. lia.
Qed.

Lemma balanced_weight_antitone (n c c' : R) :
  0 <= n -> 0 < c -> c <= c' -> n / (2 * c') <= n / (2 * c).
Proof.
  intros Hn Hc Hcc. unfold Rdiv.
  apply Rmult_le_compat_l; [exact Hn |].
  apply Rinv_le_contravar; lra.
Qed.

Lemma get_loss_weight_map (weight_dict : dict) (wc wd : R) :
  dict_get weight_dict "clean" = Some wc ->
  dict_get weight_dict "defect" = Some wd ->
  forall labels : tensor,
    get_loss_weight labels weight_dict
    = Some (map (fun lab => Fin (if seqb lab (Fin 0) then wc else wd)) labels).
Proof.
  intros Hc Hd. induction labels as [| lab labels IH]; [reflexivity |].
  cbn [get_loss_weight map]. rewrite IH.
  destruct (seqb lab (Fin 0)); [rewrite Hc | rewrite Hd]; reflexivity.
Qed.

(** The array of line 114 and the dictionary of lines 116-118, for
    training labels that are 0 or 1 and hold both classes. *)
Lemma binary_weight_dict (train_label : list nat) :
  Forall (fun l => l = 0 \/ l = 1)%nat train_label ->
  In 0%nat train_label -> In 1%nat train_label ->
  let total := INR (length train_label) in
  let count0 := INR (count_occ Nat.eq_dec train_label 0%nat) in
  let count1 := INR (count_occ Nat.eq_dec train_label 1%nat) in
  let w0 := total / (2 * count0) in
  let w1 := total / (2 * count1) in
  compute_class_weight (np_unique train_label) train_label = [w0; w1] /\
  make_weight_dict train_label
  = Some [("clean"%string, Rmin w0 w1); ("defect"%string, Rmax w0 w1)].
Proof.
  intros Hbin H0 H1 total count0 count1 w0 w1.
  assert (Hw : compute_class_weight (np_unique train_label) train_label = [w0; w1]).
  { rewrite (np_unique_binary _ Hbin).
    rewrite (existsb_eqb_in 0 _ H0), (existsb_eqb_in 1 _ H1).
    unfold compute_class_weight. simpl.
    subst w0 w1 total count0 count1.
    replace (1 + 1) with 2 by lra. reflexivity. }
  split; [exact Hw |].
  unfold make_weight_dict, weight_dict_of. rewrite Hw. reflexivity.
Qed.

(** C4, amended.  For training labels that are 0 or 1 and hold both
    classes: the balanced class weights are [total / (2 * count_c)] for the
    classes 0 and 1, in that order; the weight dictionary gives ['clean']
    the smaller and ['defect'] the larger of the two, and on every batch
    that has a label [get_loss_weight] gives a clean file the smaller and a
    defective file the larger.  So when the defective files are not the
    majority every file receives the weight [total / (2 * count_c)] of its
    class [c], and the class with fewer files the larger weight; when they
    are the majority the two weights are exchanged, and the clean files,
    which are fewer, receive the smaller weight.  In every run that
    completes the weights are computed once, as the first event of the
    run, and no later event computes them again. *)
Theorem class_weights_min_max_computed_once
        (C : Collaborators) (args : Args) (theta0 : list R) (opt0 : opt_state C)
        (train_code3d : list (input C)) (train_label : list nat)
        (train_line_label : list tensor)
        (valid_code3d : list (input C)) (valid_label : list nat)
        (valid_line_label : list tensor) :
  Forall (fun l => l = 0 \/ l = 1)%nat train_label ->
  In 0%nat train_label -> In 1%nat train_label ->
  let total := INR (length train_label) in
  let count0 := INR (count_occ Nat.eq_dec train_label 0%nat) in
  let count1 := INR (count_occ Nat.eq_dec train_label 1%nat) in
  let w0 := total / (2 * count0) in
  let w1 := total / (2 * count1) in
  compute_class_weight (np_unique train_label) train_label = [w0; w1] /\
  (exists weight_dict : dict,
      make_weight_dict train_label = Some weight_dict /\
      dict_get weight_dict "clean" = Some (Rmin w0 w1) /\
      dict_get weight_dict "defect" = Some (Rmax w0 w1) /\
      (forall labels : tensor,
          labels <> [] ->
          get_loss_weight labels weight_dict
          = Some (map (fun lab => Fin (if seqb lab (Fin 0)
                                       then Rmin w0 w1 else Rmax w0 w1))
                      labels)) /\
      (count1 <= count0 ->
       w0 <= w1 /\
       forall labels : tensor,
         labels <> [] ->
         get_loss_weight labels weight_dict
         = Some (map (fun lab => Fin (if seqb lab (Fin 0) then w0 else w1))
                     labels)) /\
      (count0 < count1 ->
       w1 < w0 /\
       forall labels : tensor,
         labels <> [] ->
         get_loss_weight labels weight_dict
         = Some (map (fun lab => Fin (if seqb lab (Fin 0) then w1 else w0))
                     labels))) /\
  (forall st : state C,
      train_model C args theta0 opt0 train_code3d train_label train_line_label
                  valid_code3d valid_label valid_line_label = Ok st ->
      exists rest : list (event C),
        st_log st = EvClassWeight C [w0; w1] :: rest /\
        filter is_class_weight rest = []).
Proof.
  intros Hbin H0 H1 total count0 count1 w0 w1.
  destruct (binary_weight_dict train_label Hbin H0 H1) as (Hw & Hwd).
  fold total count0 count1 in Hw, Hwd. fold w0 w1 in Hw, Hwd.
  assert (Hc0 : 0 < count0) by (apply count_occ_pos; exact H0).
  assert (Hc1 : 0 < count1) by (apply count_occ_pos; exact H1).
  assert (Ht : 0 < total).
  { apply lt_0_INR. destruct train_label; [contradiction | simpl; lia]. }
  assert (Hmap : forall labels : tensor,
             get_loss_weight labels
               [("clean"%string, Rmin w0 w1); ("defect"%string, Rmax w0 w1)]
             = Some (map (fun lab => Fin (if seqb lab (Fin 0)
                                          then Rmin w0 w1 else Rmax w0 w1))
                         labels)).
  { apply get_loss_weight_map; reflexivity. }
  split; [exact Hw |]. split.
  - eexists. split; [exact Hwd |].
    split; [reflexivity |]. split; [reflexivity |].
    split; [intros labels _; apply Hmap |]. split.
    + intros Hle.
      assert (Hww : w0 <= w1) by (apply balanced_weight_antitone; lra).
      split; [exact Hww |]. intros labels _.
      rewrite Hmap, (Rmin_left w0 w1), (Rmax_right w0 w1) by exact Hww.
      reflexivity.
    + intros Hlt.
      assert (Hww : w1 < w0).
      { unfold w0, w1, Rdiv. apply Rmult_lt_compat_l; [exact Ht |].
        apply Rinv_lt_contravar; nra. }
      split; [exact Hww |]. intros labels _.
      rewrite Hmap, (Rmin_right w0 w1), (Rmax_left w0 w1) by lra.
      reflexivity.
  - intros st Hst. rewrite <- Hw.
    eapply class_weight_logged_once. exact Hst.
Qed.

(** A run of two epochs on three training files, two clean and one
    defective, and one validation file: the weights are 3/4 and 3/2, they
    are the first event of the log and the only one of their kind, and a
    batch of a clean and a defective file is weighted 3/4 and 3/2. *)
Lemma class_weights_min_max_computed_once_witness :
  exists (st : state toy) (rest : list (event toy)) (weight_dict : dict),
    train_model toy toy_args [0; 0] 0%nat
                [7; 9; 11]%nat [0; 1; 0]%nat
                [[Fin 0; Fin 0]; [Fin 0; Fin 1]; [Fin 0; Fin 0]]
                [8%nat] [1%nat] [[Fin 0; Fin 1]] = Ok st /\
    st_log st
    = EvClassWeight toy [INR 3 / (2 * INR 2); INR 3 / (2 * INR 1)] :: rest /\
    filter is_class_weight rest = [] /\
    make_weight_dict [0; 1; 0]%nat = Some weight_dict /\
    get_loss_weight [Fin 0; Fin 1] weight_dict
    = Some [Fin (INR 3 / (2 * INR 2)); Fin (INR 3 / (2 * INR 1))].
Proof.
  assert (Hbin : Forall (fun l => l = 0 \/ l = 1)%nat [0; 1; 0]%nat).
  { repeat first [apply Forall_nil | apply Forall_cons]; auto. }
  assert (H0 : In 0%nat [0; 1; 0]%nat) by (simpl; auto).
  assert (H1 : In 1%nat [0; 1; 0]%nat) by (simpl; auto).
  assert (Hbs : (0 < args_batch_size toy_args)%nat) by (simpl; lia).
  assert (Hne : [0; 1; 0]%nat <> []) by discriminate.
  destruct (train_model_total toy toy_args [0; 0] 0%nat
              [7; 9; 11]%nat [0; 1; 0]%nat
              [[Fin 0; Fin 0]; [Fin 0; Fin 1]; [Fin 0; Fin 0]]
              8%nat [] 1%nat [] [Fin 0; Fin 1] []
              toy_well_behaved Hbs Hne) as (st & Hst).
  destruct (class_weights_min_max_computed_once toy toy_args [0; 0] 0%nat
              [7; 9; 11]%nat [0; 1; 0]%nat
              [[Fin 0; Fin 0]; [Fin 0; Fin 1]; [Fin 0; Fin 0]]
              [8%nat] [1%nat] [[Fin 0; Fin 1]] Hbin H0 H1)
    as (_ & (wd & Hwd & _ & _ & _ & Hmin & _) & Hrun).
  destruct (Hrun st Hst) as (rest & Hlog & Honce).
  assert (Hle : INR 1 <= INR 2) by (apply le_INR; lia).
  destruct (Hmin Hle) as (_ & Hbatch).
  assert (Hb : [Fin 0; Fin 1] <> []) by discriminate.
  specialize (Hbatch [Fin 0; Fin 1] Hb).
  exists st, rest, wd.
  split; [exact Hst |]. split; [exact Hlog |]. split; [exact Honce |].
  split; [exact Hwd |].
  rewrite Hbatch. cbn [map seqb]. real_dec. reflexivity.
Defined.

(** C4 as stated fails when the defective files are the majority.  With
    two defective training files and one clean, a clean file is weighted
    3/4 and a defective one 3/2: the weight of the clean class is not
    [total / (2 * count_0) = 3/2], and the class with fewer files, the
    clean one, has the smaller weight. *)
Lemma defective_majority_counterexample :
  exists weight_dict : dict,
    make_weight_dict [1; 1; 0]%nat = Some weight_dict /\
    get_loss_weight [Fin 0; Fin 1] weight_dict
    = Some [Fin (3 / 4); Fin (3 / 2)] /\
    3 / 4 <> INR (length [1; 1; 0]%nat)
             / (2 * INR (count_occ Nat.eq_dec [1; 1; 0]%nat 0%nat)) /\
    (count_occ Nat.eq_dec [1; 1; 0]%nat 0%nat
     < count_occ Nat.eq_dec [1; 1; 0]%nat 1%nat)%nat /\
    3 / 4 < 3 / 2.
Proof.
  assert (Hbin : Forall (fun l => l = 0 \/ l = 1)%nat [1; 1; 0]%nat).
  { repeat first [apply Forall_nil | apply Forall_cons]; auto. }
  assert (H0 : In 0%nat [1; 1; 0]%nat) by (simpl; auto).
  assert (H1 : In 1%nat [1; 1; 0]%nat) by (simpl; auto).
  destruct (binary_weight_dict [1; 1; 0]%nat Hbin H0 H1) as (_ & Hwd).
  cbv zeta in Hwd.
  change (length [1; 1; 0]%nat) with 3%nat in Hwd.
  change (count_occ Nat.eq_dec [1; 1; 0]%nat 0%nat) with 1%nat in Hwd.
  change (count_occ Nat.eq_dec [1; 1; 0]%nat 1%nat) with 2%nat in Hwd.
  eexists. split; [exact Hwd |]. split.
  - assert (Ha : INR 3 / (2 * INR 1) = 3 / 2) by (simpl; lra).
    assert (Hb : INR 3 / (2 * INR 2) = 3 / 4) by (simpl; lra).
    rewrite (get_loss_weight_map
               [("clean"%string, Rmin (INR 3 / (2 * INR 1)) (INR 3 / (2 * INR 2)));
                ("defect"%string, Rmax (INR 3 / (2 * INR 1)) (INR 3 / (2 * INR 2)))]
               (Rmin (INR 3 / (2 * INR 1)) (INR 3 / (2 * INR 2)))
               (Rmax (INR 3 / (2 * INR 1)) (INR 3 / (2 * INR 2)))
               eq_refl eq_refl).
    cbn [map seqb]. real_dec.
    rewrite Rmin_right, Rmax_left by (rewrite Ha, Hb; lra).
    rewrite Ha, Hb. reflexivity.
  - split; [simpl; lra |]. split; [simpl; lia | lra].
Qed.

(** ** The stable sort, on finite values *)

Lemma comes_before_b_spec (p q : R * nat) :
  comes_before_b p q = true <-> comes_before p q.
Proof.
  unfold comes_before_b, comes_before, Rltb, Reqb.
  destruct (Rlt_dec (fst q) (fst p)) as [Hlt | Hnlt]; simpl.
  - split; auto.
  - destruct (Req_dec_T (fst p) (fst q)) as [Heq | Hne]; simpl.
    + rewrite Nat.ltb_lt. split; [auto | intros [H | [_ H]]; [contradiction | exact H]].
    + split; [discriminate | intros [H | [H _]]; contradiction].
Qed.

Lemma sort_by_map {A B : Type} (f : A -> B) (before : A -> A -> bool)
      (before' : B -> B -> bool) :
  (forall a b, before' (f a) (f b) = before a b) ->
  forall l, sort_by before' (map f l) = map f (sort_by before l).
Proof.
  intros Hf. induction l as [| x l IH]; [reflexivity |].
  simpl. rewrite IH. clear IH.
  induction (sort_by before l) as [| y s IHs]; [reflexivity |].
  simpl. rewrite Hf. destruct (before y x); simpl; [f_equal; exact IHs | reflexivity].
Qed.

Lemma enumerate_map_Fin (v : list R) :
  enumerate (map Fin v) = map inject (enumerate v).
Proof.
  unfold enumerate. rewrite length_map.
  generalize 0%nat. induction v as [| x v IH]; intros a; [reflexivity |].
  simpl. f_equal. apply IH.
Qed.

Lemma sort_desc_finite (v : list R) :
  sort_desc (map Fin v)
  = (map Fin (map fst (sort_by desc_before (enumerate v))),
     map snd (sort_by desc_before (enumerate v))).
Proof.
  unfold sort_desc. rewrite enumerate_map_Fin.
  rewrite (sort_by_map inject desc_before) by reflexivity.
  rewrite !map_map. reflexivity.
Qed.

Lemma insert_by_sorted (x : R * nat) (l : list (R * nat)) :
  StronglySorted comes_before l ->
  Forall (fun q => (snd x < snd q)%nat) l ->
  StronglySorted comes_before (insert_by desc_before x l).
Proof.
  induction 1 as [| y l Hs IH Hy]; intros Hidx; simpl.
  - repeat constructor.
  - inversion Hidx as [| ? ? Hxy Hxl]; subst.
    unfold desc_before at 1. unfold Rltb.
    destruct (Rlt_dec (fst x) (fst y)) as [Hlt | Hnlt].
    + constructor; [apply IH; exact Hxl |].
      apply Forall_forall. intros z Hz.
      apply (Permutation_in _ (insert_by_perm desc_before x l)) in Hz.
      destruct Hz as [<- | Hz]; [left; exact Hlt |].
      rewrite Forall_forall in Hy. apply Hy. exact Hz.
    + constructor; [constructor; assumption |].
      constructor.
      * destruct (Rtotal_order (fst x) (fst y)) as [H | [H | H]];
          [contradiction | right; auto | left; exact H].
      * rewrite Forall_forall in Hy, Hxl. apply Forall_forall. intros z Hz.
        specialize (Hy z Hz). specialize (Hxl z Hz).
        unfold comes_before in *.
        destruct (Rtotal_order (fst z) (fst x)) as [H | [H | H]];
          [left; exact H | right; auto |].
        exfalso. destruct Hy as [Hy | [Hy _]]; lra.
Qed.

Lemma sort_enumerate_sorted (v : list R) :
  forall a : nat,
    StronglySorted comes_before (sort_by desc_before (combine v (seq a (length v)))).
Proof.
  induction v as [| x v IH]; intros a; simpl; [constructor |].
  apply insert_by_sorted; [apply IH |].
  apply Forall_forall. intros q Hq. simpl.
  apply (Permutation_in _ (sort_by_perm desc_before _)) in Hq.
  destruct q as [w j]. apply in_combine_r in Hq. apply in_seq in Hq. simpl. lia.
Qed.

(** In a list sorted by a strict order, the entries that come before the
    entry at position [s] are the [s] entries to its left. *)
Lemma sorted_position_count (L : list (R * nat)) :
  StronglySorted comes_before L ->
  forall (s : nat) (d : R * nat),
    (s < length L)%nat ->
    length (filter (fun q => comes_before_b q (nth s L d)) L) = s.
Proof.
  induction 1 as [| a L Hs IH Ha]; intros s d Hlt; [simpl in Hlt; lia |].
  assert (Hirr : comes_before_b a a = false).
  { destruct (comes_before_b a a) eqn:E; [| reflexivity].
    apply comes_before_b_spec in E. destruct E as [E | [_ E]]; [lra | lia]. }
  destruct s as [| s]; simpl.
  - rewrite Hirr.
    assert (Hnone : forall q, In q L -> comes_before_b q a = false).
    { intros q Hq. rewrite Forall_forall in Ha. specialize (Ha q Hq).
      destruct (comes_before_b q a) eqn:E; [| reflexivity].
      apply comes_before_b_spec in E. unfold comes_before in *.
      destruct Ha as [Ha | [Ha1 Ha2]], E as [E | [E1 E2]]; try lra; lia. }
    clear -Hnone. induction L as [| q L IHL]; [reflexivity |].
    simpl. rewrite (Hnone q) by (left; reflexivity).
    apply IHL. intros q' Hq'. apply Hnone. right. exact Hq'.
  - simpl in Hlt.
    assert (Hin : In (nth s L d) L) by (apply nth_In; lia).
    rewrite Forall_forall in Ha.
    assert (Hb : comes_before_b a (nth s L d) = true).
    { apply comes_before_b_spec. apply Ha. exact Hin. }
    rewrite Hb. simpl. f_equal. apply IH. lia.
Qed.

(** ** [argsort] of a permutation is its inverse *)

Lemma insert_by_fst_sorted (x : nat * nat) (l : list (nat * nat)) :
  StronglySorted (fun p q => (fst p <= fst q)%nat) l ->
  StronglySorted (fun p q => (fst p <= fst q)%nat)
                 (insert_by (fun p q => Nat.ltb (fst p) (fst q)) x l).
Proof.
  induction 1 as [| y l Hs IH Hy]; simpl.
  - repeat constructor.
  - destruct (Nat.ltb (fst y) (fst x)) eqn:E.
    + apply Nat.ltb_lt in E. constructor; [exact IH |].
      apply Forall_forall. intros z Hz.
      apply (Permutation_in _ (insert_by_perm _ x l)) in Hz.
      destruct Hz as [<- | Hz]; [lia |].
      rewrite Forall_forall in Hy. apply Hy. exact Hz.
    + apply Nat.ltb_ge in E. constructor; [constructor; assumption |].
      constructor; [exact E |].
      eapply Forall_impl; [| exact Hy]. intros z Hz. simpl in Hz. lia.
Qed.

Lemma sort_by_fst_sorted (l : list (nat * nat)) :
  StronglySorted (fun p q => (fst p <= fst q)%nat)
                 (sort_by (fun p q => Nat.ltb (fst p) (fst q)) l).
Proof.
  induction l as [| x l IH]; simpl; [constructor |].
  apply insert_by_fst_sorted. exact IH.
Qed.

Lemma sorted_perm_seq (n : nat) :
  forall (a : nat) (l : list nat),
    StronglySorted le l -> Permutation l (seq a n) -> l = seq a n.
Proof.
  induction n as [| n IH]; intros a l Hs Hp; simpl in *.
  - apply Permutation_sym, Permutation_nil in Hp. exact Hp.
  - destruct l as [| h t].
    { apply Permutation_nil in Hp. discriminate. }
    inversion Hs as [| ? ? Hst Hh]; subst.
    assert (Hha : h = a).
    { assert (H1 : In h (a :: seq (S a) n))
        by (eapply Permutation_in; [exact Hp | left; reflexivity]).
      assert (H2 : In a (h :: t))
        by (eapply Permutation_in; [apply Permutation_sym; exact Hp | left; reflexivity]).
      assert (Hge : (a <= h)%nat).
      { destruct H1 as [<- | H1]; [lia | apply in_seq in H1; lia]. }
      destruct H2 as [H2 | H2]; [exact H2 |].
      rewrite Forall_forall in Hh. specialize (Hh a H2). lia. }
    subst h. f_equal. apply IH; [exact Hst |].
    eapply Permutation_cons_inv. exact Hp.
Qed.

Lemma in_enumerate {A : Type} (l : list A) (d : A) :
  forall (a : nat) (x : A) (s : nat),
    In (x, s) (combine l (seq a (length l))) ->
    (a <= s < a + length l)%nat /\ nth (s - a) l d = x.
Proof.
  induction l as [| y l IH]; intros a x s H; simpl in H; [contradiction |].
  destruct H as [H | H].
  - injection H as -> ->. simpl. rewrite Nat.sub_diag. split; [lia | reflexivity].
  - apply IH in H. destruct H as (Hr & Hn). simpl. split; [lia |].
    replace (s - a)%nat with (S (s - S a)) by lia. exact Hn.
Qed.

Lemma nth_map_in_range {A B : Type} (f : A -> B) (l : list A) (i : nat)
      (dA : A) (dB : B) :
  (i < length l)%nat -> nth i (map f l) dB = f (nth i l dA).
Proof.
  intros H. rewrite (nth_indep _ dB (f dA)) by (rewrite length_map; exact H).
  apply map_nth.
Qed.

Lemma argsort_length (sigma : list nat) : length (argsort sigma) = length sigma.
Proof.
  unfold argsort, enumerate.
  rewrite length_map, sort_by_length, length_combine, length_seq.
  apply Nat.min_id.
Qed.

Lemma argsort_inverse (sigma : list nat) :
  Permutation sigma (seq 0 (length sigma)) ->
  forall i : nat,
    (i < length sigma)%nat ->
    (nth i (argsort sigma) 0 < length sigma)%nat /\
    nth (nth i (argsort sigma) 0%nat) sigma 0%nat = i.
Proof.
  intros Hp i Hi.
  set (L := sort_by (fun p q : nat * nat => Nat.ltb (fst p) (fst q)) (enumerate sigma)).
  assert (HL : Permutation L (enumerate sigma)) by apply sort_by_perm.
  assert (Hfst : map fst L = seq 0 (length sigma)).
  { apply sorted_perm_seq.
    - assert (Hs := sort_by_fst_sorted (enumerate sigma)). fold L in Hs.
      clear -Hs. induction Hs as [| p l Hs IH Hp]; simpl; constructor; [exact IH |].
      rewrite Forall_forall in *. intros x Hx. apply in_map_iff in Hx.
      destruct Hx as (q & <- & Hq). apply Hp. exact Hq.
    - eapply Permutation_trans; [apply Permutation_map; exact HL |].
      unfold enumerate. rewrite map_fst_combine_seq. exact Hp. }
  assert (Hlen : length L = length sigma).
  { rewrite <- (length_map fst L), Hfst. apply length_seq. }
  assert (Hnth : nth i L (0%nat, 0%nat) = (i, nth i (argsort sigma) 0%nat)).
  { unfold argsort. fold L.
    rewrite (nth_map_in_range snd L i (0%nat, 0%nat)) by lia.
    destruct (nth i L (0%nat, 0%nat)) as [x s] eqn:E. simpl. f_equal.
    assert (Hx : nth i (map fst L) 0%nat = x).
    { rewrite (nth_map_in_range fst L i (0%nat, 0%nat)) by lia.
      rewrite E. reflexivity. }
    rewrite Hfst, seq_nth in Hx by exact Hi. simpl in Hx. congruence. }
  assert (Hin : In (i, nth i (argsort sigma) 0%nat) (enumerate sigma)).
  { eapply Permutation_in; [exact HL |]. rewrite <- Hnth. apply nth_In. lia. }
  unfold enumerate in Hin. apply (in_enumerate sigma 0%nat) in Hin.
  destruct Hin as (Hr & Hn). rewrite Nat.sub_0_r in Hn. split; [lia | exact Hn].
Qed.

(** ** Ranks, by counting *)

Lemma Permutation_filter_length {A : Type} (f : A -> bool) (l l' : list A) :
  Permutation l l' -> length (filter f l) = length (filter f l').
Proof.
  induction 1 as [| x l l' _ IH | x y l | l l' l'' _ IH1 _ IH2]; simpl.
  - reflexivity.
  - destruct (f x); simpl; congruence.
  - destruct (f x), (f y); reflexivity.
  - congruence.
Qed.

(** The ranks that [jsd] computes by sorting twice are the ranks obtained
    by counting, for each position, the positions that come before it. *)
Lemma double_argsort_rank (v : list R) (i : nat) :
  (i < length v)%nat ->
  nth i (map S (argsort (argsort_desc (map Fin v)))) 0%nat = rank_of v i.
Proof.
  intros Hi. unfold argsort_desc. rewrite sort_desc_finite. simpl snd.
  set (L := sort_by desc_before (enumerate v)).
  set (sigma := map snd L).
  assert (HL : Permutation L (enumerate v)) by apply sort_by_perm.
  assert (Hlen : length L = length v).
  { unfold L. rewrite sort_by_length. unfold enumerate.
    rewrite length_combine, length_seq. apply Nat.min_id. }
  assert (Hslen : length sigma = length v).
  { unfold sigma. rewrite length_map. exact Hlen. }
  assert (Hp : Permutation sigma (seq 0 (length sigma))).
  { rewrite Hslen. unfold sigma.
    rewrite <- (map_snd_combine_seq v 0). apply Permutation_map. exact HL. }
  destruct (argsort_inverse sigma Hp i) as (Hs & Hinv); [lia |].
  set (s := nth i (argsort sigma) 0%nat) in *.
  rewrite (nth_map_in_range S (argsort sigma) i 0%nat)
    by (rewrite argsort_length; lia).
  fold s.
  unfold rank_of. f_equal.
  assert (Hel : nth s L (0, 0%nat) = (nth i v 0, i)).
  { assert (Hin : In (nth s L (0, 0%nat)) (enumerate v)).
    { eapply Permutation_in; [exact HL |]. apply nth_In. lia. }
    destruct (nth s L (0, 0%nat)) as [w j] eqn:E.
    assert (Hj : j = i).
    { rewrite <- Hinv. unfold sigma.
      rewrite (nth_map_in_range snd L s (0, 0%nat)) by lia.
      rewrite E. reflexivity. }
    subst j. unfold enumerate in Hin. apply (in_enumerate v 0) in Hin.
    destruct Hin as (_ & Hn). rewrite Nat.sub_0_r in Hn. congruence. }
  rewrite <- Hel.
  rewrite <- (Permutation_filter_length _ _ _ HL).
  symmetry. apply sorted_position_count; [| lia].
  apply sort_enumerate_sorted.
Qed.

(** ** The divergence on finite inputs *)

Lemma tabulate {A : Type} (l : list A) (d : A) :
  l = map (fun i => nth i l d) (seq 0 (length l)).
Proof.
  apply (nth_ext _ _ d d).
  - rewrite length_map, length_seq. reflexivity.
  - intros i Hi.
    rewrite (nth_map_in_range (fun i => nth i l d) (seq 0 (length l)) i 0%nat)
      by (rewrite length_seq; exact Hi).
    rewrite seq_nth by exact Hi. reflexivity.
Qed.

Lemma tsum_fin (l : list R) : tsum (map Fin l) = Fin (Rsum l).
Proof.
  unfold tsum, Rsum. induction l as [| x l IH]; simpl; [reflexivity |].
  rewrite IH. reflexivity.
Qed.

Lemma Rsum_exp_pos (x : R) (xs : list R) : 0 < Rsum (map exp (x :: xs)).
Proof.
  simpl. assert (H : 0 <= Rsum (map exp xs)).
  { induction xs as [| y ys IH]; simpl; [lra |].
    pose proof (exp_pos y). lra. }
  pose proof (exp_pos x). lra.
Qed.

Lemma softmax_at_pos (xs : list R) (i : nat) : xs <> [] -> 0 < softmax_at xs i.
Proof.
  destruct xs as [| x xs]; [congruence | intros _].
  unfold softmax_at. apply Rdiv_lt_0_compat; [apply exp_pos | apply Rsum_exp_pos].
Qed.

Lemma softmax_finite (xs : list R) :
  softmax (map Fin xs) = map Fin (map (softmax_at xs) (seq 0 (length xs))).
Proof.
  unfold softmax. rewrite !map_map. simpl.
  rewrite <- (map_map exp Fin), tsum_fin.
  destruct xs as [| x xs]; [reflexivity |].
  pose proof (Rsum_exp_pos x xs) as Hz.
  rewrite (tabulate (x :: xs) 0) at 1. rewrite map_map.
  apply map_ext. intros i. unfold softmax_at.
  apply sdiv_fin. lra.
Qed.

Lemma log2_ge_1 (x : R) : 2 <= x -> 1 <= log2 x.
Proof.
  intros H. unfold log2.
  assert (H2 : 0 < ln 2) by (rewrite <- ln_1; apply ln_increasing; lra).
  apply Rmult_le_reg_r with (ln 2); [exact H2 |].
  unfold Rdiv. rewrite Rmult_assoc, Rinv_l by lra. rewrite Rmult_1_l, Rmult_1_r.
  destruct H as [H | <-]; [left; apply ln_increasing; lra | right; reflexivity].
Qed.

Lemma discount_at_bounds (gt : list R) (i : nat) : 0 < discount_at gt i <= 1.
Proof.
  unfold discount_at, rank_of. rewrite S_INR.
  set (c := INR _). assert (Hc : 0 <= c) by apply pos_INR.
  assert (H := log2_ge_1 (c + 1 + 1)). specialize (H ltac:(lra)).
  split.
  - apply Rdiv_lt_0_compat; lra.
  - apply Rmult_le_reg_r with (log2 (c + 1 + 1)); [lra |].
    unfold Rdiv. rewrite Rmult_assoc, Rinv_l by lra. lra.
Qed.

Lemma jsd_discounts_finite (gs : list R) :
  jsd_discounts (map Fin gs)
  = map Fin (map (discount_at gs) (seq 0 (length gs))).
Proof.
  unfold jsd_discounts.
  assert (Hr : map S (argsort (argsort_desc (map Fin gs)))
               = map (rank_of gs) (seq 0 (length gs))).
  { apply (nth_ext _ _ 0%nat 0%nat).
    - rewrite !length_map, argsort_length, length_seq.
      unfold argsort_desc. rewrite (proj2 (sort_desc_lengths _)).
      apply length_map.
    - intros i Hi.
      rewrite length_map, argsort_length in Hi. unfold argsort_desc in Hi.
      rewrite (proj2 (sort_desc_lengths _)), length_map in Hi.
      rewrite (double_argsort_rank gs i Hi).
      rewrite (nth_map_in_range (rank_of gs) (seq 0 (length gs)) i 0%nat)
        by (rewrite length_seq; exact Hi).
      rewrite seq_nth by exact Hi. reflexivity. }
  rewrite Hr, !map_map. apply map_ext. intros i.
  pose proof (discount_at_bounds gs i) as Hd.
  unfold discount_at in *. unfold rank_of in *.
  change (sadd (Fin ?a) (Fin 1)) with (Fin (a + 1)).
  set (r := INR (S _)) in *.
  assert (Hpos : 0 < r) by (unfold r; apply lt_0_INR; lia).
  rewrite slog2_fin by lra.
  apply sdiv_fin. intros Hzero. rewrite Hzero in Hd.
  unfold Rdiv in Hd. rewrite Rinv_0 in Hd. lra.
Qed.

Lemma jsd_m_finite (p q : nat -> R) (epsilon : R) (idx : list nat) :
  jsd_m (map Fin (map p idx)) (map Fin (map q idx)) epsilon
  = map Fin (map (fun i => mid_code epsilon (p i) (q i)) idx).
Proof.
  unfold jsd_m, map2. induction idx as [| i idx IH]; [reflexivity |].
  simpl. rewrite IH. reflexivity.
Qed.

Lemma smul_fin (x y : R) : smul (Fin x) (Fin y) = Fin (x * y).
Proof. reflexivity. Qed.

Lemma sadd_fin (x y : R) : sadd (Fin x) (Fin y) = Fin (x + y).
Proof. reflexivity. Qed.

Lemma kld_finite (p m d : nat -> R) (idx : list nat) :
  (forall i, In i idx -> 0 < p i /\ 0 < m i) ->
  kld (map Fin (map p idx)) (map Fin (map m idx)) (map Fin (map d idx))
  = Fin (Rsum (map (fun i => p i * log2 (p i / m i) * d i) idx)).
Proof.
  unfold kld, map2. induction idx as [| i idx IH]; intros H; [reflexivity |].
  cbn [map combine fst snd].
  destruct (H i (or_introl eq_refl)) as (Hp & Hm).
  rewrite sdiv_fin by lra.
  rewrite slog2_fin by (apply Rdiv_lt_0_compat; assumption).
  rewrite !smul_fin.
  unfold tsum in *. cbn [fold_right].
  rewrite IH by (intros j Hj; apply H; right; exact Hj).
  reflexivity.
Qed.

(** On finite inputs of one length [jsd] is finite, and it is the
    divergence of the specification with the midpoint of line 88. *)
Lemma jsd_finite (pred gt : list R) (epsilon : R) :
  length pred = length gt -> 0 <= epsilon ->
  jsd (map Fin pred) (map Fin gt) epsilon
  = Fin (line_rank_divergence (mid_code epsilon) pred gt).
Proof.
  intros Hlen Heps. unfold jsd.
  rewrite !softmax_finite, jsd_discounts_finite, <- Hlen.
  rewrite jsd_m_finite.
  assert (Hpos : forall i, In i (seq 0 (length pred)) ->
                           0 < softmax_at pred i /\ 0 < softmax_at gt i).
  { intros i Hi. apply in_seq in Hi.
    assert (Hp : pred <> []) by (destruct pred; [simpl in Hi; lia | discriminate]).
    assert (Hg : gt <> []) by (destruct gt; [simpl in Hlen; rewrite Hlen in Hi; simpl in Hi; lia | discriminate]).
    split; apply softmax_at_pos; assumption. }
  rewrite !kld_finite.
  - rewrite sadd_fin, smul_fin. reflexivity.
  - intros i Hi. destruct (Hpos i Hi) as (Hp & Hq).
    split; [exact Hq | unfold mid_code; lra].
  - intros i Hi. destruct (Hpos i Hi) as (Hp & Hq).
    split; [exact Hp | unfold mid_code; lra].
Qed.

(** ** Sums and logarithms *)

Lemma Rsum_le (f g : nat -> R) (idx : list nat) :
  (forall i, In i idx -> f i <= g i) ->
  Rsum (map f idx) <= Rsum (map g idx).
Proof.
  induction idx as [| i idx IH]; intros H; simpl; [lra |].
  pose proof (H i (or_introl eq_refl)).
  assert (Rsum (map f idx) <= Rsum (map g idx))
    by (apply IH; intros j Hj; apply H; right; exact Hj).
  lra.
Qed.

Lemma Rsum_lt (f g : nat -> R) (idx : list nat) :
  idx <> [] ->
  (forall i, In i idx -> f i < g i) ->
  Rsum (map f idx) < Rsum (map g idx).
Proof.
  intros Hne H. destruct idx as [| i idx]; [congruence |]. simpl.
  pose proof (H i (or_introl eq_refl)).
  assert (Rsum (map f idx) <= Rsum (map g idx)).
  { apply Rsum_le. intros j Hj. left. apply H. right. exact Hj. }
  lra.
Qed.

Lemma Rsum_plus (f g : nat -> R) (idx : list nat) :
  Rsum (map f idx) + Rsum (map g idx) = Rsum (map (fun i => f i + g i) idx).
Proof. induction idx as [| i idx IH]; simpl; [lra | rewrite <- IH; lra]. Qed.

Lemma Rsum_scal (c : R) (f : nat -> R) (idx : list nat) :
  c * Rsum (map f idx) = Rsum (map (fun i => c * f i) idx).
Proof. induction idx as [| i idx IH]; simpl; [lra | rewrite <- IH; lra]. Qed.

Lemma Rsum_zero (f : nat -> R) (idx : list nat) :
  (forall i, In i idx -> f i = 0) -> Rsum (map f idx) = 0.
Proof.
  induction idx as [| i idx IH]; intros H; simpl; [reflexivity |].
  rewrite (H i (or_introl eq_refl)), IH by (intros j Hj; apply H; right; exact Hj).
  lra.
Qed.

Lemma ln_2_pos : 0 < ln 2.
Proof. rewrite <- ln_1. apply ln_increasing; lra. Qed.

Lemma ln_le_minus_1 (x : R) : 0 < x -> ln x <= x - 1.
Proof.
  intros Hx. pose proof (exp_ineq1_le (ln x)) as H.
  rewrite exp_ln in H by exact Hx. lra.
Qed.

Lemma log2_1 : log2 1 = 0.
Proof. unfold log2. rewrite ln_1. unfold Rdiv. apply Rmult_0_l. Qed.

Lemma log2_increasing (x y : R) : 0 < x -> x < y -> log2 x < log2 y.
Proof.
  intros Hx Hxy. unfold log2, Rdiv.
  apply Rmult_lt_compat_r; [apply Rinv_0_lt_compat, ln_2_pos |].
  apply ln_increasing; assumption.
Qed.

(** The heart of the lower bound: with [m] the midpoint of [p] and [q]
    raised by [epsilon / 2], the two logarithmic terms lose at most
    [epsilon / ln 2]. *)
Lemma midpoint_terms_bound (p q epsilon : R) :
  0 < p -> 0 < q -> 0 <= epsilon ->
  - (epsilon / ln 2)
  <= p * log2 (p / mid_code epsilon p q) + q * log2 (q / mid_code epsilon p q).
Proof.
  intros Hp Hq He. unfold mid_code. set (m := 1 / 2 * (p + q + epsilon)).
  assert (Hm : 0 < m) by (unfold m; lra).
  assert (Hterm : forall a, 0 < a -> a - m <= a * ln (a / m)).
  { intros a Ha.
    assert (Hq' : 0 < m / a) by (apply Rdiv_lt_0_compat; assumption).
    pose proof (ln_le_minus_1 (m / a) Hq') as Hl.
    replace (a / m) with (/ (m / a)) by (field; split; lra).
    rewrite ln_Rinv by exact Hq'.
    assert (Hmul : a * ln (m / a) <= a * (m / a - 1))
      by (apply Rmult_le_compat_l; lra).
    replace (a * (m / a - 1)) with (m - a) in Hmul by (field; lra).
    lra. }
  pose proof (Hterm p Hp) as H1. pose proof (Hterm q Hq) as H2.
  pose proof ln_2_pos as H2pos.
  unfold log2.
  replace (p * (ln (p / m) / ln 2) + q * (ln (q / m) / ln 2))
    with ((p * ln (p / m) + q * ln (q / m)) / ln 2) by (field; lra).
  replace (- (epsilon / ln 2)) with ((- epsilon) / ln 2) by (field; lra).
  unfold Rdiv. apply Rmult_le_compat_r; [left; apply Rinv_0_lt_compat; exact H2pos |].
  unfold m in H1, H2. fold m in H1, H2. unfold m in *. lra.
Qed.

(** ** The midpoint of line 88 is not the one of the specification (C2) *)

Lemma claimed_below_code (pred gt : list R) (epsilon : R) :
  pred <> [] -> length pred = length gt -> 0 < epsilon ->
  line_rank_divergence (mid_claimed epsilon) pred gt
  < line_rank_divergence (mid_code epsilon) pred gt.
Proof.
  intros Hne Hlen He. unfold line_rank_divergence, KL, sum_over.
  assert (Hg : gt <> []) by (destruct gt; [destruct pred; [congruence | discriminate] | discriminate]).
  assert (Hidx : seq 0 (length pred) <> []) by (destruct pred; [congruence | discriminate]).
  assert (Hstep : forall a b, 0 < a -> 0 < b ->
            forall d, 0 < d ->
            a * log2 (a / mid_claimed epsilon a b) * d
            < a * log2 (a / mid_code epsilon a b) * d /\
            b * log2 (b / mid_claimed epsilon a b) * d
            < b * log2 (b / mid_code epsilon a b) * d).
  { intros a b Ha Hb d Hd. unfold mid_claimed, mid_code.
    assert (Hmc : 0 < 1 / 2 * (a + b + epsilon)) by lra.
    assert (Hml : 1 / 2 * (a + b + epsilon) < 1 / 2 * (a + b) + epsilon) by lra.
    assert (Hinv : / (1 / 2 * (a + b) + epsilon) < / (1 / 2 * (a + b + epsilon))).
    { apply Rinv_lt_contravar; [| exact Hml]. apply Rmult_lt_0_compat; lra. }
    assert (Hpos : 0 < / (1 / 2 * (a + b) + epsilon)) by (apply Rinv_0_lt_compat; lra).
    split; apply Rmult_lt_compat_r; try exact Hd;
      apply Rmult_lt_compat_l; try assumption;
      apply log2_increasing; unfold Rdiv;
      try (apply Rmult_lt_0_compat; assumption);
      apply Rmult_lt_compat_l; assumption. }
  assert (H1 : forall i, In i (seq 0 (length pred)) ->
                 0 < softmax_at pred i /\ 0 < softmax_at gt i /\ 0 < discount_at gt i).
  { intros i _. repeat split; try (apply softmax_at_pos; assumption).
    apply discount_at_bounds. }
  assert (HP : Rsum (map (fun i => softmax_at pred i
                  * log2 (softmax_at pred i
                          / mid_claimed epsilon (softmax_at pred i) (softmax_at gt i))
                  * discount_at gt i) (seq 0 (length pred)))
               < Rsum (map (fun i => softmax_at pred i
                  * log2 (softmax_at pred i
                          / mid_code epsilon (softmax_at pred i) (softmax_at gt i))
                  * discount_at gt i) (seq 0 (length pred)))).
  { apply Rsum_lt; [exact Hidx |]. intros i Hi.
    destruct (H1 i Hi) as (Hp & Hq & Hd). apply (Hstep _ _ Hp Hq _ Hd). }
  assert (HQ : Rsum (map (fun i => softmax_at gt i
                  * log2 (softmax_at gt i
                          / mid_claimed epsilon (softmax_at pred i) (softmax_at gt i))
                  * discount_at gt i) (seq 0 (length pred)))
               < Rsum (map (fun i => softmax_at gt i
                  * log2 (softmax_at gt i
                          / mid_code epsilon (softmax_at pred i) (softmax_at gt i))
                  * discount_at gt i) (seq 0 (length pred)))).
  { apply Rsum_lt; [exact Hidx |]. intros i Hi.
    destruct (H1 i Hi) as (Hp & Hq & Hd). apply (Hstep _ _ Hp Hq _ Hd). }
  cbv zeta. lra.
Qed.

Lemma index_select_finite (line_label : list R) (idx : list nat) :
  Forall (fun i => (i < length line_label)%nat) idx ->
  index_select (map Fin line_label) idx
  = Some (map Fin (map (fun i => nth i line_label 0) idx)).
Proof.
  induction 1 as [| i idx Hi _ IH]; [reflexivity |].
  simpl. rewrite IH.
  rewrite (nth_error_nth' (map Fin line_label) (Fin 0))
    by (rewrite length_map; exact Hi).
  rewrite (nth_map_in_range Fin line_label i 0 (Fin 0) Hi). reflexivity.
Qed.

Lemma Fin_injective (l l' : list R) : map Fin l = map Fin l' -> l = l'.
Proof.
  revert l'. induction l as [| x l IH]; intros [| y l'] H;
    try discriminate; [reflexivity |].
  simpl in H. injection H as -> H. f_equal. apply IH. exact H.
Qed.

Lemma epsilon_default_pos : 0 < epsilon_default.
Proof. unfold epsilon_default. lra. Qed.

(** The line loss of an example with finite scores and labels, with the
    selected scores and labels written out. *)
Lemma example_line_loss_finite (att line_label : list R) :
  let k := top_k (length line_label) in
  let L := sort_by desc_before (enumerate (firstn (length line_label) att)) in
  let pred := firstn k (map fst L) in
  let gt := map (fun i => nth i line_label 0) (firstn k (map snd L)) in
  sort_desc (firstn (length line_label) (map Fin att))
  = (map Fin (map fst L), map snd L) /\
  index_select (map Fin line_label) (firstn k (map snd L)) = Some (map Fin gt) /\
  length pred = length gt /\
  length pred = Nat.min k (Nat.min (length line_label) (length att)) /\
  example_line_loss (map Fin att) (map Fin line_label)
  = Some (Fin (line_rank_divergence (mid_code epsilon_default) pred gt)).
Proof.
  intros k L pred gt.
  set (att' := firstn (length line_label) att) in *.
  assert (Hsorted : sort_desc (firstn (length line_label) (map Fin att))
                    = (map Fin (map fst L), map snd L)).
  { rewrite firstn_map. apply sort_desc_finite. }
  assert (Hb : Forall (fun i => (i < length line_label)%nat) (firstn k (map snd L))).
  { apply Forall_firstn.
    pose proof (sort_desc_indices_bound (map Fin att')) as H.
    rewrite sort_desc_finite in H. simpl in H.
    eapply Forall_impl; [| exact H]. intros i Hi. simpl in Hi.
    rewrite length_map in Hi. unfold att' in Hi. rewrite length_firstn in Hi. lia. }
  assert (Hlen : length pred = length gt).
  { unfold pred, gt. rewrite length_map, !length_firstn, !length_map. reflexivity. }
  split; [exact Hsorted |].
  split; [apply index_select_finite; exact Hb |].
  split; [exact Hlen |].
  split.
  { unfold pred, L. rewrite length_firstn, length_map, sort_by_length.
    unfold enumerate. rewrite length_combine, length_seq, Nat.min_id.
    unfold att'. rewrite length_firstn. reflexivity. }
  unfold example_line_loss. rewrite length_map. fold k.
  rewrite Hsorted. cbv beta iota zeta.
  rewrite (index_select_finite _ _ Hb), (firstn_map Fin).
  fold pred. fold gt.
  rewrite (jsd_finite _ _ _ Hlen) by (left; exact epsilon_default_pos).
  reflexivity.
Qed.

(** C2, amended.  For every example with finite attention scores and
    labels, the line loss is [0.5 * (KL(P, M) + KL(Q, M))], where [P] is the
    softmax of the [k] largest attention scores, [Q] the softmax of the
    labels of the same lines in the same order, each KL term sums
    [p_i * log2(p_i / m_i) * discount_i] over the [k] positions,
    [discount_i = 1 / log2(rank_i + 1)] with [rank_i] the rank of position
    [i] among the selected labels, and [M = 0.5 * (P + Q + epsilon)]. *)
Theorem line_loss_is_discounted_divergence (att line_label : list R) :
  let k := top_k (length line_label) in
  let sorted := sort_desc (firstn (length line_label) (map Fin att)) in
  exists pred gt : list R,
    firstn k (fst sorted) = map Fin pred /\
    index_select (map Fin line_label) (firstn k (snd sorted)) = Some (map Fin gt) /\
    length pred = length gt /\
    example_line_loss (map Fin att) (map Fin line_label)
    = Some (Fin (line_rank_divergence (mid_code epsilon_default) pred gt)).
Proof.
  intros k sorted.
  destruct (example_line_loss_finite att line_label) as (Hs & Hi & Hlen & _ & Hloss).
  unfold sorted. rewrite Hs. simpl fst. simpl snd.
  do 2 eexists. split; [apply firstn_map |].
  split; [exact Hi |]. split; [exact Hlen | exact Hloss].
Qed.

(** C2 as stated fails on the sample file: its line loss is not the value
    of the formula with [M = 0.5 * (P + Q) + epsilon]. *)
Lemma claimed_midpoint_counterexample :
  ~ (exists pred gt : list R,
        firstn (top_k (length sample_line_label))
               (fst (sort_desc (firstn (length sample_line_label)
                                       (map Fin sample_att))))
        = map Fin pred /\
        index_select (map Fin sample_line_label)
                     (firstn (top_k (length sample_line_label))
                             (snd (sort_desc (firstn (length sample_line_label)
                                                     (map Fin sample_att)))))
        = Some (map Fin gt) /\
        example_line_loss (map Fin sample_att) (map Fin sample_line_label)
        = Some (Fin (line_rank_divergence (mid_claimed epsilon_default) pred gt))).
Proof.
  intros (pred & gt & H1 & H2 & H3).
  destruct (example_line_loss_finite sample_att sample_line_label)
    as (Hs & Hi & Hlen & Hk & Hloss).
  cbv zeta in Hs, Hi, Hlen, Hk, Hloss.
  rewrite Hs in H1, H2. cbn [fst snd] in H1, H2.
  rewrite firstn_map in H1. apply Fin_injective in H1.
  rewrite Hi in H2. apply Some_eq in H2. apply Fin_injective in H2.
  rewrite H1, H2 in Hloss. rewrite H1, H2 in Hlen. rewrite H1 in Hk.
  rewrite H3 in Hloss. apply Some_eq, Fin_eq in Hloss.
  assert (Hne : pred <> []).
  { intros ->.
    unfold sample_line_label, sample_att in Hk.
    rewrite !length_map, !length_seq, top_k_div5 in Hk.
    vm_compute in Hk. discriminate. }
  pose proof (claimed_below_code pred gt epsilon_default Hne Hlen epsilon_default_pos).
  lra.
Qed.

(** ** The sign of the divergence (C3) *)

Lemma divergence_lower_bound (pred gt : list R) (epsilon : R) :
  length pred = length gt -> 0 <= epsilon ->
  - (epsilon / (2 * ln 2)) * sum_over (length pred) (discount_at gt)
  <= line_rank_divergence (mid_code epsilon) pred gt.
Proof.
  intros Hlen He. unfold line_rank_divergence, KL, sum_over.
  rewrite Rsum_plus, !Rsum_scal. apply Rsum_le. intros i Hi.
  apply in_seq in Hi.
  assert (Hp : pred <> []) by (destruct pred; [simpl in Hi; lia | discriminate]).
  assert (Hg : gt <> []) by (destruct gt; [rewrite Hlen in Hi; simpl in Hi; lia | discriminate]).
  pose proof (softmax_at_pos pred i Hp) as HP.
  pose proof (softmax_at_pos gt i Hg) as HQ.
  pose proof (discount_at_bounds gt i) as [Hd _].
  pose proof (midpoint_terms_bound _ _ _ HP HQ He) as Hb.
  pose proof ln_2_pos as H2.
  set (t := softmax_at pred i * log2 _ + softmax_at gt i * log2 _) in Hb.
  replace (1 / 2 * (softmax_at pred i * log2 (softmax_at pred i / mid_code epsilon (softmax_at pred i) (softmax_at gt i)) * discount_at gt i
                    + softmax_at gt i * log2 (softmax_at gt i / mid_code epsilon (softmax_at pred i) (softmax_at gt i)) * discount_at gt i))
    with (1 / 2 * discount_at gt i * t) by (unfold t; ring).
  replace (- (epsilon / (2 * ln 2)) * discount_at gt i)
    with (1 / 2 * discount_at gt i * (- (epsilon / ln 2))) by (field; lra).
  apply Rmult_le_compat_l; [| exact Hb].
  apply Rmult_le_pos; lra.
Qed.

Lemma divergence_equal_inputs_zero (pred : list R) :
  line_rank_divergence (mid_code 0) pred pred = 0.
Proof.
  unfold line_rank_divergence, KL, sum_over.
  rewrite Rsum_zero; [lra |]. intros i Hi. apply in_seq in Hi.
  assert (Hp : pred <> []) by (destruct pred; [simpl in Hi; lia | discriminate]).
  pose proof (softmax_at_pos pred i Hp) as HP.
  unfold mid_code.
  replace (softmax_at pred i / (1 / 2 * (softmax_at pred i + softmax_at pred i + 0)))
    with 1 by (field; lra).
  rewrite log2_1. ring.
Qed.

Lemma divergence_equal_inputs_negative (pred : list R) (epsilon : R) :
  pred <> [] -> 0 < epsilon ->
  line_rank_divergence (mid_code epsilon) pred pred < 0.
Proof.
  intros Hp He. unfold line_rank_divergence, KL, sum_over.
  set (f := fun i => softmax_at pred i
                     * log2 (softmax_at pred i
                             / mid_code epsilon (softmax_at pred i) (softmax_at pred i))
                     * discount_at pred i).
  assert (Hneg : Rsum (map f (seq 0 (length pred)))
                 < Rsum (map (fun _ => 0) (seq 0 (length pred)))).
  { apply Rsum_lt; [destruct pred; [congruence | discriminate] |].
    intros i _. unfold f.
    pose proof (softmax_at_pos pred i Hp) as HP.
    pose proof (discount_at_bounds pred i) as [Hd _].
    assert (Hl : log2 (softmax_at pred i
                       / mid_code epsilon (softmax_at pred i) (softmax_at pred i)) < 0).
    { rewrite <- log2_1. unfold mid_code. apply log2_increasing.
      - apply Rdiv_lt_0_compat; lra.
      - apply Rmult_lt_reg_r with (1 / 2 * (softmax_at pred i + softmax_at pred i + epsilon));
          [lra |].
        unfold Rdiv at 1. rewrite Rmult_assoc, Rinv_l by lra. lra. }
    assert (H1 : softmax_at pred i
                 * log2 (softmax_at pred i
                         / mid_code epsilon (softmax_at pred i) (softmax_at pred i)) < 0)
      by nra.
    nra. }
  rewrite (Rsum_zero (fun _ => 0)) in Hneg by reflexivity.
  lra.
Qed.

(** C3, amended.  In exact arithmetic and with the smoothing constant
    [epsilon = 0], for finite inputs of one length the score is finite, it
    is the discounted divergence with the midpoint [0.5 * (P + Q)], it is
    not negative, and it is 0 when [pred] equals [gt].  (With the default
    [epsilon = 1e-8] of line 85 the score of equal inputs is negative, as
    the counterexample below shows.) *)
Theorem divergence_nonnegative_without_smoothing (pred gt : list R) :
  length pred = length gt ->
  exists v : R,
    jsd (map Fin pred) (map Fin gt) 0 = Fin v /\
    v = line_rank_divergence (mid_code 0) pred gt /\
    0 <= v /\
    (pred = gt -> v = 0).
Proof.
  intros Hlen.
  exists (line_rank_divergence (mid_code 0) pred gt).
  split; [apply jsd_finite; [exact Hlen | apply Rle_refl] |].
  split; [reflexivity |].
  split.
  - pose proof (divergence_lower_bound pred gt 0 Hlen (Rle_refl 0)) as Hb.
    unfold Rdiv in Hb. rewrite Rmult_0_l, Ropp_0, Rmult_0_l in Hb. exact Hb.
  - intros <-. apply divergence_equal_inputs_zero.
Qed.

(** Two lines, with [epsilon = 0]: scores [1, 0] against labels [0, 1]
    give a score that is not negative, and scores [1, 0] against labels
    [1, 0] give the score 0. *)
Lemma divergence_nonnegative_without_smoothing_witness :
  (exists v : R,
      jsd (map Fin [1; 0]) (map Fin [0; 1]) 0 = Fin v /\ 0 <= v) /\
  jsd (map Fin [1; 0]) (map Fin [1; 0]) 0 = Fin 0.
Proof.
  split.
  - destruct (divergence_nonnegative_without_smoothing [1; 0] [0; 1] eq_refl)
      as (v & Hv & _ & Hpos & _).
    exists v. split; [exact Hv | exact Hpos].
  - destruct (divergence_nonnegative_without_smoothing [1; 0] [1; 0] eq_refl)
      as (v & Hv & _ & _ & Hz).
    rewrite Hv, (Hz eq_refl). reflexivity.
Defined.

(** C3 as stated fails where the attention matches the labels: on 20
    selected lines, all with score 1 and label 1, the score is not
    [>= 0] (and so it is not 0). *)
Lemma nonnegative_divergence_counterexample :
  ~ (exists v : R,
        jsd (map Fin (repeat 1 20)) (map Fin (repeat 1 20)) epsilon_default = Fin v /\
        0 <= v).
Proof.
  intros (v & Hv & Hpos).
  rewrite jsd_finite in Hv by (reflexivity || (left; exact epsilon_default_pos)).
  apply Fin_eq in Hv.
  assert (Hne : repeat 1 20 <> []) by discriminate.
  pose proof (divergence_equal_inputs_negative (repeat 1 20) epsilon_default
                Hne epsilon_default_pos).
  lra.
Qed.

(* ================================================================= *)
(** * Further properties of the code *)

(* ================================================================= *)
(** ** Features of a line of code *)

Lemma slice_to_nonneg {A : Type} (l : list A) (n : Z) :
  (0 <= n)%Z -> slice_to l n = firstn (Z.to_nat n) l.
Proof.
  intros H. unfold slice_to.
  destruct (Z.ltb_spec n 0); [lia | reflexivity].
Qed.

Lemma slice_to_neg {A : Type} (l : list A) (n : Z) :
  (n < 0)%Z -> slice_to l n = firstn (length l - Z.to_nat (- n)) l.
Proof.
  intros H. unfold slice_to.
  destruct (Z.ltb_spec n 0); [reflexivity | lia].
Qed.

Lemma features_fill_the_block_length (item : list string) (tokenizer : Tokenizer)
      (block_size : Z) :
  (2 <= block_size)%Z ->
  length (convert_examples_to_features item tokenizer block_size)
  = Z.to_nat block_size.
Proof.
  intros Hb.
  unfold convert_examples_to_features, convert_tokens_to_ids, list_times.
  rewrite slice_to_nonneg by lia.
  rewrite length_app, repeat_length, length_map.
  cbn [app length]. rewrite length_app, length_firstn. cbn [length]. lia.
Qed.

Lemma features_small_block_length (item : list string) (tokenizer : Tokenizer)
      (block_size : Z) :
  (block_size < 2)%Z ->
  length (convert_examples_to_features item tokenizer block_size)
  = (length (tokenize tokenizer (String.concat " " item))
     - Z.to_nat (2 - block_size) + 2)%nat.
Proof.
  intros Hb.
  unfold convert_examples_to_features, convert_tokens_to_ids, list_times.
  rewrite slice_to_neg by lia.
  replace (- (block_size - 2))%Z with (2 - block_size)%Z by lia.
  rewrite length_app, repeat_length, length_map.
  cbn [app length]. rewrite length_app, length_firstn. cbn [length]. lia.
Qed.

(** X1.  For a block size of at least 2, the features of a line are exactly
    [block_size] ids: the id of the CLS token, the ids of the first
    [block_size - 2] tokens of the line (of all of them when there are fewer),
    the id of the SEP token, and padding up to [block_size]. *)
Theorem features_fill_the_block (item : list string) (tokenizer : Tokenizer)
        (block_size : Z) :
  (2 <= block_size)%Z ->
  let tokens := tokenize tokenizer (String.concat " " item) in
  let kept := firstn (Z.to_nat (block_size - 2)) tokens in
  convert_examples_to_features item tokenizer block_size
  = convert_token_to_id tokenizer (cls_token tokenizer)
    :: map (convert_token_to_id tokenizer) kept
    ++ convert_token_to_id tokenizer (sep_token tokenizer)
    :: repeat (pad_token_id tokenizer)
              (Z.to_nat (block_size - 2) - length kept) /\
  length (convert_examples_to_features item tokenizer block_size)
  = Z.to_nat block_size /\
  length kept = Nat.min (Z.to_nat (block_size - 2)) (length tokens).
Proof.
  intros Hb tokens kept.
  assert (Hk : length kept = Nat.min (Z.to_nat (block_size - 2)) (length tokens)).
  { unfold kept. apply length_firstn. }
  assert (Heq : convert_examples_to_features item tokenizer block_size
                = convert_token_to_id tokenizer (cls_token tokenizer)
                  :: map (convert_token_to_id tokenizer) kept
                  ++ convert_token_to_id tokenizer (sep_token tokenizer)
                  :: repeat (pad_token_id tokenizer)
                            (Z.to_nat (block_size - 2) - length kept)).
  { unfold convert_examples_to_features, convert_tokens_to_ids, list_times.
    fold tokens. rewrite slice_to_nonneg by lia. fold kept.
    cbn [app map]. rewrite map_app. cbn [map].
    rewrite <- app_assoc. cbn [app]. f_equal. f_equal. f_equal. f_equal.
    cbn [length]. rewrite length_app, length_map. cbn [length]. lia. }
  split; [exact Heq |]. split; [| exact Hk].
  rewrite Heq. cbn [length]. rewrite length_app. cbn [length].
  rewrite length_map, repeat_length. lia.
Qed.

(** A line of five characters in a block of eight ids: all five are kept
    and one id of padding follows. *)
Lemma features_fill_the_block_witness :
  convert_examples_to_features ["ab"%string; "cd"%string] toy_tokenizer 8
  = [60; 97; 98; 32; 99; 100; 62; 1]%nat.
Proof.
  assert (H : (2 <= 8)%Z) by lia.
  destruct (features_fill_the_block ["ab"%string; "cd"%string] toy_tokenizer 8 H)
    as (Heq & _).
  rewrite Heq. reflexivity.
Defined.

(** X2.  For a block size below 2 the slice [[:block_size - 2]] has a
    negative bound: it drops the last [2 - block_size] tokens of the line
    instead of keeping none, nothing is padded, and the features are
    longer than [block_size]. *)
Theorem features_overflow_a_small_block (item : list string)
        (tokenizer : Tokenizer) (block_size : Z) :
  (block_size < 2)%Z ->
  let tokens := tokenize tokenizer (String.concat " " item) in
  let kept := firstn (length tokens - Z.to_nat (2 - block_size)) tokens in
  convert_examples_to_features item tokenizer block_size
  = convert_token_to_id tokenizer (cls_token tokenizer)
    :: map (convert_token_to_id tokenizer) kept
    ++ [convert_token_to_id tokenizer (sep_token tokenizer)] /\
  length (convert_examples_to_features item tokenizer block_size)
  = (length tokens - Z.to_nat (2 - block_size) + 2)%nat /\
  (block_size
   < Z.of_nat (length (convert_examples_to_features item tokenizer block_size)))%Z.
Proof.
  intros Hb tokens kept.
  assert (Hk : length kept = (length tokens - Z.to_nat (2 - block_size))%nat).
  { unfold kept. rewrite length_firstn. lia. }
  assert (Heq : convert_examples_to_features item tokenizer block_size
                = convert_token_to_id tokenizer (cls_token tokenizer)
                  :: map (convert_token_to_id tokenizer) kept
                  ++ [convert_token_to_id tokenizer (sep_token tokenizer)]).
  { unfold convert_examples_to_features, convert_tokens_to_ids, list_times.
    fold tokens. rewrite slice_to_neg by lia.
    replace (- (block_size - 2))%Z with (2 - block_size)%Z by lia. fold kept.
    cbn [app map]. rewrite map_app. cbn [map length].
    rewrite length_app, length_map. cbn [length].
    replace (Z.to_nat (block_size - Z.of_nat (S (length kept + 1)))) with 0%nat
      by lia.
    cbn [repeat]. rewrite app_nil_r. reflexivity. }
  assert (Hlen : length (convert_examples_to_features item tokenizer block_size)
                 = (length tokens - Z.to_nat (2 - block_size) + 2)%nat).
  { rewrite Heq. cbn [length]. rewrite length_app, length_map. cbn [length]. lia. }
  split; [exact Heq |]. split; [exact Hlen |]. rewrite Hlen. lia.
Qed.

(** With a block of one id, a line of five characters gives six ids. *)
Lemma features_overflow_a_small_block_witness :
  convert_examples_to_features ["ab"%string; "cd"%string] toy_tokenizer 1
  = [60; 97; 98; 32; 99; 62]%nat.
Proof.
  assert (H : (1 < 2)%Z) by lia.
  destruct (features_overflow_a_small_block ["ab"%string; "cd"%string] toy_tokenizer 1 H)
    as (Heq & _).
  rewrite Heq. reflexivity.
Defined.

(** X3.  The block size that lines 127-129 leave in [args] never exceeds
    the tokenizer's limit; when the limit is at least 1 it is at least 1,
    and it is the requested size when that lies between 1 and the limit;
    and adjusting an adjusted size changes nothing, so the second data set
    of the loop in [main] sees the block size of the first. *)
Theorem block_size_is_clamped_once (tokenizer : Tokenizer) (block_size : Z) :
  let limit := max_len_single_sentence tokenizer in
  (adjust_block_size tokenizer block_size <= limit)%Z /\
  ((1 <= limit)%Z -> (1 <= adjust_block_size tokenizer block_size)%Z) /\
  ((1 <= block_size <= limit)%Z ->
   adjust_block_size tokenizer block_size = block_size) /\
  ((block_size <= 0)%Z -> adjust_block_size tokenizer block_size = limit) /\
  adjust_block_size tokenizer (adjust_block_size tokenizer block_size)
  = adjust_block_size tokenizer block_size.
Proof.
  intros limit. unfold adjust_block_size. fold limit.
  destruct (Z.leb_spec block_size 0) as [Hle | Hgt].
  - rewrite Z.min_id.
    repeat split; try lia.
    destruct (Z.leb_spec limit 0); rewrite Z.min_id; reflexivity.
  - repeat split; try lia.
    destruct (Z.leb_spec (Z.min block_size limit) 0) as [Hm | Hm].
    + rewrite Z.min_id. lia.
    + lia.
Qed.

(* ================================================================= *)
(** ** The dataset *)

Lemma py_index_nonneg {A : Type} (l : list A) (i : nat) (x : A) :
  nth_error l i = Some x -> py_index l (Z.of_nat i) = Some x.
Proof.
  intros H. unfold py_index.
  assert (Hi : (i < length l)%nat) by (apply nth_error_Some; congruence).
  destruct (Z.ltb_spec (Z.of_nat i) (- Z.of_nat (length l))); [lia |].
  destruct (Z.leb_spec (Z.of_nat (length l)) (Z.of_nat i)); [lia |].
  cbn [orb]. destruct (Z.ltb_spec (Z.of_nat i) 0); [lia |].
  rewrite Nat2Z.id. exact H.
Qed.

Lemma py_index_negative {A : Type} (l : list A) (i : nat) (x : A) :
  nth_error l i = Some x ->
  py_index l (Z.of_nat i - Z.of_nat (length l)) = Some x.
Proof.
  intros H. unfold py_index.
  assert (Hi : (i < length l)%nat) by (apply nth_error_Some; congruence).
  destruct (Z.ltb_spec (Z.of_nat i - Z.of_nat (length l))
                       (- Z.of_nat (length l))); [lia |].
  destruct (Z.leb_spec (Z.of_nat (length l))
                       (Z.of_nat i - Z.of_nat (length l))); [lia |].
  cbn [orb].
  destruct (Z.ltb_spec (Z.of_nat i - Z.of_nat (length l)) 0); [| lia].
  replace (Z.of_nat i - Z.of_nat (length l) + Z.of_nat (length l))%Z
    with (Z.of_nat i) by lia.
  rewrite Nat2Z.id. exact H.
Qed.

Lemma py_index_out_of_range {A : Type} (l : list A) (i : Z) :
  (i < - Z.of_nat (length l) \/ Z.of_nat (length l) <= i)%Z ->
  py_index l i = None.
Proof.
  intros H. unfold py_index.
  destruct (Z.ltb_spec i (- Z.of_nat (length l))); [reflexivity |].
  destruct (Z.leb_spec (Z.of_nat (length l)) i); [reflexivity | lia].
Qed.

Lemma torch_tensor_2d_rectangular (rows : list (list nat)) (n : nat) :
  Forall (fun r => length r = n) rows -> torch_tensor_2d rows = Some rows.
Proof.
  intros H. destruct rows as [| r rest]; [reflexivity |].
  unfold torch_tensor_2d.
  inversion H as [| ? ? Hr Hrest]; subst.
  replace (forallb (fun r' => Nat.eqb (length r') (length r)) rest) with true;
    [reflexivity |].
  symmetry. apply forallb_forall. intros r' Hr'.
  rewrite Forall_forall in Hrest. rewrite (Hrest r' Hr').
  apply Nat.eqb_refl.
Qed.

Lemma torch_tensor_2d_ragged (r r' : list nat) (rest : list (list nat)) :
  In r' rest -> length r' <> length r -> torch_tensor_2d (r :: rest) = None.
Proof.
  intros Hin Hne. unfold torch_tensor_2d.
  destruct (forallb (fun r'0 => Nat.eqb (length r'0) (length r)) rest) eqn:Hf;
    [| reflexivity].
  rewrite forallb_forall in Hf. specialize (Hf r' Hin).
  apply Nat.eqb_eq in Hf. contradiction.
Qed.

Lemma TextDataset_init_nth (tokenizer : Tokenizer) (block_size : Z)
      (datasets : list (list (list string))) (labels : list nat)
      (line_labels : list tensor) (i : nat) (file : list (list string))
      (label : nat) (line_label : tensor) :
  nth_error datasets i = Some file ->
  nth_error labels i = Some label ->
  nth_error line_labels i = Some line_label ->
  nth_error (TextDataset_init tokenizer block_size datasets labels line_labels) i
  = Some {| feat_input_ids :=
              map (fun item =>
                     convert_examples_to_features item tokenizer block_size)
                  file;
            feat_label := Fin (INR label);
            feat_line_label := line_label |}.
Proof.
  intros Hd Hl Hll. unfold TextDataset_init.
  rewrite nth_error_map.
  rewrite (nth_error_combine _ _ i (file, label) line_label
             (nth_error_combine _ _ i file label Hd Hl) Hll).
  reflexivity.
Qed.

(** X4.  The dataset has as many items as the shortest of the three lists
    it is built from, so files without a label or without line labels are
    left out without a word; and an index outside
    [-len .. len - 1] raises [IndexError]. *)
Theorem dataset_length_and_bounds (tokenizer : Tokenizer) (block_size : Z)
        (datasets : list (list (list string))) (labels : list nat)
        (line_labels : list tensor) :
  let examples :=
    TextDataset_init tokenizer block_size datasets labels line_labels in
  TextDataset_len examples
  = Nat.min (length datasets) (Nat.min (length labels) (length line_labels)) /\
  (forall i : Z,
      (i < - Z.of_nat (TextDataset_len examples)
       \/ Z.of_nat (TextDataset_len examples) <= i)%Z ->
      TextDataset_getitem examples i = Raise IndexError).
Proof.
  intros examples. split.
  - unfold TextDataset_len, examples, TextDataset_init.
    rewrite length_map, !length_combine. lia.
  - intros i Hi. unfold TextDataset_getitem, TextDataset_len in *.
    rewrite py_index_out_of_range by exact Hi. reflexivity.
Qed.

(** X5.  With a block size of at least 2, the item at an index that all
    three lists have is returned without raising: one row of exactly
    [block_size] ids per line of the file, the label of the file as a float
    and its line labels; the index counted from the end gives the same
    item. *)
Theorem dataset_item_is_rectangular (tokenizer : Tokenizer) (block_size : Z)
        (datasets : list (list (list string))) (labels : list nat)
        (line_labels : list tensor) (i : nat) (file : list (list string))
        (label : nat) (line_label : tensor) :
  (2 <= block_size)%Z ->
  nth_error datasets i = Some file ->
  nth_error labels i = Some label ->
  nth_error line_labels i = Some line_label ->
  let examples :=
    TextDataset_init tokenizer block_size datasets labels line_labels in
  let rows :=
    map (fun item => convert_examples_to_features item tokenizer block_size)
        file in
  TextDataset_getitem examples (Z.of_nat i)
  = Ok (rows, Fin (INR label), line_label) /\
  TextDataset_getitem examples (Z.of_nat i - Z.of_nat (TextDataset_len examples))
  = Ok (rows, Fin (INR label), line_label) /\
  length rows = length file /\
  Forall (fun row => length row = Z.to_nat block_size) rows.
Proof.
  intros Hb Hd Hl Hll examples rows.
  pose proof (TextDataset_init_nth tokenizer block_size datasets labels
                line_labels i file label line_label Hd Hl Hll) as Hnth.
  fold examples in Hnth. fold rows in Hnth.
  assert (Hrows : Forall (fun row => length row = Z.to_nat block_size) rows).
  { unfold rows. apply Forall_forall. intros row Hrow.
    apply in_map_iff in Hrow. destruct Hrow as (item & <- & _).
    exact (features_fill_the_block_length item tokenizer block_size Hb). }
  assert (Hitem : forall j : Z,
             py_index examples j
             = Some {| feat_input_ids := rows; feat_label := Fin (INR label);
                       feat_line_label := line_label |} ->
             TextDataset_getitem examples j
             = Ok (rows, Fin (INR label), line_label)).
  { intros j Hj. unfold TextDataset_getitem. rewrite Hj.
    cbn [bind of_option feat_input_ids feat_label feat_line_label].
    rewrite (torch_tensor_2d_rectangular rows _ Hrows). reflexivity. }
  split; [apply Hitem, py_index_nonneg, Hnth |].
  split; [apply Hitem; unfold TextDataset_len; apply py_index_negative, Hnth |].
  split; [unfold rows; apply length_map | exact Hrows].
Qed.

(** The second of two files, asked for as item 1 and as item -1. *)
Lemma dataset_item_is_rectangular_witness :
  TextDataset_getitem
    (TextDataset_init toy_tokenizer 4
                      [[["a"%string]]; [["ab"%string; "cd"%string]; ["x"%string]]]
                      [0%nat; 1%nat] [[Fin 0]; [Fin 1; Fin 0]])
    1
  = Ok ([[60; 97; 98; 62]; [60; 120; 62; 1]]%nat, Fin 1, [Fin 1; Fin 0]) /\
  TextDataset_getitem
    (TextDataset_init toy_tokenizer 4
                      [[["a"%string]]; [["ab"%string; "cd"%string]; ["x"%string]]]
                      [0%nat; 1%nat] [[Fin 0]; [Fin 1; Fin 0]])
    (-1)
  = Ok ([[60; 97; 98; 62]; [60; 120; 62; 1]]%nat, Fin 1, [Fin 1; Fin 0]).
Proof.
  assert (Hb : (2 <= 4)%Z) by lia.
  destruct (dataset_item_is_rectangular toy_tokenizer 4
              [[["a"%string]]; [["ab"%string; "cd"%string]; ["x"%string]]]
              [0%nat; 1%nat] [[Fin 0]; [Fin 1; Fin 0]] 1
              [["ab"%string; "cd"%string]; ["x"%string]] 1 [Fin 1; Fin 0]
              Hb eq_refl eq_refl eq_refl) as (H1 & H2 & _).
  split; [exact H1 | exact H2].
Defined.

(** X6.  With a block size below 2, which lines 127-129 let through when
    it is 1, the rows of a file are not padded to one length: as soon as two
    lines of the file keep different numbers of tokens, building the tensor
    of the item raises [ValueError]. *)
Theorem dataset_item_ragged_for_small_block (tokenizer : Tokenizer)
        (block_size : Z) (datasets : list (list (list string)))
        (labels : list nat) (line_labels : list tensor) (i : nat)
        (line : list string) (file : list (list string)) (line' : list string)
        (label : nat) (line_label : tensor) :
  (block_size < 2)%Z ->
  nth_error datasets i = Some (line :: file) ->
  nth_error labels i = Some label ->
  nth_error line_labels i = Some line_label ->
  In line' file ->
  let kept := fun l : list string =>
                (length (tokenize tokenizer (String.concat " " l))
                 - Z.to_nat (2 - block_size))%nat in
  kept line' <> kept line ->
  TextDataset_getitem
    (TextDataset_init tokenizer block_size datasets labels line_labels)
    (Z.of_nat i)
  = Raise ValueError.
Proof.
  intros Hb Hd Hl Hll Hin kept Hne.
  pose proof (TextDataset_init_nth tokenizer block_size datasets labels
                line_labels i (line :: file) label line_label Hd Hl Hll) as Hnth.
  unfold TextDataset_getitem.
  rewrite (py_index_nonneg _ _ _ Hnth).
  cbn [bind of_option feat_input_ids map].
  rewrite (torch_tensor_2d_ragged
             (convert_examples_to_features line tokenizer block_size)
             (convert_examples_to_features line' tokenizer block_size)).
  - reflexivity.
  - apply in_map_iff. exists line'. split; [reflexivity | exact Hin].
  - rewrite (features_small_block_length line tokenizer block_size Hb).
    rewrite (features_small_block_length line' tokenizer block_size Hb).
    fold (kept line). fold (kept line'). lia.
Qed.

(** A block of one id, a file with a line of one character and a line of
    three. *)
Lemma dataset_item_ragged_for_small_block_witness :
  TextDataset_getitem
    (TextDataset_init toy_tokenizer 1 [[["a"%string]; ["abc"%string]]]
                      [1%nat] [[Fin 1; Fin 0]])
    0
  = Raise ValueError.
Proof.
  assert (Hb : (1 < 2)%Z) by lia.
  assert (Hne : (length (tokenize toy_tokenizer
                           (String.concat " " ["abc"%string]))
                 - Z.to_nat (2 - 1))%nat
                <> (length (tokenize toy_tokenizer
                              (String.concat " " ["a"%string]))
                    - Z.to_nat (2 - 1))%nat).
  { simpl. lia. }
  exact (dataset_item_ragged_for_small_block toy_tokenizer 1
           [[["a"%string]; ["abc"%string]]] [1%nat] [[Fin 1; Fin 0]] 0
           ["a"%string] [["abc"%string]] ["abc"%string] 1 [Fin 1; Fin 0]
           Hb eq_refl eq_refl eq_refl (or_introl eq_refl) Hne).
Defined.

(* ================================================================= *)
(** ** The weight of a file in the file loss *)

Lemma fold_left_Rmin_le (l : list R) :
  forall a : R, fold_left Rmin l a <= a.
Proof.
  induction l as [| x l IH]; intros a; simpl; [lra |].
  eapply Rle_trans; [apply IH | apply Rmin_l].
Qed.

Lemma fold_left_Rmax_ge (l : list R) :
  forall a : R, a <= fold_left Rmax l a.
Proof.
  induction l as [| x l IH]; intros a; simpl; [lra |].
  eapply Rle_trans; [apply Rmax_l | apply IH].
Qed.

(** X7.  On a batch that has a label, [get_loss_weight] gives every label
    the entry of the dictionary under ['clean'] when the label equals 0 and
    the one under ['defect'] otherwise, in the order of the labels; it
    raises [KeyError] exactly when a label of the batch needs a key that
    the dictionary does not have, so a dictionary without ['defect'] still
    serves a batch of clean files. *)
Theorem loss_weight_follows_the_labels (labels : tensor) (weight_dict : dict) :
  labels <> [] ->
  let entry := fun lab : scalar =>
                 if seqb lab (Fin 0) then dict_get weight_dict "clean"
                 else dict_get weight_dict "defect" in
  (forall w : tensor,
      get_loss_weight labels weight_dict = Some w
      <-> Forall2 (fun lab x => exists r : R, x = Fin r /\ entry lab = Some r)
                  labels w) /\
  (get_loss_weight labels weight_dict = None
   <-> Exists (fun lab => entry lab = None) labels).
Proof.
  intros _ entry. induction labels as [| lab labels [IHs IHn]].
  - split.
    + intros w. cbn [get_loss_weight]. split.
      * intros H. injection H as <-. constructor.
      * intros H. inversion H. reflexivity.
    + cbn [get_loss_weight]. split; [discriminate | intros H; inversion H].
  - assert (Hstep :
      get_loss_weight (lab :: labels) weight_dict
      = match entry lab, get_loss_weight labels weight_dict with
        | Some x, Some xs => Some (Fin x :: xs)
        | _, _ => None
        end).
    { cbn [get_loss_weight]. unfold entry. reflexivity. }
    split.
    + intros w. rewrite Hstep. split.
      * intros H.
        destruct (entry lab) as [x |] eqn:He; [| discriminate].
        destruct (get_loss_weight labels weight_dict) as [xs |] eqn:Hg;
          [| discriminate].
        injection H as <-. constructor.
        -- exists x. split; [reflexivity | exact He].
        -- apply IHs. reflexivity.
      * intros H. inversion H as [| ? x ? xs (r & -> & Hr) Hrest]; subst.
        rewrite Hr. apply IHs in Hrest. rewrite Hrest. reflexivity.
    + rewrite Hstep. split.
      * intros H.
        destruct (entry lab) as [x |] eqn:He; [| left; exact He].
        destruct (get_loss_weight labels weight_dict) as [xs |] eqn:Hg;
          [discriminate |].
        right. apply IHn. reflexivity.
      * intros H. inversion H as [? ? He | ? ? Hrest]; subst.
        -- rewrite He. reflexivity.
        -- apply IHn in Hrest. rewrite Hrest.
           destruct (entry lab); reflexivity.
Qed.

(** Two clean files and a dictionary that has no entry for ['defect']. *)
Lemma loss_weight_follows_the_labels_witness :
  get_loss_weight [Fin 0; Fin 0] [("clean"%string, 3)] = Some [Fin 3; Fin 3] /\
  get_loss_weight [Fin 0; Fin 1] [("clean"%string, 3)] = None.
Proof.
  assert (H1 : [Fin 0; Fin 0] <> []) by discriminate.
  assert (H2 : [Fin 0; Fin 1] <> []) by discriminate.
  destruct (loss_weight_follows_the_labels [Fin 0; Fin 0]
              [("clean"%string, 3)] H1) as (Hs & _).
  destruct (loss_weight_follows_the_labels [Fin 0; Fin 1]
              [("clean"%string, 3)] H2) as (_ & Hn).
  split.
  - apply Hs. repeat constructor; exists 3; split; try reflexivity;
      simpl; rewrite Reqb_true by reflexivity; reflexivity.
  - apply Hn. right. left. simpl. rewrite Reqb_false by lra. reflexivity.
Defined.

(** X8.  The dictionary of lines 116-118 is built for every training set
    that is not empty, and only then; it always has both keys, the weight
    under ['clean'] is never larger than the one under ['defect'], whatever
    the class that has more files; and with this dictionary
    [get_loss_weight] never raises on a batch that has a label. *)
Theorem built_weights_order_and_serve_every_batch (train_label : list nat) :
  (make_weight_dict train_label = None <-> train_label = []) /\
  (forall weight_dict : dict,
      make_weight_dict train_label = Some weight_dict ->
      exists wc wd : R,
        dict_get weight_dict "clean" = Some wc /\
        dict_get weight_dict "defect" = Some wd /\
        wc <= wd /\
        forall labels : tensor,
          labels <> [] ->
          get_loss_weight labels weight_dict
          = Some (map (fun lab => Fin (if seqb lab (Fin 0) then wc else wd))
                      labels)).
Proof.
  split.
  - split.
    + intros H. destruct train_label as [| l tl]; [reflexivity |].
      destruct (make_weight_dict_total (l :: tl)) as (wd & Hwd);
        [discriminate | congruence].
    + intros ->. reflexivity.
  - intros weight_dict H. unfold make_weight_dict, weight_dict_of in H.
    destruct (compute_class_weight (np_unique train_label) train_label)
      as [| x rest] eqn:Hw; [discriminate |].
    cbn [np_max np_min] in H. injection H as <-.
    exists (fold_left Rmin rest x), (fold_left Rmax rest x).
    assert (Hc : dict_get (dict_set (dict_set [] "defect" (fold_left Rmax rest x))
                                    "clean" (fold_left Rmin rest x)) "clean"
                 = Some (fold_left Rmin rest x)) by reflexivity.
    assert (Hd : dict_get (dict_set (dict_set [] "defect" (fold_left Rmax rest x))
                                    "clean" (fold_left Rmin rest x)) "defect"
                 = Some (fold_left Rmax rest x)) by reflexivity.
    split; [exact Hc |]. split; [exact Hd |]. split.
    + eapply Rle_trans; [apply fold_left_Rmin_le | apply fold_left_Rmax_ge].
    + intros labels _. apply get_loss_weight_map; assumption.
Qed.

Lemma np_unique_constant (c : nat) (y : list nat) :
  y <> [] -> Forall (fun l => l = c) y -> np_unique y = [c].
Proof.
  intros Hne H. induction H as [| l y -> Hy IH]; [contradiction |].
  cbn [np_unique fold_right].
  destruct y as [| l' y'].
  - reflexivity.
  - change (fold_right insert_unique [] (l' :: y')) with (np_unique (l' :: y')).
    rewrite IH by discriminate.
    unfold insert_unique. rewrite Nat.ltb_irrefl, Nat.eqb_refl. reflexivity.
Qed.

Lemma count_occ_constant (c : nat) (y : list nat) :
  Forall (fun l => l = c) y -> count_occ Nat.eq_dec y c = length y.
Proof.
  induction 1 as [| l y -> _ IH]; [reflexivity |].
  cbn [count_occ length]. destruct (Nat.eq_dec c c); [| contradiction].
  f_equal. exact IH.
Qed.

(** X9.  When all the training files have one and the same label, there
    is a single class, its balanced weight is 1, and the dictionary gives
    1 to ['clean'] and to ['defect'] alike. *)
Theorem single_class_weights_are_one (c : nat) (train_label : list nat) :
  train_label <> [] -> Forall (fun l => l = c) train_label ->
  compute_class_weight (np_unique train_label) train_label = [1] /\
  exists weight_dict : dict,
    make_weight_dict train_label = Some weight_dict /\
    dict_get weight_dict "clean" = Some 1 /\
    dict_get weight_dict "defect" = Some 1.
Proof.
  intros Hne Hall.
  assert (Hw : compute_class_weight (np_unique train_label) train_label = [1]).
  { rewrite (np_unique_constant c) by assumption.
    unfold compute_class_weight. cbn [map length].
    rewrite (count_occ_constant c) by exact Hall.
    f_equal.
    assert (Hn : INR (length train_label) <> 0).
    { apply not_0_INR. destruct train_label; [contradiction | discriminate]. }
    simpl INR. field. exact Hn. }
  split; [exact Hw |].
  unfold make_weight_dict, weight_dict_of. rewrite Hw. cbn [np_max np_min fold_left].
  eexists. split; [reflexivity |]. split; reflexivity.
Qed.

(** Three clean files and no defective one. *)
Lemma single_class_weights_are_one_witness :
  compute_class_weight (np_unique [0; 0; 0]%nat) [0; 0; 0]%nat = [1].
Proof.
  assert (Hne : [0; 0; 0]%nat <> []) by discriminate.
  assert (Hall : Forall (fun l => l = 0%nat) [0; 0; 0]%nat).
  { repeat constructor. }
  destruct (single_class_weights_are_one 0 [0; 0; 0]%nat Hne Hall) as (H & _).
  exact H.
Defined.

(* ================================================================= *)
(** ** The discounts of [jsd] *)

Lemma argsort_perm (sigma : list nat) :
  Permutation (argsort sigma) (seq 0 (length sigma)).
Proof.
  unfold argsort.
  eapply Permutation_trans.
  - apply Permutation_map. apply sort_by_perm.
  - unfold enumerate. rewrite map_snd_combine_seq. apply Permutation_refl.
Qed.

Lemma discount_of_rank (r : nat) :
  (1 <= r)%nat ->
  sdiv (Fin 1) (slog2 (sadd (Fin (INR r)) (Fin 1)))
  = Fin (1 / log2 (INR r + 1)) /\
  0 < 1 / log2 (INR r + 1) <= 1.
Proof.
  intros Hr.
  assert (H2 : 2 <= INR r + 1).
  { assert (H : INR 1 <= INR r) by (apply le_INR; exact Hr).
    rewrite INR_1 in H. lra. }
  pose proof (log2_ge_1 _ H2) as Hlog.
  split.
  - cbn [sadd slog2]. rewrite Rltb_true by lra.
    cbn [sdiv]. rewrite Reqb_false by lra. reflexivity.
  - split.
    + apply Rdiv_lt_0_compat; lra.
    + apply Rmult_le_reg_r with (log2 (INR r + 1)); [lra |].
      unfold Rdiv. rewrite Rmult_assoc, Rinv_l by lra. lra.
Qed.

(** X10.  Whatever the labels, also with ties or special values among
    them, the discounts of [jsd] over [k] positions are the numbers
    [1 / log2(2)], [1 / log2(3)], ..., [1 / log2(k + 1)], each used once, in
    some order: every discount is finite, positive and at most 1. *)
Theorem discounts_are_one_per_rank (gt : tensor) :
  Permutation (jsd_discounts gt)
              (map (fun r => Fin (1 / log2 (INR r + 1))) (seq 1 (length gt))) /\
  Forall (fun d => exists x : R, d = Fin x /\ 0 < x <= 1) (jsd_discounts gt).
Proof.
  assert (Hperm : Permutation (jsd_discounts gt)
                    (map (fun r => Fin (1 / log2 (INR r + 1)))
                         (seq 1 (length gt)))).
  { unfold jsd_discounts. cbv zeta.
    eapply Permutation_trans.
    - apply Permutation_map. apply Permutation_map. apply argsort_perm.
    - unfold argsort_desc.
      rewrite (proj2 (sort_desc_lengths gt)).
      rewrite seq_shift.
      erewrite map_ext_in; [apply Permutation_refl |].
      intros r Hr. apply in_seq in Hr.
      apply discount_of_rank. lia. }
  split; [exact Hperm |].
  eapply Permutation_Forall; [apply Permutation_sym; exact Hperm |].
  apply Forall_forall. intros d Hd.
  apply in_map_iff in Hd. destruct Hd as (r & <- & Hr).
  apply in_seq in Hr. eexists. split; [reflexivity |].
  apply discount_of_rank. lia.
Qed.

Lemma filter_length_le_pointwise {A : Type} (f g : A -> bool) (l : list A) :
  (forall x, In x l -> f x = true -> g x = true) ->
  (length (filter f l) <= length (filter g l))%nat.
Proof.
  induction l as [| x l IH]; intros H; simpl; [lia |].
  assert (IH' : (length (filter f l) <= length (filter g l))%nat).
  { apply IH. intros y Hy. apply H. right. exact Hy. }
  destruct (f x) eqn:Hf.
  - rewrite (H x (or_introl eq_refl) Hf). simpl. lia.
  - destruct (g x); simpl; lia.
Qed.

Lemma filter_length_lt_pointwise {A : Type} (f g : A -> bool) (l : list A) (a : A) :
  (forall x, In x l -> f x = true -> g x = true) ->
  In a l -> f a = false -> g a = true ->
  (length (filter f l) < length (filter g l))%nat.
Proof.
  induction l as [| x l IH]; intros H Hin Hfa Hga; [destruct Hin |].
  simpl.
  assert (Hle : (length (filter f l) <= length (filter g l))%nat).
  { apply filter_length_le_pointwise. intros y Hy. apply H. right. exact Hy. }
  destruct Hin as [-> | Hin].
  - rewrite Hfa, Hga. simpl. lia.
  - assert (Hlt : (length (filter f l) < length (filter g l))%nat).
    { apply IH; try assumption. intros y Hy. apply H. right. exact Hy. }
    destruct (f x) eqn:Hf.
    + rewrite (H x (or_introl eq_refl) Hf). simpl. lia.
    + destruct (g x); simpl; lia.
Qed.

Lemma in_enumerate_nth (v : list R) (i : nat) :
  (i < length v)%nat -> In (nth i v 0, i) (enumerate v).
Proof.
  intros Hi. unfold enumerate.
  apply (nth_error_In _ i).
  apply nth_error_combine.
  - apply nth_error_nth'. exact Hi.
  - rewrite nth_error_nth' with (d := 0%nat) by (rewrite length_seq; exact Hi).
    rewrite seq_nth by exact Hi. reflexivity.
Qed.

Lemma rank_of_strict (gs : list R) (i j : nat) :
  (i < length gs)%nat -> (j < length gs)%nat ->
  nth j gs 0 < nth i gs 0 ->
  (rank_of gs i < rank_of gs j)%nat.
Proof.
  intros Hi Hj Hlt. unfold rank_of. apply -> Nat.succ_lt_mono.
  apply filter_length_lt_pointwise with (a := (nth i gs 0, i)).
  - intros [x s] _ Hx.
    apply comes_before_b_spec in Hx. apply comes_before_b_spec.
    unfold comes_before in *. cbn [fst snd] in *.
    destruct Hx as [Hx | [Hx _]]; left; lra.
  - apply in_enumerate_nth. exact Hi.
  - destruct (comes_before_b (nth i gs 0, i) (nth i gs 0, i)) eqn:Hc;
      [| reflexivity].
    apply comes_before_b_spec in Hc. unfold comes_before in Hc.
    cbn [fst snd] in Hc. destruct Hc as [Hc | [_ Hc]]; [lra | lia].
  - apply comes_before_b_spec. left. cbn [fst snd]. exact Hlt.
Qed.

(** X11.  On finite labels, a position with a larger label has a larger
    discount: the terms of the lines marked defective weigh more in the
    divergence than those of the other lines. *)
Theorem larger_label_has_larger_discount (gs : list R) (i j : nat) :
  (i < length gs)%nat -> (j < length gs)%nat ->
  nth j gs 0 < nth i gs 0 ->
  exists di dj : R,
    nth_error (jsd_discounts (map Fin gs)) i = Some (Fin di) /\
    nth_error (jsd_discounts (map Fin gs)) j = Some (Fin dj) /\
    dj < di.
Proof.
  intros Hi Hj Hlt.
  rewrite jsd_discounts_finite.
  exists (discount_at gs i), (discount_at gs j).
  assert (Hnth : forall s : nat,
             (s < length gs)%nat ->
             nth_error (map Fin (map (discount_at gs) (seq 0 (length gs)))) s
             = Some (Fin (discount_at gs s))).
  { intros s Hs. rewrite !nth_error_map.
    rewrite nth_error_nth' with (d := 0%nat) by (rewrite length_seq; exact Hs).
    rewrite seq_nth by exact Hs. reflexivity. }
  split; [apply Hnth; exact Hi |]. split; [apply Hnth; exact Hj |].
  pose proof (rank_of_strict gs i j Hi Hj Hlt) as Hr.
  unfold discount_at.
  assert (Hri : 2 <= INR (rank_of gs i) + 1).
  { assert (H : INR 1 <= INR (rank_of gs i))
      by (apply le_INR; unfold rank_of; lia).
    rewrite INR_1 in H. lra. }
  assert (Hrij : INR (rank_of gs i) + 1 < INR (rank_of gs j) + 1).
  { apply lt_INR in Hr. lra. }
  pose proof (log2_ge_1 _ Hri) as Hlog.
  assert (Hinc : log2 (INR (rank_of gs i) + 1) < log2 (INR (rank_of gs j) + 1)).
  { apply log2_increasing; lra. }
  unfold Rdiv. rewrite !Rmult_1_l.
  apply Rinv_lt_contravar; [| exact Hinc].
  apply Rmult_lt_0_compat; lra.
Qed.

(** Three lines of which the second is the defective one. *)
Lemma larger_label_has_larger_discount_witness :
  exists di dj : R,
    nth_error (jsd_discounts (map Fin [0; 1; 0])) 1 = Some (Fin di) /\
    nth_error (jsd_discounts (map Fin [0; 1; 0])) 0 = Some (Fin dj) /\
    dj < di.
Proof.
  assert (Hi : (1 < length [0; 1; 0])%nat) by (simpl; lia).
  assert (Hj : (0 < length [0; 1; 0])%nat) by (simpl; lia).
  assert (Hlt : nth 0 [0; 1; 0] 0 < nth 1 [0; 1; 0] 0) by (simpl; lra).
  exact (larger_label_has_larger_discount [0; 1; 0] 1 0 Hi Hj Hlt).
Defined.

(* ================================================================= *)
(** ** Adding a constant to the scores *)

Lemma Rsum_exp_shift (a : R) (xs : list R) :
  Rsum (map exp (map (fun x => x + a) xs)) = exp a * Rsum (map exp xs).
Proof.
  induction xs as [| x xs IH]; simpl; [lra |].
  rewrite IH, exp_plus. lra.
Qed.

Lemma softmax_shift (a : R) (xs : list R) :
  softmax (map Fin (map (fun x => x + a) xs)) = softmax (map Fin xs).
Proof.
  rewrite !softmax_finite. rewrite length_map. f_equal.
  apply map_ext_in. intros i Hi. apply in_seq in Hi.
  unfold softmax_at.
  rewrite (nth_map_in_range (fun x => x + a) xs i 0 0) by lia.
  rewrite Rsum_exp_shift, exp_plus.
  assert (Hs : 0 < Rsum (map exp xs)).
  { destruct xs as [| x xs]; [simpl in Hi; lia | apply Rsum_exp_pos]. }
  pose proof (exp_pos a) as Ha.
  field. split; lra.
Qed.

Lemma combine_map_fst {A B C : Type} (f : A -> B) (l : list A) (l' : list C) :
  combine (map f l) l' = map (fun p => (f (fst p), snd p)) (combine l l').
Proof.
  revert l'. induction l as [| x l IH]; intros [| y l']; simpl;
    try reflexivity.
  f_equal. apply IH.
Qed.

Lemma enumerate_map (f : R -> R) (v : list R) :
  enumerate (map f v) = map (fun p => (f (fst p), snd p)) (enumerate v).
Proof.
  unfold enumerate. rewrite length_map. apply combine_map_fst.
Qed.

Lemma filter_map_length {A B : Type} (g : B -> bool) (h : A -> B) (l : list A) :
  length (filter g (map h l)) = length (filter (fun x => g (h x)) l).
Proof.
  induction l as [| x l IH]; simpl; [reflexivity |].
  destruct (g (h x)); simpl; rewrite IH; reflexivity.
Qed.

Lemma Rltb_increasing (f : R -> R) (x y : R) :
  (forall u v : R, u < v -> f u < f v) -> Rltb (f x) (f y) = Rltb x y.
Proof.
  intros Hf. unfold Rltb.
  destruct (Rlt_dec x y) as [Hxy | Hxy].
  - destruct (Rlt_dec (f x) (f y)) as [_ | H]; [reflexivity |].
    exfalso. apply H, Hf, Hxy.
  - destruct (Rlt_dec (f x) (f y)) as [H | _]; [| reflexivity].
    exfalso. destruct (Rtotal_order x y) as [Hlt | [Heq | Hgt]].
    + contradiction.
    + subst. lra.
    + apply Hf in Hgt. lra.
Qed.

Lemma Reqb_increasing (f : R -> R) (x y : R) :
  (forall u v : R, u < v -> f u < f v) -> Reqb (f x) (f y) = Reqb x y.
Proof.
  intros Hf. unfold Reqb.
  destruct (Req_dec_T x y) as [Hxy | Hxy].
  - subst. destruct (Req_dec_T (f y) (f y)); [reflexivity | contradiction].
  - destruct (Req_dec_T (f x) (f y)) as [H | _]; [| reflexivity].
    exfalso. destruct (Rtotal_order x y) as [Hlt | [Heq | Hgt]].
    + apply Hf in Hlt. lra.
    + contradiction.
    + apply Hf in Hgt. lra.
Qed.

Lemma rank_of_increasing (f : R -> R) (gs : list R) (i : nat) :
  (forall u v : R, u < v -> f u < f v) ->
  (i < length gs)%nat ->
  rank_of (map f gs) i = rank_of gs i.
Proof.
  intros Hf Hi. unfold rank_of. f_equal.
  rewrite enumerate_map, filter_map_length.
  rewrite (nth_map_in_range f gs i 0 0) by exact Hi.
  f_equal. apply filter_ext. intros [x s].
  unfold comes_before_b. cbn [fst snd].
  rewrite Rltb_increasing, Reqb_increasing by exact Hf. reflexivity.
Qed.

Lemma jsd_discounts_increasing (f : R -> R) (gs : list R) :
  (forall u v : R, u < v -> f u < f v) ->
  jsd_discounts (map Fin (map f gs)) = jsd_discounts (map Fin gs).
Proof.
  intros Hf. rewrite !jsd_discounts_finite. rewrite length_map. f_equal.
  apply map_ext_in. intros i Hi. apply in_seq in Hi.
  unfold discount_at. rewrite rank_of_increasing by (exact Hf || lia).
  reflexivity.
Qed.

Lemma jsd_shift_pred (a : R) (pred : list R) (gt : tensor) (epsilon : R) :
  jsd (map Fin (map (fun x => x + a) pred)) gt epsilon
  = jsd (map Fin pred) gt epsilon.
Proof. unfold jsd. rewrite softmax_shift. reflexivity. Qed.

(** X12.  On finite scores the divergence does not change when a constant
    is added to all the predicted scores and another one to all the labels:
    both enter through a softmax, and the ranks of the labels depend on
    their order only. *)
Theorem divergence_ignores_constant_offsets (pred gt : list R) (a b epsilon : R) :
  jsd (map Fin (map (fun x => x + a) pred)) (map Fin (map (fun x => x + b) gt))
      epsilon
  = jsd (map Fin pred) (map Fin gt) epsilon.
Proof.
  rewrite jsd_shift_pred. unfold jsd.
  rewrite softmax_shift.
  rewrite (jsd_discounts_increasing (fun x => x + b)) by (intros; lra).
  reflexivity.
Qed.

(* ================================================================= *)
(** ** Sorting after an increasing map *)

Lemma sort_enumerate_increasing (f : R -> R) (v : list R) :
  (forall u w : R, u < w -> f u < f w) ->
  sort_by desc_before (enumerate (map f v))
  = map (fun p => (f (fst p), snd p)) (sort_by desc_before (enumerate v)).
Proof.
  intros Hf. rewrite enumerate_map.
  apply sort_by_map. intros p q. unfold desc_before. cbn [fst snd].
  apply Rltb_increasing. exact Hf.
Qed.

Lemma sort_desc_increasing (f : R -> R) (v : list R) :
  (forall u w : R, u < w -> f u < f w) ->
  sort_desc (map Fin (map f v))
  = (map Fin (map f (map fst (sort_by desc_before (enumerate v)))),
     map snd (sort_by desc_before (enumerate v))).
Proof.
  intros Hf. rewrite sort_desc_finite, sort_enumerate_increasing by exact Hf.
  rewrite !map_map. cbn [fst snd]. reflexivity.
Qed.

(** X13.  The line loss of an example does not change when a constant is
    added to all its (finite) attention scores: the same lines are
    selected, in the same order, and the divergence ignores the offset.
    The subtraction of the row minimum on line 197 therefore has no effect
    on the line loss. *)
Theorem line_loss_ignores_attention_offset (att : list R) (line_label : tensor)
        (a : R) :
  snd (sort_desc (firstn (length line_label)
                         (map Fin (map (fun x => x + a) att))))
  = snd (sort_desc (firstn (length line_label) (map Fin att))) /\
  example_line_loss (map Fin (map (fun x => x + a) att)) line_label
  = example_line_loss (map Fin att) line_label.
Proof.
  assert (Hf : forall u w : R, u < w -> u + a < w + a) by (intros; lra).
  assert (Hs : sort_desc (firstn (length line_label)
                                 (map Fin (map (fun x => x + a) att)))
               = (map Fin (map (fun x => x + a)
                    (map fst (sort_by desc_before
                       (enumerate (firstn (length line_label) att))))),
                  map snd (sort_by desc_before
                       (enumerate (firstn (length line_label) att))))).
  { rewrite !firstn_map. apply (sort_desc_increasing (fun x => x + a)). exact Hf. }
  assert (Hs0 : sort_desc (firstn (length line_label) (map Fin att))
                = (map Fin (map fst (sort_by desc_before
                       (enumerate (firstn (length line_label) att)))),
                   map snd (sort_by desc_before
                       (enumerate (firstn (length line_label) att))))).
  { rewrite firstn_map. apply sort_desc_finite. }
  split.
  - rewrite Hs, Hs0. reflexivity.
  - unfold example_line_loss. rewrite Hs, Hs0.
    destruct (index_select line_label _) as [ll |]; [| reflexivity].
    rewrite !firstn_map. rewrite jsd_shift_pred. reflexivity.
Qed.

(* ================================================================= *)
(** ** Min-max normalisation of a row that is not constant *)

Lemma smin_fin (a b : R) : smin (Fin a) (Fin b) = Fin (Rmin a b).
Proof.
  unfold smin, slt, Rltb, Rmin.
  destruct (Rlt_dec b a); destruct (Rle_dec a b); try reflexivity;
    f_equal; lra.
Qed.

Lemma smax_fin (a b : R) : smax (Fin a) (Fin b) = Fin (Rmax a b).
Proof.
  unfold smax, slt, Rltb, Rmax.
  destruct (Rlt_dec a b); destruct (Rle_dec a b); try reflexivity;
    f_equal; lra.
Qed.

Lemma fold_smin_fin (rest : list R) :
  forall x : R, fold_left smin (map Fin rest) (Fin x) = Fin (fold_left Rmin rest x).
Proof.
  induction rest as [| y rest IH]; intros x; [reflexivity |].
  cbn [map fold_left]. rewrite smin_fin. apply IH.
Qed.

Lemma fold_smax_fin (rest : list R) :
  forall x : R, fold_left smax (map Fin rest) (Fin x) = Fin (fold_left Rmax rest x).
Proof.
  induction rest as [| y rest IH]; intros x; [reflexivity |].
  cbn [map fold_left]. rewrite smax_fin. apply IH.
Qed.

Lemma fold_left_Rmin_spec (l : list R) :
  forall a : R,
    In (fold_left Rmin l a) (a :: l) /\
    Forall (fun x => fold_left Rmin l a <= x) (a :: l).
Proof.
  induction l as [| y l IH]; intros a.
  - simpl. split; [left; reflexivity | constructor; [lra | constructor]].
  - cbn [fold_left]. destruct (IH (Rmin a y)) as (Hin & Hall).
    inversion Hall as [| ? ? Hhd Htl]; subst. split.
    + destruct Hin as [Hin | Hin].
      * rewrite <- Hin. unfold Rmin. destruct (Rle_dec a y).
        -- left. reflexivity.
        -- right. left. reflexivity.
      * right. right. exact Hin.
    + constructor; [| constructor].
      * eapply Rle_trans; [exact Hhd | apply Rmin_l].
      * eapply Rle_trans; [exact Hhd | apply Rmin_r].
      * exact Htl.
Qed.

Lemma fold_left_Rmax_spec (l : list R) :
  forall a : R,
    In (fold_left Rmax l a) (a :: l) /\
    Forall (fun x => x <= fold_left Rmax l a) (a :: l).
Proof.
  induction l as [| y l IH]; intros a.
  - simpl. split; [left; reflexivity | constructor; [lra | constructor]].
  - cbn [fold_left]. destruct (IH (Rmax a y)) as (Hin & Hall).
    inversion Hall as [| ? ? Hhd Htl]; subst. split.
    + destruct Hin as [Hin | Hin].
      * rewrite <- Hin. unfold Rmax. destruct (Rle_dec a y).
        -- right. left. reflexivity.
        -- left. reflexivity.
      * right. right. exact Hin.
    + constructor; [| constructor].
      * eapply Rle_trans; [apply Rmax_l | exact Hhd].
      * eapply Rle_trans; [apply Rmax_r | exact Hhd].
      * exact Htl.
Qed.

(** The normalisation of a finite row that holds two different values:
    its minimum [mn] and its maximum [mx] are entries of the row, and the
    row becomes [(x - mn) / (mx - mn)], entry by entry. *)
Lemma normalize_row_finite (xs : list R) (a b : R) :
  In a xs -> In b xs -> a <> b ->
  exists mn mx : R,
    In mn xs /\ In mx xs /\ mn < mx /\
    Forall (fun x => mn <= x <= mx) xs /\
    normalize_row (map Fin xs)
    = Some (map Fin (map (fun x => (x - mn) / (mx - mn)) xs)).
Proof.
  intros Ha Hb Hab.
  destruct xs as [| x rest]; [destruct Ha |].
  destruct (fold_left_Rmin_spec rest x) as (Hmin_in & Hmin_all).
  destruct (fold_left_Rmax_spec rest x) as (Hmax_in & Hmax_all).
  set (mn := fold_left Rmin rest x) in *.
  set (mx := fold_left Rmax rest x) in *.
  rewrite Forall_forall in Hmin_all, Hmax_all.
  assert (Hlt : mn < mx).
  { pose proof (Hmin_all a Ha). pose proof (Hmin_all b Hb).
    pose proof (Hmax_all a Ha). pose proof (Hmax_all b Hb).
    destruct (Rtotal_order a b) as [H' | [H' | H']]; [lra | contradiction | lra]. }
  exists mn, mx.
  split; [exact Hmin_in |]. split; [exact Hmax_in |]. split; [exact Hlt |].
  split.
  - apply Forall_forall. intros y Hy.
    split; [apply Hmin_all | apply Hmax_all]; exact Hy.
  - assert (Hrmin : row_min (map Fin (x :: rest)) = Some (Fin mn)).
    { cbn [map row_min]. rewrite fold_smin_fin. reflexivity. }
    assert (Hrmax : row_max (map Fin (x :: rest)) = Some (Fin mx)).
    { cbn [map row_max]. rewrite fold_smax_fin. reflexivity. }
    unfold normalize_row. rewrite Hrmin, Hrmax. f_equal.
    rewrite !map_map. apply map_ext. intros y.
    cbn [ssub sdiv]. rewrite Reqb_false by lra. reflexivity.
Qed.

(** X14.  A finite attention row that holds two different values is
    normalised without raising to a finite row of the same length whose
    entries lie between 0 and 1, with 0 at the minimum of the row and 1 at
    its maximum, and a larger score stays larger. *)
Theorem normalised_row_spans_the_unit_interval (xs : list R) (a b : R) :
  In a xs -> In b xs -> a <> b ->
  exists ys : list R,
    normalize_row (map Fin xs) = Some (map Fin ys) /\
    length ys = length xs /\
    Forall (fun y => 0 <= y <= 1) ys /\
    In 0 ys /\ In 1 ys /\
    (forall i j : nat,
        (i < length xs)%nat -> (j < length xs)%nat ->
        (nth i xs 0 < nth j xs 0 <-> nth i ys 0 < nth j ys 0)).
Proof.
  intros Ha Hb Hab.
  destruct (normalize_row_finite xs a b Ha Hb Hab)
    as (mn & mx & Hmn & Hmx & Hlt & Hall & Hrow).
  exists (map (fun x => (x - mn) / (mx - mn)) xs).
  assert (Hpos : 0 < / (mx - mn)) by (apply Rinv_0_lt_compat; lra).
  split; [exact Hrow |]. split; [apply length_map |]. split; [| split; [| split]].
  - apply Forall_forall. intros y Hy. apply in_map_iff in Hy.
    destruct Hy as (x & <- & Hx). rewrite Forall_forall in Hall.
    pose proof (Hall x Hx) as Hx'. unfold Rdiv. split.
    + apply Rmult_le_pos; lra.
    + apply Rmult_le_reg_r with (mx - mn); [lra |].
      rewrite Rmult_assoc, Rinv_l by lra. lra.
  - apply in_map_iff. exists mn. split; [| exact Hmn].
    unfold Rdiv. replace (mn - mn) with 0 by lra. apply Rmult_0_l.
  - apply in_map_iff. exists mx. split; [| exact Hmx].
    unfold Rdiv. apply Rinv_r. lra.
  - intros i j Hi Hj.
    rewrite (nth_map_in_range (fun x => (x - mn) / (mx - mn)) xs i 0 0) by exact Hi.
    rewrite (nth_map_in_range (fun x => (x - mn) / (mx - mn)) xs j 0 0) by exact Hj.
    unfold Rdiv. split; intros H.
    + apply Rmult_lt_compat_r; lra.
    + apply Rmult_lt_reg_r in H; lra.
Qed.

(** The row [3, 1, 2] becomes [1, 0, 1/2]. *)
Lemma normalised_row_spans_the_unit_interval_witness :
  exists ys : list R,
    normalize_row (map Fin [3; 1; 2]) = Some (map Fin ys) /\
    length ys = 3%nat /\ In 0 ys /\ In 1 ys.
Proof.
  assert (Ha : In 3 [3; 1; 2]) by (simpl; auto).
  assert (Hb : In 1 [3; 1; 2]) by (simpl; auto).
  assert (Hab : 3 <> 1) by lra.
  destruct (normalised_row_spans_the_unit_interval [3; 1; 2] 3 1 Ha Hb Hab)
    as (ys & Hrow & Hlen & _ & H0 & H1 & _).
  exists ys. split; [exact Hrow |]. split; [exact Hlen |].
  split; [exact H0 | exact H1].
Defined.

(** X15.  Normalising such a row does not change which lines are
    selected: sorted in descending order, the normalised scores of the
    first [n] lines give the same indices, in the same order, as the raw
    scores. *)
Theorem normalisation_keeps_the_selected_lines (xs : list R) (a b : R) :
  In a xs -> In b xs -> a <> b ->
  exists row : tensor,
    normalize_row (map Fin xs) = Some row /\
    forall n : nat,
      snd (sort_desc (firstn n row)) = snd (sort_desc (firstn n (map Fin xs))).
Proof.
  intros Ha Hb Hab.
  destruct (normalize_row_finite xs a b Ha Hb Hab)
    as (mn & mx & _ & _ & Hlt & _ & Hrow).
  eexists. split; [exact Hrow |].
  intros n. rewrite !firstn_map.
  rewrite (sort_desc_increasing (fun x => (x - mn) / (mx - mn))).
  - rewrite sort_desc_finite. reflexivity.
  - intros u w Huw. unfold Rdiv. apply Rmult_lt_compat_r.
    + apply Rinv_0_lt_compat. lra.
    + lra.
Qed.

(** The row [3, 1, 2]: line 0 first, then line 2, then line 1. *)
Lemma normalisation_keeps_the_selected_lines_witness :
  exists row : tensor,
    normalize_row (map Fin [3; 1; 2]) = Some row /\
    snd (sort_desc (firstn 3 row)) = snd (sort_desc (firstn 3 (map Fin [3; 1; 2]))).
Proof.
  assert (Ha : In 3 [3; 1; 2]) by (simpl; auto).
  assert (Hb : In 1 [3; 1; 2]) by (simpl; auto).
  assert (Hab : 3 <> 1) by lra.
  destruct (normalisation_keeps_the_selected_lines [3; 1; 2] 3 1 Ha Hb Hab)
    as (row & Hrow & Hsel).
  exists row. split; [exact Hrow | apply Hsel].
Defined.

(* ================================================================= *)
(** ** Files of five to nine lines *)

Lemma rank_of_single (g : R) : rank_of [g] 0 = 1%nat.
Proof.
  unfold rank_of, enumerate. cbn [length seq combine filter nth].
  replace (comes_before_b (g, 0%nat) (g, 0%nat)) with false; [reflexivity |].
  symmetry. destruct (comes_before_b (g, 0%nat) (g, 0%nat)) eqn:Hc;
    [| reflexivity].
  apply comes_before_b_spec in Hc. unfold comes_before in Hc.
  cbn [fst snd] in Hc. destruct Hc as [Hc | [_ Hc]]; [lra | lia].
Qed.

Lemma log2_2 : log2 2 = 1.
Proof. unfold log2. apply Rinv_r. pose proof ln_2_pos. lra. Qed.

Lemma line_rank_divergence_single (p g epsilon : R) :
  0 <= epsilon ->
  line_rank_divergence (mid_code epsilon) [p] [g] = - log2 (1 + epsilon / 2).
Proof.
  intros He. unfold line_rank_divergence, KL, sum_over.
  cbn [length seq map Rsum fold_right].
  assert (Hsm : forall x : R, softmax_at [x] 0 = 1).
  { intros x. unfold softmax_at. cbn [nth map Rsum fold_right].
    pose proof (exp_pos x). field. lra. }
  rewrite !Hsm.
  assert (Hd : discount_at [g] 0 = 1).
  { unfold discount_at. rewrite rank_of_single, INR_1.
    replace (1 + 1) with 2 by lra. rewrite log2_2. lra. }
  rewrite Hd. unfold mid_code.
  replace (1 / 2 * (1 + 1 + epsilon)) with (1 + epsilon / 2) by lra.
  assert (Hl : log2 (1 / (1 + epsilon / 2)) = - log2 (1 + epsilon / 2)).
  { unfold log2. unfold Rdiv at 2. rewrite Rmult_1_l.
    rewrite ln_Rinv by lra. lra. }
  rewrite Hl. lra.
Qed.

(** X16.  For a file of five to nine lines a single line is selected, and
    then the line loss does not depend on the attention nor on the labels:
    both softmaxes are the one-point distribution, and the loss is the
    constant [- log2(1 + epsilon / 2)], a little below zero. *)
Theorem short_files_have_a_constant_line_loss (att line_label : list R) :
  (5 <= length line_label < 10)%nat -> att <> [] ->
  top_k (length line_label) = 1%nat /\
  example_line_loss (map Fin att) (map Fin line_label)
  = Some (Fin (- log2 (1 + epsilon_default / 2))) /\
  - log2 (1 + epsilon_default / 2) < 0.
Proof.
  intros Hlen Hatt.
  assert (Hk : top_k (length line_label) = 1%nat).
  { rewrite top_k_div5.
    symmetry.
    apply Nat.div_unique with (r := (length line_label - 5)%nat); lia. }
  split; [exact Hk |].
  pose proof epsilon_default_pos as Heps.
  split.
  - destruct (example_line_loss_finite att line_label)
      as (_ & _ & Hpg & Hp & Hloss).
    rewrite Hloss. do 2 f_equal.
    rewrite Hk in Hp, Hpg |- *.
    set (pred := firstn 1 (map fst (sort_by desc_before
                   (enumerate (firstn (length line_label) att))))) in *.
    set (gt := map (fun i => nth i line_label 0)
                 (firstn 1 (map snd (sort_by desc_before
                   (enumerate (firstn (length line_label) att)))))) in *.
    assert (Hone : length pred = 1%nat).
    { rewrite Hp. destruct att; [contradiction |]. simpl length. lia. }
    destruct pred as [| p [| p' pred]]; try discriminate.
    destruct gt as [| g [| g' gt]]; try discriminate.
    apply line_rank_divergence_single. lra.
  - assert (H : 0 < log2 (1 + epsilon_default / 2)).
    { rewrite <- log2_1. apply log2_increasing; lra. }
    lra.
Qed.

(** A file of five lines. *)
Lemma short_files_have_a_constant_line_loss_witness :
  example_line_loss (map Fin [1; 0; 1 / 2; 0; 0]) (map Fin [0; 0; 1; 0; 0])
  = Some (Fin (- log2 (1 + epsilon_default / 2))).
Proof.
  assert (Hlen : (5 <= length [0; 0; 1; 0; 0] < 10)%nat) by (simpl; lia).
  assert (Hatt : [1; 0; 1 / 2; 0; 0] <> []) by discriminate.
  destruct (short_files_have_a_constant_line_loss
              [1; 0; 1 / 2; 0; 0] [0; 0; 1; 0; 0] Hlen Hatt) as (_ & H & _).
  exact H.
Defined.

(* ================================================================= *)
(** ** A probability that is exactly zero *)

Lemma zero_times_log_is_nan (q : scalar) :
  smul (Fin 0) (slog2 (sdiv (Fin 0) q)) = NaN.
Proof.
  destruct q as [y | | |]; cbn [sdiv].
  - unfold Reqb at 1. destruct (Req_dec_T y 0) as [Hy | Hy].
    + rewrite Reqb_true by reflexivity. reflexivity.
    + replace (0 / y) with 0 by (field; exact Hy).
      cbn [slog2]. rewrite Rltb_false by lra. rewrite Reqb_true by reflexivity.
      cbn [smul]. rewrite Reqb_true by reflexivity. reflexivity.
  - cbn [slog2]. rewrite Rltb_false by lra. rewrite Reqb_true by reflexivity.
    cbn [smul]. rewrite Reqb_true by reflexivity. reflexivity.
  - cbn [slog2]. rewrite Rltb_false by lra. rewrite Reqb_true by reflexivity.
    cbn [smul]. rewrite Reqb_true by reflexivity. reflexivity.
  - reflexivity.
Qed.

(** X17.  [kld] has no convention for [0 * log 0]: as soon as [p] holds an
    exact 0 at a position that [q] and the discounts also have, the term of
    that position is not a number, whatever [q] holds there, and so is the
    sum. *)
Theorem kld_of_a_zero_probability_is_nan (p q discounts : tensor) (i : nat) :
  nth_error p i = Some (Fin 0) ->
  (i < length q)%nat -> (i < length discounts)%nat ->
  kld p q discounts = NaN.
Proof.
  intros Hp Hq Hd. unfold kld. apply tsum_nan.
  destruct (nth_error q i) as [qi |] eqn:Hqi;
    [| apply nth_error_None in Hqi; lia].
  destruct (nth_error discounts i) as [di |] eqn:Hdi;
    [| apply nth_error_None in Hdi; lia].
  apply (nth_error_In _ i). unfold map2.
  rewrite nth_error_map.
  rewrite (nth_error_combine _ discounts i
             (smul (Fin 0) (slog2 (sdiv (Fin 0) qi))) di).
  - cbn [option_map fst snd]. rewrite zero_times_log_is_nan. reflexivity.
  - rewrite nth_error_map.
    rewrite (nth_error_combine p q i (Fin 0) qi Hp Hqi). reflexivity.
  - exact Hdi.
Qed.

(** The second of two probabilities is 0. *)
Lemma kld_of_a_zero_probability_is_nan_witness :
  kld [Fin 1; Fin 0] [Fin (1 / 2); Fin (1 / 2)] [Fin 1; Fin 1] = NaN.
Proof.
  apply (kld_of_a_zero_probability_is_nan
           [Fin 1; Fin 0] [Fin (1 / 2); Fin (1 / 2)] [Fin 1; Fin 1] 1).
  - reflexivity.
  - simpl. lia.
  - simpl. lia.
Defined.

(* ================================================================= *)
(** ** The selected lines *)

Lemma NoDup_firstn_of {A : Type} (n : nat) (l : list A) :
  NoDup l -> NoDup (firstn n l).
Proof.
  intros H. rewrite <- (firstn_skipn n l) in H.
  apply NoDup_app_remove_r in H. exact H.
Qed.

(** X18.  For every attention row and every label vector, of any lengths
    and with any values, the indices of the selected lines are pairwise
    different and lie inside both the label vector and the attention row,
    there are [min(len // 5, len, len(att))] of them with [len] the number
    of labels, and the lookup of their labels and the loss of the example
    never raise. *)
Theorem selected_lines_are_distinct_and_in_range (att line_label : tensor) :
  let sorted := sort_desc (firstn (length line_label) att) in
  let idx := firstn (top_k (length line_label)) (snd sorted) in
  NoDup idx /\
  Forall (fun i => (i < length line_label)%nat /\ (i < length att)%nat) idx /\
  length idx
  = Nat.min (length line_label / 5)
            (Nat.min (length line_label) (length att)) /\
  exists sel : tensor,
    index_select line_label idx = Some sel /\
    length sel = length idx /\
    example_line_loss att line_label
    = Some (jsd (firstn (top_k (length line_label)) (fst sorted)) sel
                epsilon_default).
Proof.
  intros sorted idx.
  pose proof (sort_desc_indices_perm (firstn (length line_label) att)) as Hperm.
  pose proof (sort_desc_indices_bound (firstn (length line_label) att)) as Hb.
  pose proof (sort_desc_lengths (firstn (length line_label) att)) as [_ Hl].
  fold sorted in Hperm, Hb, Hl.
  rewrite length_firstn in Hperm, Hb, Hl.
  assert (Hnd : NoDup idx).
  { unfold idx. apply NoDup_firstn_of.
    eapply Permutation_NoDup; [apply Permutation_sym; exact Hperm |].
    apply seq_NoDup. }
  assert (Hin : Forall (fun i => (i < length line_label)%nat
                                 /\ (i < length att)%nat) idx).
  { unfold idx. apply Forall_firstn.
    eapply Forall_impl; [| exact Hb]. intros i Hi. cbv beta in Hi. lia. }
  assert (Hlen : length idx
                 = Nat.min (length line_label / 5)
                     (Nat.min (length line_label) (length att))).
  { unfold idx. rewrite length_firstn, Hl, top_k_div5. reflexivity. }
  split; [exact Hnd |]. split; [exact Hin |]. split; [exact Hlen |].
  destruct (index_select_in_range line_label idx) as (sel & Hsel & Hsl).
  { eapply Forall_impl; [| exact Hin]. intros i [Hi _]. exact Hi. }
  exists sel. split; [exact Hsel |]. split; [exact Hsl |].
  unfold example_line_loss. fold sorted.
  destruct sorted as [vals idxs] eqn:Hs. cbn [fst snd] in *.
  unfold idx in Hsel. rewrite Hsel. reflexivity.
Qed.

Lemma StronglySorted_app_cross {A : Type} (R : A -> A -> Prop) (l1 l2 : list A) :
  StronglySorted R (l1 ++ l2) ->
  forall x y : A, In x l1 -> In y l2 -> R x y.
Proof.
  induction l1 as [| a l1 IH]; intros H x y Hx Hy; [destruct Hx |].
  cbn [app] in H. apply StronglySorted_inv in H. destruct H as [Hs Hall].
  destruct Hx as [<- | Hx].
  - rewrite Forall_forall in Hall. apply Hall. apply in_or_app. right. exact Hy.
  - apply IH; assumption.
Qed.

(** X19.  On finite scores the selection holds the largest ones: every
    selected line has a score at least as large as every line that is
    left out. *)
Theorem selected_lines_have_the_largest_scores (xs : list R) (k i j : nat) :
  In i (firstn k (snd (sort_desc (map Fin xs)))) ->
  In j (skipn k (snd (sort_desc (map Fin xs)))) ->
  nth j xs 0 <= nth i xs 0.
Proof.
  rewrite sort_desc_finite. cbn [snd].
  set (L := sort_by desc_before (enumerate xs)).
  rewrite firstn_map, skipn_map.
  intros Hi Hj.
  apply in_map_iff in Hi. destruct Hi as ([x s] & Hs & Hp).
  apply in_map_iff in Hj. destruct Hj as ([y t] & Ht & Hq).
  cbn [snd] in Hs, Ht. subst s t.
  assert (Hsorted : StronglySorted comes_before (firstn k L ++ skipn k L)).
  { rewrite firstn_skipn. unfold L, enumerate. apply sort_enumerate_sorted. }
  pose proof (StronglySorted_app_cross _ _ _ Hsorted _ _ Hp Hq) as Hpq.
  assert (Hval : forall (z : R) (s : nat), In (z, s) L -> nth s xs 0 = z).
  { intros z s Hz.
    assert (Hz' : In (z, s) (enumerate xs)).
    { eapply Permutation_in; [apply sort_by_perm | exact Hz]. }
    unfold enumerate in Hz'.
    destruct (in_enumerate xs 0 0 z s Hz') as [_ Hn].
    rewrite Nat.sub_0_r in Hn. exact Hn. }
  rewrite (Hval x i) by (rewrite <- (firstn_skipn k L); apply in_or_app; left; exact Hp).
  rewrite (Hval y j) by (rewrite <- (firstn_skipn k L); apply in_or_app; right; exact Hq).
  unfold comes_before in Hpq. cbn [fst snd] in Hpq.
  destruct Hpq as [Hlt | [Heq _]]; lra.
Qed.

(** Scores [1, 3, 2, 3] and two lines to select: lines 1 and 3 are taken,
    line 2 is left out. *)
Lemma selected_lines_have_the_largest_scores_witness :
  nth 2 [1; 3; 2; 3] 0 <= nth 3 [1; 3; 2; 3] 0.
Proof.
  assert (Hs : snd (sort_desc (map Fin [1; 3; 2; 3])) = [1; 3; 2; 0]%nat).
  { unfold sort_desc, enumerate, sort_by. simpl. real_dec. simpl.
    real_dec. simpl. real_dec. simpl. reflexivity. }
  apply (selected_lines_have_the_largest_scores [1; 3; 2; 3] 2 3 2).
  - rewrite Hs. simpl. auto.
  - rewrite Hs. simpl. auto.
Defined.

(* ================================================================= *)
(** ** The steps of one epoch *)

Section RunSteps.

Variable C : Collaborators.

Lemma heap_get_set_same (h : heap) (l : loc) (o o' : module_obj) :
  heap_get h l = Some o -> heap_get (heap_set h l o') l = Some o'.
Proof.
  revert l. induction h as [| x h IH]; intros l H.
  - destruct l; discriminate.
  - destruct l as [| l]; [reflexivity |]. simpl in *. apply IH. exact H.
Qed.

(** The statements of the body of the loop over epochs, one after the
    other, for an epoch that completes. *)
Lemma epoch_body_steps (args : Args) (weight_dict : dict)
      (x_train_vec x_valid_vec : list (example C)) (epoch : nat)
      (st st' : state C) :
  epoch_body C args weight_dict x_train_vec x_valid_vec epoch st = Ok st' ->
  exists (st1 : state C) (train_losses : tensor) (m : module_obj)
         (outputs outputs_labels : list tensor) (val_losses : tensor)
         (y_prob y_gt : tensor) (valid_auc : R) (st2 st3 : state C),
    train_loop C args weight_dict
               (DataLoader (shuffle C epoch x_train_vec) (args_batch_size args) true)
               st [] = Ok (st1, train_losses) /\
    heap_get (st_heap st1) model = Some m /\
    valid_loop C args (parameters m)
               (DataLoader x_valid_vec (args_batch_size args) false) [] [] []
    = Ok (outputs, outputs_labels, val_losses) /\
    torch_cat outputs = Some y_prob /\
    torch_cat outputs_labels = Some y_gt /\
    roc_auc_score C y_gt y_prob = Some valid_auc /\
    select_best C epoch valid_auc
      (with_metrics C
         {| train_loss_all_epochs :=
              train_loss_all_epochs (st_metrics st1) ++ [np_mean train_losses];
            val_loss_all_epochs :=
              val_loss_all_epochs (st_metrics st1) ++ [np_mean val_losses];
            val_auc_all_epochs :=
              val_auc_all_epochs (st_metrics st1) ++ [valid_auc] |} st1)
    = Ok st2 /\
    (if Nat.eqb (epoch mod args_num_epochs args) 0
     then save_checkpoint C st2 else Ok st2) = Ok st3 /\
    st' = emit C (EvSaveLossCsv C (loss_df (st_metrics st3))) st3.
Proof.
  unfold epoch_body. intros H.
  destruct (train_loop C args weight_dict _ st [])
    as [[st1 train_losses] | e] eqn:Htrain; [| discriminate].
  cbn [bind] in H. cbn [st_heap with_metrics] in H.
  destruct (heap_get (st_heap st1) model) as [m |] eqn:Hm; [| discriminate].
  cbn [bind of_option] in H.
  destruct (valid_loop C args (parameters m) _ [] [] [])
    as [[[outputs outputs_labels] val_losses] | e] eqn:Hvalid; [| discriminate].
  cbn [bind] in H.
  destruct (torch_cat outputs) as [y_prob |] eqn:Hprob; [| discriminate].
  cbn [bind of_option] in H.
  destruct (torch_cat outputs_labels) as [y_gt |] eqn:Hgt; [| discriminate].
  cbn [bind of_option] in H.
  destruct (roc_auc_score C y_gt y_prob) as [valid_auc |] eqn:Hauc;
    [| discriminate].
  cbn [bind of_option] in H.
  match type of H with
  | bind (select_best C epoch valid_auc ?s) _ = _ =>
      destruct (select_best C epoch valid_auc s) as [st2 | e] eqn:Hsel;
        [| discriminate]
  end.
  cbn [bind] in H.
  destruct (if Nat.eqb (epoch mod args_num_epochs args) 0
            then save_checkpoint C st2 else Ok st2) as [st3 | e] eqn:Hsave;
    [| discriminate].
  cbn [bind] in H. injection H as <-.
  exists st1, train_losses, m, outputs, outputs_labels, val_losses,
         y_prob, y_gt, valid_auc, st2, st3.
  repeat split; try assumption; reflexivity.
Qed.

End RunSteps.

(* ================================================================= *)
(** ** What the clipping finds *)

Lemma clip_grad_norm_zeros (g : list R) (max_norm : R) :
  Forall (fun x => x = 0) g -> clip_grad_norm_ g max_norm = g.
Proof.
  intros H. unfold clip_grad_norm_. cbv zeta.
  generalize (Rmin (max_norm / (sqrt (Rsum (map (fun g0 => g0 * g0) g))
                                + 1 / 1000000)) 1).
  intros c. induction H as [| x g -> _ IH]; [reflexivity |].
  cbn [map]. rewrite Rmult_0_l, IH. reflexivity.
Qed.

Section RunEdgeCases.

Variable C : Collaborators.

(** X20.  In every training iteration that completes, on any batch and
    with any collaborators, the optimiser steps on the gradient that
    [backward] left, unclipped; the call of [clip_grad_norm_] comes last
    and is given gradients that are all 0, so that it changes nothing,
    whatever [max_grad_norm]; and the iteration ends with all the
    gradients of the model at 0. *)
Theorem clipping_only_ever_sees_zero_gradients
        (args : Args) (weight_dict : dict) (batch : list (example C))
        (st st' : state C) (loss : scalar) :
  train_batch C args weight_dict batch st = Ok (st', loss) ->
  exists (m m' : module_obj) (g zeros : list R),
    heap_get (st_heap st) model = Some m /\
    heap_get (st_heap st') model = Some m' /\
    st_log st'
    = st_log st ++ [EvBackward C g;
                    EvOptimizerStep C (map2 Rplus (grad m) g);
                    EvZeroGrad C;
                    EvClipGradNorm C zeros] /\
    Forall (fun x => x = 0) zeros /\
    clip_grad_norm_ zeros (args_max_grad_norm args) = zeros /\
    grad m' = zeros /\
    parameters m'
    = snd (optimizer_step C (st_optimizer st) (parameters m)
                          (map2 Rplus (grad m) g)).
Proof.
  intros H. apply train_batch_effect in H.
  destruct H as (m & g & Hm & Hh & _ & _ & _ & Hlog). cbv zeta in Hh, Hlog.
  set (g_acc := map2 Rplus (grad m) g) in *.
  assert (Hz : Forall (fun x => x = 0) (map (fun _ : R => 0) g_acc)).
  { apply Forall_forall. intros x Hx. apply in_map_iff in Hx.
    destruct Hx as (y & <- & _). reflexivity. }
  pose proof (clip_grad_norm_zeros _ (args_max_grad_norm args) Hz) as Hclip.
  exists m. eexists. exists g, (map (fun _ : R => 0) g_acc).
  split; [exact Hm |]. split.
  { rewrite Hh. apply (heap_get_set_same _ _ m). exact Hm. }
  split; [exact Hlog |]. split; [exact Hz |]. split; [exact Hclip |].
  split; [exact Hclip | reflexivity].
Qed.

Lemma train_loop_clips_zeros (args : Args) (weight_dict : dict)
      (train_dl : list (list (example C))) :
  forall (st st' : state C) (losses losses' : tensor),
    train_loop C args weight_dict train_dl st losses = Ok (st', losses') ->
    exists evs : list (event C),
      st_log st' = st_log st ++ evs /\ Forall clips_zeros evs.
Proof.
  induction train_dl as [| batch rest IH]; intros st st' losses losses' H.
  - simpl in H. injection H as <- _. exists []. rewrite app_nil_r.
    split; [reflexivity | constructor].
  - simpl in H.
    destruct (train_batch C args weight_dict batch st) as [[st1 l] | e] eqn:Hb;
      [| discriminate].
    cbn [bind] in H.
    apply train_batch_effect in Hb.
    destruct Hb as (m & g & _ & _ & _ & _ & _ & Hlog1). cbv zeta in Hlog1.
    destruct (IH _ _ _ _ H) as (evs & Hlog & Hevs).
    eexists. split.
    + rewrite Hlog, Hlog1, <- app_assoc. reflexivity.
    + apply Forall_app. split; [| exact Hevs].
      repeat constructor. cbn [clips_zeros].
      apply Forall_forall. intros x Hx. apply in_map_iff in Hx.
      destruct Hx as (y & <- & _). reflexivity.
Qed.

Lemma epoch_body_clips_zeros (args : Args) (weight_dict : dict)
      (x_train_vec x_valid_vec : list (example C)) (epoch : nat)
      (st st' : state C) :
  epoch_body C args weight_dict x_train_vec x_valid_vec epoch st = Ok st' ->
  exists evs : list (event C),
    st_log st' = st_log st ++ evs /\ Forall clips_zeros evs.
Proof.
  intros H. apply epoch_body_steps in H.
  destruct H as (st1 & tls & m & outs & labs & vls & y_prob & y_gt & auc
                 & st2 & st3 & Htrain & _ & _ & _ & _ & _ & Hsel & Hsave & ->).
  apply train_loop_clips_zeros in Htrain. destruct Htrain as (evs1 & Hl1 & He1).
  apply select_best_effect in Hsel. destruct Hsel as (_ & _ & Hsel).
  cbn [st_log with_metrics st_heap st_selector] in Hsel.
  assert (H2 : exists evs2, st_log st2 = st_log st1 ++ evs2
                            /\ Forall clips_zeros evs2).
  { destruct Hsel as [(_ & m' & _ & _ & _ & Hl) | (_ & ->)].
    - eexists. split; [exact Hl |]. repeat constructor.
    - exists []. cbn [st_log with_metrics]. rewrite app_nil_r.
      split; [reflexivity | constructor]. }
  destruct H2 as (evs2 & Hl2 & He2).
  assert (H3 : exists evs3, st_log st3 = st_log st2 ++ evs3
                            /\ Forall clips_zeros evs3).
  { destruct (Nat.eqb (epoch mod args_num_epochs args) 0).
    - apply save_checkpoint_effect in Hsave.
      destruct Hsave as (b & obj & _ & _ & ->).
      eexists. split; [reflexivity |]. repeat constructor.
    - injection Hsave as <-. exists []. rewrite app_nil_r.
      split; [reflexivity | constructor]. }
  destruct H3 as (evs3 & Hl3 & He3).
  exists (evs1 ++ evs2 ++ evs3 ++ [EvSaveLossCsv C (loss_df (st_metrics st3))]).
  split.
  - cbn [st_log emit]. rewrite Hl3, Hl2, Hl1, <- !app_assoc. reflexivity.
  - repeat (apply Forall_app; split); try assumption. repeat constructor.
Qed.

Lemma epoch_loop_clips_zeros (args : Args) (weight_dict : dict)
      (x_train_vec x_valid_vec : list (example C)) (epochs : list nat) :
  forall st st' : state C,
    epoch_loop C args weight_dict x_train_vec x_valid_vec epochs st = Ok st' ->
    exists evs : list (event C),
      st_log st' = st_log st ++ evs /\ Forall clips_zeros evs.
Proof.
  induction epochs as [| e epochs IH]; intros st st' H.
  - simpl in H. injection H as <-. exists []. rewrite app_nil_r.
    split; [reflexivity | constructor].
  - simpl in H.
    destruct (epoch_body C args weight_dict x_train_vec x_valid_vec e st)
      as [st1 | err] eqn:Hb; [| discriminate].
    cbn [bind] in H.
    apply epoch_body_clips_zeros in Hb. destruct Hb as (evs1 & Hl1 & He1).
    destruct (IH _ _ H) as (evs & Hl & He).
    exists (evs1 ++ evs). split.
    + rewrite Hl, Hl1, <- app_assoc. reflexivity.
    + apply Forall_app. split; assumption.
Qed.

(** X21.  In a run that completes, no call of [clip_grad_norm_] was ever
    given a gradient that is not 0: over all batches and all epochs, the
    clipping never changed anything. *)
Theorem no_gradient_is_ever_clipped
        (args : Args) (theta0 : list R) (opt0 : opt_state C)
        (train_code3d : list (input C)) (train_label : list nat)
        (train_line_label : list tensor)
        (valid_code3d : list (input C)) (valid_label : list nat)
        (valid_line_label : list tensor) (st : state C) :
  train_model C args theta0 opt0 train_code3d train_label train_line_label
              valid_code3d valid_label valid_line_label = Ok st ->
  Forall clips_zeros (st_log st).
Proof.
  rewrite train_model_unfold. intros H.
  destruct (make_weight_dict train_label) as [wd |]; [| discriminate].
  cbn [bind of_option] in H.
  apply epoch_loop_clips_zeros in H. destruct H as (evs & Hl & He).
  rewrite Hl. apply Forall_app. split; [| exact He].
  cbn [st_log initial_state]. repeat constructor.
Qed.

End RunEdgeCases.

(** One iteration of the small instance, whose loss has the gradient
    [30, 40]. *)
Lemma clipping_only_ever_sees_zero_gradients_witness :
  exists (st' : state toy) (loss : scalar) (m' : module_obj),
    train_batch toy toy_args toy_weight_dict toy_batch
                (emit toy (EvClassWeight toy [])
                      (initial_state toy [0; 0] 0%nat)) = Ok (st', loss) /\
    heap_get (st_heap st') model = Some m' /\
    Forall (fun x => x = 0) (grad m').
Proof.
  assert (Hbs : (0 < args_batch_size toy_args)%nat) by (simpl; lia).
  assert (Hh : (0 < length (st_heap (emit toy (EvClassWeight toy [])
                                          (initial_state toy [0%R; 0%R] 0%nat))))%nat)
    by (simpl; lia).
  destruct (train_batch_total toy toy_args toy_weight_dict 1 2 toy_batch
              (emit toy (EvClassWeight toy []) (initial_state toy [0; 0] 0%nat))
              toy_well_behaved eq_refl eq_refl Hbs eq_refl Hh)
    as (st' & loss & Hrun).
  destruct (clipping_only_ever_sees_zero_gradients toy toy_args toy_weight_dict
              toy_batch _ st' loss Hrun)
    as (m & m' & g & zeros & _ & Hm' & _ & Hz & _ & Hg & _).
  exists st', loss, m'. split; [exact Hrun |]. split; [exact Hm' |].
  rewrite Hg. exact Hz.
Defined.

(** Two epochs of the small instance. *)
Lemma no_gradient_is_ever_clipped_witness :
  exists st : state toy,
    train_model toy toy_args [0; 0] 0%nat
                [7%nat] [0%nat] [[Fin 0; Fin 0]]
                [8%nat] [1%nat] [[Fin 0; Fin 1]] = Ok st /\
    Forall clips_zeros (st_log st).
Proof.
  assert (Hbs : (0 < args_batch_size toy_args)%nat) by (simpl; lia).
  assert (Hne : [0%nat] <> []) by discriminate.
  destruct (train_model_total toy toy_args [0; 0] 0%nat
              [7%nat] [0%nat] [[Fin 0; Fin 0]]
              8%nat [] 1%nat [] [Fin 0; Fin 1] []
              toy_well_behaved Hbs Hne) as (st & Hst).
  exists st. split; [exact Hst |].
  exact (no_gradient_is_ever_clipped toy toy_args [0; 0] 0%nat
           [7%nat] [0%nat] [[Fin 0; Fin 0]]
           [8%nat] [1%nat] [[Fin 0; Fin 1]] st Hst).
Defined.

(* ================================================================= *)
(** ** Runs at the boundary: no epoch, no validation file, too few
       training files *)

Lemma valid_loader_concat {A : Type} (dataset : list A) (bs : nat) :
  (0 < bs)%nat -> concat (DataLoader dataset bs false) = dataset.
Proof.
  intros Hbs. rewrite DataLoader_batches.
  destruct (batch_sampler_drop bs dataset Hbs [] Hbs) as (_ & _ & HC).
  pose proof (batch_sampler_keep bs dataset Hbs [] Hbs) as HK.
  simpl in HC, HK. rewrite HK, concat_app, HC.
  destruct (Nat.eqb (length dataset mod bs) 0) eqn:E.
  - apply Nat.eqb_eq in E. simpl. rewrite app_nil_r.
    apply firstn_all2. rewrite (Nat.div_mod_eq (length dataset) bs) at 1. lia.
  - simpl. rewrite app_nil_r. apply firstn_skipn.
Qed.

Lemma train_loader_empty {A : Type} (dataset : list A) (bs : nat) :
  (length dataset < bs)%nat -> DataLoader dataset bs true = [].
Proof.
  intros H. rewrite DataLoader_batches.
  assert (Hbs : (0 < bs)%nat) by lia.
  destruct (batch_sampler_drop bs dataset Hbs [] Hbs) as (_ & HL & _).
  simpl in HL. rewrite Nat.div_small in HL by exact H.
  destruct (batch_sampler bs true dataset []); [reflexivity | discriminate].
Qed.

Lemma np_mean_nil : np_mean [] = NaN.
Proof. unfold np_mean, tmean. simpl. apply sdiv_zero_zero; reflexivity. Qed.

Lemma training_events_no_table {C : Collaborators} (evs : list (event C)) :
  Forall training_event evs -> csv_tables evs = [].
Proof.
  induction 1 as [| e evs He _ IH]; [reflexivity |].
  cbn [csv_tables flat_map]. fold (csv_tables evs). rewrite IH.
  destruct e; try reflexivity; destruct He.
Qed.

Lemma csv_tables_app {C : Collaborators} (l1 l2 : list (event C)) :
  csv_tables (l1 ++ l2) = csv_tables l1 ++ csv_tables l2.
Proof. unfold csv_tables. apply flat_map_app. Qed.

Section RunBoundaries.

Variable C : Collaborators.

(** X22.  With [num_epochs = 0] and a training set that is not empty (the
    training loader, built before the loop, refuses an empty one), the loop
    over epochs has no iteration: the run completes, the class weights are
    its only trace, no table of losses and no checkpoint is written, no
    best model is chosen, and the model stays as it was built. *)
Theorem zero_epochs_write_nothing
        (args : Args) (theta0 : list R) (opt0 : opt_state C)
        (train_code3d : list (input C)) (train_label : list nat)
        (train_line_label : list tensor)
        (valid_code3d : list (input C)) (valid_label : list nat)
        (valid_line_label : list tensor) :
  args_num_epochs args = 0%nat ->
  train_code3d <> [] -> train_label <> [] -> train_line_label <> [] ->
  exists st : state C,
    train_model C args theta0 opt0 train_code3d train_label train_line_label
                valid_code3d valid_label valid_line_label = Ok st /\
    st_log st
    = [EvClassWeight C
         (compute_class_weight (np_unique train_label) train_label)] /\
    best_model (st_selector st) = None /\
    heap_get (st_heap st) model
    = Some {| parameters := theta0; grad := map (fun _ => 0) theta0 |}.
Proof.
  intros HN _ Hne _. rewrite train_model_unfold.
  destruct (make_weight_dict_total train_label Hne) as (wd & ->).
  cbn [bind of_option]. rewrite HN. cbn [seq epoch_loop].
  eexists. split; [reflexivity |]. repeat split.
Qed.

Lemma epoch_body_empty_validation (args : Args) (weight_dict : dict)
      (x_train_vec : list (example C)) (epoch : nat) (st : state C) :
  exists e : exn,
    epoch_body C args weight_dict x_train_vec [] epoch st = Raise e.
Proof.
  destruct (epoch_body C args weight_dict x_train_vec [] epoch st)
    as [st' | e] eqn:H; [| exists e; reflexivity].
  exfalso. apply epoch_body_steps in H.
  destruct H as (st1 & tls & m & outs & labs & vls & y_prob & y_gt & auc
                 & st2 & st3 & _ & _ & Hvalid & Hcat & _).
  cbn in Hvalid. injection Hvalid as <- _ _. discriminate.
Qed.

(** X23.  With no validation file a run of at least one epoch never
    completes, whatever the rest of the data.  When the collaborators are
    well behaved, the batch size is positive and the training set is not
    empty, the first epoch trains on all its batches, and then [torch.cat]
    is given an empty list of outputs: the run ends with its
    [RuntimeError]. *)
Theorem empty_validation_set_stops_the_run
        (args : Args) (theta0 : list R) (opt0 : opt_state C)
        (train_code3d : list (input C)) (train_label : list nat)
        (train_line_label : list tensor)
        (valid_label : list nat) (valid_line_label : list tensor) :
  (1 <= args_num_epochs args)%nat ->
  (exists e : exn,
      train_model C args theta0 opt0 train_code3d train_label train_line_label
                  [] valid_label valid_line_label = Raise e) /\
  (well_behaved C -> (0 < args_batch_size args)%nat ->
   train_code3d <> [] -> train_label <> [] -> train_line_label <> [] ->
   train_model C args theta0 opt0 train_code3d train_label train_line_label
               [] valid_label valid_line_label = Raise RuntimeError).
Proof.
  intros HN.
  destruct (args_num_epochs args) as [| n] eqn:HNe; [lia |].
  split.
  - rewrite train_model_unfold.
    destruct (make_weight_dict train_label) as [wd |];
      [| exists ValueError; reflexivity].
    cbn [bind of_option]. rewrite HNe.
    change (TextDataset C [] valid_label valid_line_label) with (@nil (example C)).
    cbn [seq epoch_loop].
    destruct (epoch_body_empty_validation args wd
                (TextDataset C train_code3d train_label train_line_label) 1
                (emit C (EvClassWeight C
                           (compute_class_weight (np_unique train_label)
                                                 train_label))
                      (initial_state C theta0 opt0)))
      as (e & ->).
    exists e. reflexivity.
  - intros Hwb Hbs _ Hne _. rewrite train_model_unfold.
    destruct (make_weight_dict_total train_label Hne) as (wd & Hwd).
    rewrite Hwd. cbn [bind of_option]. rewrite HNe.
    change (TextDataset C [] valid_label valid_line_label) with (@nil (example C)).
    cbn [seq epoch_loop].
    destruct (make_weight_dict_keys train_label wd Hwd) as (wc & wdf & Hc & Hd).
    set (st0 := emit C (EvClassWeight C
                          (compute_class_weight (np_unique train_label)
                                                train_label))
                     (initial_state C theta0 opt0)).
    set (x_train := TextDataset C train_code3d train_label train_line_label).
    assert (Hh0 : (0 < length (st_heap st0))%nat) by (simpl; lia).
    destruct (train_loop_total C args wd wc wdf
                (DataLoader (shuffle C 1 x_train) (args_batch_size args) true)
                Hwb Hc Hd Hbs
                (train_loader_batches_full _ _ Hbs) st0 [] Hh0)
      as (st1 & tls & Htrain).
    pose proof (train_loop_trains C _ _ _ _ _ _ _ Htrain) as (_ & _ & Hlen & _).
    assert (Hm : exists m, heap_get (st_heap st1) model = Some m).
    { unfold heap_get, model. destruct (st_heap st1) as [| m h].
      - simpl in Hlen. lia.
      - exists m. reflexivity. }
    destruct Hm as (m & Hm).
    unfold epoch_body. rewrite Htrain. cbn [bind].
    cbn [st_heap with_metrics]. rewrite Hm. cbn [bind of_option].
    reflexivity.
Qed.

Lemma heap_get_model_app (h : heap) (m a : module_obj) :
  heap_get h model = Some m -> heap_get (h ++ [a]) model = Some m.
Proof. apply heap_get_app_old. Qed.

Lemma select_best_keeps_model (epoch : nat) (valid_auc : R) (st st' : state C)
      (m : module_obj) :
  heap_get (st_heap st) model = Some m ->
  select_best C epoch valid_auc st = Ok st' ->
  heap_get (st_heap st') model = Some m /\
  st_optimizer st' = st_optimizer st /\
  st_metrics st' = st_metrics st /\
  exists evs : list (event C),
    st_log st' = st_log st ++ evs /\
    Forall (fun e => ~ training_event e) evs /\
    csv_tables evs = [].
Proof.
  intros Hm H. apply select_best_effect in H.
  destruct H as (Ho & Hmt & [(_ & m' & Hm' & Hh & _ & Hl) | (_ & ->)]).
  - split; [rewrite Hh; apply heap_get_model_app; exact Hm |].
    split; [exact Ho |]. split; [exact Hmt |].
    eexists. split; [exact Hl |]. split; [| reflexivity].
    repeat constructor. intros F. exact F.
  - split; [exact Hm |]. split; [reflexivity |]. split; [reflexivity |].
    exists []. rewrite app_nil_r. split; [reflexivity |].
    split; [constructor | reflexivity].
Qed.

Lemma maybe_save_keeps_model (cond : bool) (st st' : state C) :
  (if cond then save_checkpoint C st else Ok st) = Ok st' ->
  st_heap st' = st_heap st /\
  st_optimizer st' = st_optimizer st /\
  st_metrics st' = st_metrics st /\
  st_selector st' = st_selector st /\
  exists evs : list (event C),
    st_log st' = st_log st ++ evs /\
    Forall (fun e => ~ training_event e) evs /\
    csv_tables evs = [].
Proof.
  intros H. destruct cond.
  - apply save_checkpoint_effect in H. destruct H as (b & obj & _ & _ & ->).
    repeat split. eexists. split; [reflexivity |]. split; [| reflexivity].
    repeat constructor. intros F. exact F.
  - injection H as <-. repeat split. exists []. rewrite app_nil_r.
    split; [reflexivity |]. split; [constructor | reflexivity].
Qed.

Lemma small_train_epoch_body (args : Args) (weight_dict : dict)
      (x_train_vec x_valid_vec : list (example C)) (epoch : nat)
      (st st' : state C) :
  (forall (e : nat) (d : list (example C)),
      length (shuffle C e d) = length d) ->
  (length x_train_vec < args_batch_size args)%nat ->
  epoch_body C args weight_dict x_train_vec x_valid_vec epoch st = Ok st' ->
  train_loss_all_epochs (st_metrics st')
  = train_loss_all_epochs (st_metrics st) ++ [NaN] /\
  heap_get (st_heap st') model = heap_get (st_heap st) model /\
  st_optimizer st' = st_optimizer st /\
  exists evs : list (event C),
    st_log st' = st_log st ++ evs /\
    Forall (fun e => ~ training_event e) evs.
Proof.
  intros Hshuffle Hsmall H. apply epoch_body_steps in H.
  destruct H as (st1 & tls & m & outs & labs & vls & y_prob & y_gt & auc
                 & st2 & st3 & Htrain & Hm & _ & _ & _ & _ & Hsel & Hsave & ->).
  rewrite train_loader_empty in Htrain by (rewrite Hshuffle; exact Hsmall).
  cbn [train_loop] in Htrain. injection Htrain as <- <-.
  rewrite np_mean_nil in Hsel.
  eapply select_best_keeps_model in Hsel; [| exact Hm].
  destruct Hsel as (Hm2 & Ho2 & Hmt2 & evs2 & Hl2 & He2 & _).
  apply maybe_save_keeps_model in Hsave.
  destruct Hsave as (Hh3 & Ho3 & Hmt3 & _ & evs3 & Hl3 & He3 & _).
  cbn [st_heap st_optimizer st_metrics st_log emit].
  cbn [st_heap st_optimizer st_metrics st_log with_metrics] in Hm2, Ho2, Hmt2, Hl2.
  split; [rewrite Hmt3, Hmt2; reflexivity |].
  split; [rewrite Hh3, Hm2, Hm; reflexivity |].
  split; [rewrite Ho3, Ho2; reflexivity |].
  exists (evs2 ++ evs3 ++ [EvSaveLossCsv C (loss_df (st_metrics st3))]).
  split.
  - rewrite Hl3, Hl2, <- !app_assoc. reflexivity.
  - repeat (apply Forall_app; split); try assumption.
    repeat constructor. intros F. exact F.
Qed.

Lemma small_train_epoch_loop (args : Args) (weight_dict : dict)
      (x_train_vec x_valid_vec : list (example C)) (epochs : list nat) :
  (forall (e : nat) (d : list (example C)),
      length (shuffle C e d) = length d) ->
  (length x_train_vec < args_batch_size args)%nat ->
  forall st st' : state C,
    epoch_loop C args weight_dict x_train_vec x_valid_vec epochs st = Ok st' ->
    train_loss_all_epochs (st_metrics st')
    = train_loss_all_epochs (st_metrics st) ++ repeat NaN (length epochs) /\
    heap_get (st_heap st') model = heap_get (st_heap st) model /\
    st_optimizer st' = st_optimizer st /\
    exists evs : list (event C),
      st_log st' = st_log st ++ evs /\
      Forall (fun e => ~ training_event e) evs.
Proof.
  intros Hshuffle Hsmall.
  induction epochs as [| e epochs IH]; intros st st' H.
  - simpl in H. injection H as <-. simpl. rewrite app_nil_r.
    repeat split. exists []. rewrite app_nil_r.
    split; [reflexivity | constructor].
  - simpl in H.
    destruct (epoch_body C args weight_dict x_train_vec x_valid_vec e st)
      as [st1 | err] eqn:Hb; [| discriminate].
    cbn [bind] in H.
    apply small_train_epoch_body in Hb; try assumption.
    destruct Hb as (Ht1 & Hm1 & Ho1 & evs1 & Hl1 & He1).
    destruct (IH _ _ H) as (Ht & Hm & Ho & evs & Hl & He).
    split; [rewrite Ht, Ht1, <- app_assoc; reflexivity |].
    split; [congruence |]. split; [congruence |].
    exists (evs1 ++ evs). split.
    + rewrite Hl, Hl1, <- app_assoc. reflexivity.
    + apply Forall_app. split; assumption.
Qed.

(** X24.  When the training set is not empty but has fewer files than a
    batch, the training loader has no batch at all: in a run that
    completes, the training loss recorded for every epoch is not a number
    (the mean of an empty list), [backward] and the optimiser are never
    called, and the model and the state of the optimiser are at the end
    what they were at the start. *)
Theorem too_small_training_set_never_trains
        (args : Args) (weight_dict : dict)
        (x_train_vec x_valid_vec : list (example C))
        (theta0 : list R) (opt0 : opt_state C) (sample_weights : list R)
        (st : state C) :
  (forall (e : nat) (d : list (example C)),
      length (shuffle C e d) = length d) ->
  x_train_vec <> [] ->
  (length x_train_vec < args_batch_size args)%nat ->
  epoch_loop C args weight_dict x_train_vec x_valid_vec
             (seq 1 (args_num_epochs args))
             (emit C (EvClassWeight C sample_weights)
                   (initial_state C theta0 opt0)) = Ok st ->
  train_loss_all_epochs (st_metrics st) = repeat NaN (args_num_epochs args) /\
  heap_get (st_heap st) model
  = Some {| parameters := theta0; grad := map (fun _ => 0) theta0 |} /\
  st_optimizer st = opt0 /\
  Forall (fun e => ~ training_event e) (st_log st).
Proof.
  intros Hshuffle _ Hsmall H.
  apply small_train_epoch_loop in H; try assumption.
  destruct H as (Ht & Hm & Ho & evs & Hl & He).
  rewrite length_seq in Ht.
  split; [exact Ht |]. split; [exact Hm |]. split; [exact Ho |].
  rewrite Hl. apply Forall_app. split; [| exact He].
  cbn [st_log initial_state]. repeat constructor. intros F. exact F.
Qed.

End RunBoundaries.

(** No epoch on the small instance. *)
Lemma zero_epochs_write_nothing_witness :
  exists st : state toy,
    train_model toy
                {| args_batch_size := 1; args_num_epochs := 0; args_k := 1 / 5;
                   args_max_grad_norm := 5 |}
                [0; 0] 0%nat [7%nat] [0%nat] [[Fin 0; Fin 0]]
                [8%nat] [1%nat] [[Fin 0; Fin 1]] = Ok st /\
    best_model (st_selector st) = None.
Proof.
  assert (Hc : [7%nat] <> []) by discriminate.
  assert (Hne : [0%nat] <> []) by discriminate.
  assert (Hl : [[Fin 0; Fin 0]] <> []) by discriminate.
  destruct (zero_epochs_write_nothing toy
              {| args_batch_size := 1; args_num_epochs := 0; args_k := 1 / 5;
                 args_max_grad_norm := 5 |}
              [0; 0] 0%nat [7%nat] [0%nat] [[Fin 0; Fin 0]]
              [8%nat] [1%nat] [[Fin 0; Fin 1]] eq_refl Hc Hne Hl)
    as (st & Hrun & _ & Hb & _).
  exists st. split; [exact Hrun | exact Hb].
Defined.

(** The small instance without a validation file. *)
Lemma empty_validation_set_stops_the_run_witness :
  train_model toy toy_args [0; 0] 0%nat [7%nat] [0%nat] [[Fin 0; Fin 0]]
              [] [] [] = Raise RuntimeError.
Proof.
  assert (HN : (1 <= args_num_epochs toy_args)%nat) by (simpl; lia).
  assert (Hbs : (0 < args_batch_size toy_args)%nat) by (simpl; lia).
  assert (Hc : [7%nat] <> []) by discriminate.
  assert (Hne : [0%nat] <> []) by discriminate.
  assert (Hl : [[Fin 0; Fin 0]] <> []) by discriminate.
  destruct (empty_validation_set_stops_the_run toy toy_args [0; 0] 0%nat
              [7%nat] [0%nat] [[Fin 0; Fin 0]] [] [] HN) as (_ & H).
  exact (H toy_well_behaved Hbs Hc Hne Hl).
Defined.

(** The small instance with batches of two files and a single training
    file. *)
Lemma too_small_training_set_never_trains_witness :
  exists st : state toy,
    epoch_loop toy
               {| args_batch_size := 2; args_num_epochs := 2; args_k := 1 / 5;
                  args_max_grad_norm := 5 |}
               toy_weight_dict
               (TextDataset toy [7%nat] [0%nat] [[Fin 0; Fin 0]])
               (TextDataset toy [8%nat] [1%nat] [[Fin 0; Fin 1]])
               [1; 2]%nat
               (emit toy (EvClassWeight toy [])
                     (initial_state toy [0; 0] 0%nat)) = Ok st /\
    train_loss_all_epochs (st_metrics st) = [NaN; NaN] /\
    heap_get (st_heap st) model
    = Some {| parameters := [0; 0]; grad := [0; 0] |}.
Proof.
  set (args := {| args_batch_size := 2; args_num_epochs := 2; args_k := 1 / 5;
                  args_max_grad_norm := 5 |}).
  assert (Hbs : (0 < args_batch_size args)%nat) by (simpl; lia).
  assert (Hv : TextDataset toy [8%nat] [1%nat] [[Fin 0; Fin 1]] <> []).
  { apply TextDataset_nonempty. }
  assert (Ht : TextDataset toy [7%nat] [0%nat] [[Fin 0; Fin 0]] <> []).
  { apply TextDataset_nonempty. }
  destruct (epoch_loop_total toy args toy_weight_dict 1 2
              (TextDataset toy [7%nat] [0%nat] [[Fin 0; Fin 0]])
              (TextDataset toy [8%nat] [1%nat] [[Fin 0; Fin 1]])
              (seq 1 (args_num_epochs args))
              toy_well_behaved eq_refl eq_refl Hbs Hv
              (emit toy (EvClassWeight toy []) (initial_state toy [0; 0] 0%nat))
              (initial_state_ready toy [0; 0] 0%nat [])) as (st & Hst).
  assert (Hshuffle : forall (e : nat) (d : list (example toy)),
             length (shuffle toy e d) = length d) by reflexivity.
  assert (Hsmall : (length (TextDataset toy [7%nat] [0%nat] [[Fin 0; Fin 0]])
                    < args_batch_size args)%nat) by (simpl; lia).
  destruct (too_small_training_set_never_trains toy args toy_weight_dict
              (TextDataset toy [7%nat] [0%nat] [[Fin 0; Fin 0]])
              (TextDataset toy [8%nat] [1%nat] [[Fin 0; Fin 1]])
              [0; 0] 0%nat [] st Hshuffle Ht Hsmall Hst) as (Hl & Hm & _).
  exists st. split; [exact Hst |]. split; [exact Hl | exact Hm].
Defined.

(* ================================================================= *)
(** ** The table of losses *)

Lemma combine_app_eq {A B : Type} (l1 l2 : list A) (l1' l2' : list B) :
  length l1 = length l1' ->
  combine (l1 ++ l2) (l1' ++ l2') = combine l1 l1' ++ combine l2 l2'.
Proof.
  revert l1'. induction l1 as [| x l1 IH]; intros [| y l1'] H;
    try discriminate; [reflexivity |].
  simpl. f_equal. apply IH. simpl in H. lia.
Qed.

Lemma loss_df_snoc (m : metrics) (n : nat) (a b : scalar) (c : R) :
  table_of m n ->
  let m' := {| train_loss_all_epochs := train_loss_all_epochs m ++ [a];
               val_loss_all_epochs := val_loss_all_epochs m ++ [b];
               val_auc_all_epochs := val_auc_all_epochs m ++ [c] |} in
  loss_df m' = loss_df m ++ [(S n, a, b, c)] /\ table_of m' (S n).
Proof.
  intros (Ht & Hv & Ha & Hl & Hc) m'.
  assert (Heq : loss_df m' = loss_df m ++ [(S n, a, b, c)]).
  { unfold loss_df, m'.
    cbn [train_loss_all_epochs val_loss_all_epochs val_auc_all_epochs].
    rewrite length_app, Ht. cbn [length].
    replace (n + 1)%nat with (S n) by lia. rewrite seq_S.
    rewrite (combine_app_eq (seq 1 n)) by (rewrite length_seq; lia).
    rewrite (combine_app_eq (combine (seq 1 n) (train_loss_all_epochs m)))
      by (rewrite length_combine, length_seq; lia).
    rewrite (combine_app_eq
               (combine (combine (seq 1 n) (train_loss_all_epochs m))
                        (val_loss_all_epochs m)))
      by (rewrite !length_combine, length_seq; lia).
    reflexivity. }
  split; [exact Heq |].
  unfold table_of. rewrite Heq. unfold m'.
  cbn [train_loss_all_epochs val_loss_all_epochs val_auc_all_epochs].
  rewrite !length_app, map_app, Hc, Ht, Hv, Ha, Hl. cbn [length map fst].
  rewrite seq_S. repeat split; lia || reflexivity.
Qed.

Section LossTable.

Variable C : Collaborators.

Lemma epoch_body_table (args : Args) (weight_dict : dict)
      (x_train_vec x_valid_vec : list (example C)) (epoch : nat)
      (st st' : state C) :
  epoch_body C args weight_dict x_train_vec x_valid_vec epoch st = Ok st' ->
  exists (a b : scalar) (c : R) (pre : list (event C)),
    st_metrics st'
    = {| train_loss_all_epochs := train_loss_all_epochs (st_metrics st) ++ [a];
         val_loss_all_epochs := val_loss_all_epochs (st_metrics st) ++ [b];
         val_auc_all_epochs := val_auc_all_epochs (st_metrics st) ++ [c] |} /\
    st_log st'
    = st_log st ++ pre ++ [EvSaveLossCsv C (loss_df (st_metrics st'))] /\
    csv_tables pre = [].
Proof.
  intros H. apply epoch_body_steps in H.
  destruct H as (st1 & tls & m & outs & labs & vls & y_prob & y_gt & auc
                 & st2 & st3 & Htrain & Hm & _ & _ & _ & _ & Hsel & Hsave & ->).
  apply train_loop_trains in Htrain.
  destruct Htrain as (_ & Hmt1 & _ & _ & evs1 & Hl1 & He1).
  eapply select_best_keeps_model in Hsel; [| exact Hm].
  destruct Hsel as (_ & _ & Hmt2 & evs2 & Hl2 & _ & Hc2).
  apply maybe_save_keeps_model in Hsave.
  destruct Hsave as (_ & _ & Hmt3 & _ & evs3 & Hl3 & _ & Hc3).
  cbn [st_metrics st_log with_metrics] in Hmt2, Hl2.
  exists (np_mean tls), (np_mean vls), auc, (evs1 ++ evs2 ++ evs3).
  cbn [st_metrics st_log emit].
  split; [rewrite Hmt3, Hmt2, Hmt1; reflexivity |]. split.
  - rewrite Hl3, Hl2, Hl1, <- !app_assoc. reflexivity.
  - rewrite !csv_tables_app, Hc2, Hc3.
    rewrite (training_events_no_table _ He1). reflexivity.
Qed.

Lemma epoch_loop_table (args : Args) (weight_dict : dict)
      (x_train_vec x_valid_vec : list (example C)) (epochs : list nat) :
  forall (st st' : state C) (n : nat),
    table_of (st_metrics st) n ->
    epoch_loop C args weight_dict x_train_vec x_valid_vec epochs st = Ok st' ->
    table_of (st_metrics st') (n + length epochs) /\
    firstn n (loss_df (st_metrics st')) = loss_df (st_metrics st) /\
    exists evs : list (event C),
      st_log st' = st_log st ++ evs /\
      csv_tables evs
      = map (fun i => firstn (n + i) (loss_df (st_metrics st')))
            (seq 1 (length epochs)).
Proof.
  induction epochs as [| e epochs IH]; intros st st' n Hn H.
  - simpl in H. injection H as <-. rewrite Nat.add_0_r.
    split; [exact Hn |]. split.
    + apply firstn_all2. destruct Hn as (_ & _ & _ & Hl & _). lia.
    + exists []. rewrite app_nil_r. split; reflexivity.
  - simpl in H.
    destruct (epoch_body C args weight_dict x_train_vec x_valid_vec e st)
      as [st1 | err] eqn:Hb; [| discriminate].
    cbn [bind] in H.
    apply epoch_body_table in Hb. destruct Hb as (a & b & c & pre & Hmt & Hl1 & Hpre).
    destruct (loss_df_snoc (st_metrics st) n a b c Hn) as (Hrows1 & Hn1).
    rewrite <- Hmt in Hrows1, Hn1.
    destruct (IH st1 st' (S n) Hn1 H) as (Hn' & Hfirst & evs & Hl & Hcsv).
    cbn [length]. replace (n + S (length epochs))%nat
      with (S n + length epochs)%nat by lia.
    split; [exact Hn' |].
    assert (Hfirst0 : firstn n (loss_df (st_metrics st')) = loss_df (st_metrics st)).
    { replace n with (Nat.min n (S n)) at 1 by lia.
      rewrite <- firstn_firstn, Hfirst, Hrows1.
      rewrite firstn_app.
      destruct Hn as (_ & _ & _ & Hlen & _).
      rewrite Hlen, Nat.sub_diag. cbn [firstn]. rewrite app_nil_r.
      apply firstn_all2. lia. }
    split; [exact Hfirst0 |].
    exists (pre ++ [EvSaveLossCsv C (loss_df (st_metrics st1))] ++ evs).
    split.
    + rewrite Hl, Hl1, <- !app_assoc. reflexivity.
    + rewrite !csv_tables_app, Hpre, Hcsv. cbn [app csv_tables flat_map].
      cbn [seq map]. rewrite <- Hfirst.
      replace (n + 1)%nat with (S n) by lia. f_equal.
      rewrite <- (seq_shift (length epochs) 1), map_map. apply map_ext. intros i.
      replace (n + S i)%nat with (S n + i)%nat by lia. reflexivity.
Qed.

(** X25.  After a run of [N] epochs that completes, each of the three
    lists of metrics has [N] entries and the table of losses has [N] rows,
    numbered 1 to [N]; the table was written [N] times, once at the end of
    each epoch, and the table written at the end of epoch [e] is made of
    the first [e] rows of the last one: a row, once written, is never
    changed. *)
Theorem loss_table_grows_by_one_row_per_epoch
        (args : Args) (weight_dict : dict)
        (x_train_vec x_valid_vec : list (example C))
        (theta0 : list R) (opt0 : opt_state C) (sample_weights : list R)
        (st : state C) :
  epoch_loop C args weight_dict x_train_vec x_valid_vec
             (seq 1 (args_num_epochs args))
             (emit C (EvClassWeight C sample_weights)
                   (initial_state C theta0 opt0)) = Ok st ->
  let N := args_num_epochs args in
  let rows := loss_df (st_metrics st) in
  length (train_loss_all_epochs (st_metrics st)) = N /\
  length (val_loss_all_epochs (st_metrics st)) = N /\
  length (val_auc_all_epochs (st_metrics st)) = N /\
  length rows = N /\
  map (fun r => fst (fst (fst r))) rows = seq 1 N /\
  csv_tables (st_log st) = map (fun e => firstn e rows) (seq 1 N).
Proof.
  intros H N rows.
  assert (H0 : table_of (st_metrics (emit C (EvClassWeight C sample_weights)
                                          (initial_state C theta0 opt0)))
                        0).
  { repeat split. }
  destruct (epoch_loop_table args weight_dict x_train_vec x_valid_vec _ _ _ 0
              H0 H) as (Hn & _ & evs & Hl & Hcsv).
  rewrite length_seq in Hn, Hcsv. cbn [Nat.add] in Hn.
  destruct Hn as (Ht & Hv & Ha & Hlen & Hcol).
  repeat (split; [assumption |]).
  rewrite Hl, csv_tables_app, Hcsv. reflexivity.
Qed.

End LossTable.

(** Two epochs of the small instance: the table written after the first
    epoch is the first row of the table written after the second. *)
Lemma loss_table_grows_by_one_row_per_epoch_witness :
  exists st : state toy,
    epoch_loop toy toy_args toy_weight_dict
               (TextDataset toy [7%nat] [0%nat] [[Fin 0; Fin 0]])
               (TextDataset toy [8%nat] [1%nat] [[Fin 0; Fin 1]])
               (seq 1 (args_num_epochs toy_args))
               (emit toy (EvClassWeight toy [])
                     (initial_state toy [0; 0] 0%nat)) = Ok st /\
    length (loss_df (st_metrics st)) = 2%nat /\
    csv_tables (st_log st)
    = [firstn 1 (loss_df (st_metrics st)); firstn 2 (loss_df (st_metrics st))].
Proof.
  assert (Hbs : (0 < args_batch_size toy_args)%nat) by (simpl; lia).
  assert (Hv : TextDataset toy [8%nat] [1%nat] [[Fin 0; Fin 1]] <> []).
  { apply TextDataset_nonempty. }
  destruct (epoch_loop_total toy toy_args toy_weight_dict 1 2
              (TextDataset toy [7%nat] [0%nat] [[Fin 0; Fin 0]])
              (TextDataset toy [8%nat] [1%nat] [[Fin 0; Fin 1]])
              (seq 1 (args_num_epochs toy_args))
              toy_well_behaved eq_refl eq_refl Hbs Hv
              (emit toy (EvClassWeight toy []) (initial_state toy [0; 0] 0%nat))
              (initial_state_ready toy [0; 0] 0%nat [])) as (st & Hst).
  destruct (loss_table_grows_by_one_row_per_epoch toy toy_args toy_weight_dict
              (TextDataset toy [7%nat] [0%nat] [[Fin 0; Fin 0]])
              (TextDataset toy [8%nat] [1%nat] [[Fin 0; Fin 1]])
              [0; 0] 0%nat [] st Hst) as (_ & _ & _ & Hlen & _ & Hcsv).
  exists st. split; [exact Hst |]. split; [exact Hlen | exact Hcsv].
Defined.

(* ================================================================= *)
(** ** What the AUC is computed on *)

Section ValidationPass.

Variable C : Collaborators.

Lemma valid_loop_collects (args : Args) (theta : list R)
      (valid_dl : list (list (example C))) :
  forall (outputs outputs_labels : list tensor) (val_losses : tensor)
         (outputs' outputs_labels' : list tensor) (val_losses' : tensor),
    valid_loop C args theta valid_dl outputs outputs_labels val_losses
    = Ok (outputs', outputs_labels', val_losses') ->
    outputs'
    = outputs
      ++ map (fun batch =>
                sig (fst (network C theta false
                            (map (fun item => codebert C (fst (fst item)))
                                 batch))))
             valid_dl /\
    outputs_labels' = outputs_labels ++ map (map label_of) valid_dl /\
    length val_losses' = (length val_losses + length valid_dl)%nat.
Proof.
  induction valid_dl as [| batch rest IH];
    intros outs labs losses outs' labs' losses' H.
  - simpl in H. injection H as <- <- <-. rewrite !app_nil_r.
    repeat split. simpl. lia.
  - cbn [valid_loop] in H.
    destruct (valid_batch C args theta batch) as [[[o l] vl] | e] eqn:Hb;
      [| discriminate].
    cbn [bind] in H.
    destruct (IH _ _ _ _ _ _ H) as (Ho & Hl & Hn).
    unfold valid_batch in Hb. cbv zeta in Hb.
    unfold forward_loss in Hb.
    destruct (network C theta false
                (map (codebert C) (map (fun item => fst (fst item)) batch)))
      as [output line_atts] eqn:Hnet.
    destruct (reshape_column _ _); [| discriminate].
    cbn [bind of_option] in Hb.
    destruct (batch_loss _ _ _ _ _); [| discriminate].
    cbn [bind of_option] in Hb. injection Hb as <- <- <-.
    rewrite map_map in Hnet.
    split; [| split].
    + rewrite Ho, <- app_assoc. cbn [app map]. rewrite Hnet. reflexivity.
    + rewrite Hl, <- app_assoc. reflexivity.
    + rewrite Hn, length_app. simpl. lia.
Qed.

(** X26.  In every epoch that completes, with a positive batch size, the
    AUC of the epoch is computed against the file labels of all the
    validation files, in the order of the dataset, and on the sigmoid of
    the outputs that the network gives, in evaluation mode and with the
    parameters it has after the training pass of that epoch, batch by
    batch. *)
Theorem auc_is_computed_on_every_validation_file
        (args : Args) (weight_dict : dict)
        (x_train_vec x_valid_vec : list (example C)) (epoch : nat)
        (st st' : state C) :
  (0 < args_batch_size args)%nat ->
  epoch_body C args weight_dict x_train_vec x_valid_vec epoch st = Ok st' ->
  exists (st1 : state C) (train_losses : tensor) (m : module_obj)
         (valid_auc : R),
    train_loop C args weight_dict
               (DataLoader (shuffle C epoch x_train_vec) (args_batch_size args) true)
               st [] = Ok (st1, train_losses) /\
    heap_get (st_heap st1) model = Some m /\
    roc_auc_score C
      (map label_of x_valid_vec)
      (concat
         (map (fun batch =>
                 sig (fst (network C (parameters m) false
                             (map (fun item => codebert C (fst (fst item)))
                                  batch))))
              (DataLoader x_valid_vec (args_batch_size args) false)))
    = Some valid_auc /\
    val_auc_all_epochs (st_metrics st')
    = val_auc_all_epochs (st_metrics st) ++ [valid_auc].
Proof.
  intros Hbs H.
  apply epoch_body_steps in H.
  destruct H as (st1 & tls & m & outs & labs & vls & y_prob & y_gt & auc
                 & st2 & st3 & Htrain & Hm & Hvalid & Hprob & Hgt & Hauc
                 & Hsel & Hsave & ->).
  apply valid_loop_collects in Hvalid. cbn [app] in Hvalid.
  destruct Hvalid as (-> & -> & _).
  assert (Hcat : forall (ts : list tensor) (t : tensor),
             torch_cat ts = Some t -> t = concat ts).
  { intros ts t Ht. unfold torch_cat in Ht.
    destruct ts; [discriminate | injection Ht as <-; reflexivity]. }
  apply Hcat in Hprob. apply Hcat in Hgt. subst y_prob y_gt.
  rewrite <- concat_map, (valid_loader_concat _ _ Hbs) in Hauc.
  exists st1, tls, m, auc.
  split; [exact Htrain |]. split; [exact Hm |]. split; [exact Hauc |].
  apply select_best_effect in Hsel. destruct Hsel as (_ & Hmt2 & _).
  apply maybe_save_keeps_model in Hsave. destruct Hsave as (_ & _ & Hmt3 & _).
  apply train_loop_trains in Htrain. destruct Htrain as (_ & Hmt1 & _).
  cbn [st_metrics emit]. rewrite Hmt3, Hmt2. cbn [st_metrics with_metrics
    val_auc_all_epochs]. rewrite Hmt1. reflexivity.
Qed.

End ValidationPass.

(** The first epoch of the small instance. *)
Lemma auc_is_computed_on_every_validation_file_witness :
  exists (st' : state toy) (valid_auc : R),
    epoch_body toy toy_args toy_weight_dict
               (TextDataset toy [7%nat] [0%nat] [[Fin 0; Fin 0]])
               (TextDataset toy [8%nat] [1%nat] [[Fin 0; Fin 1]])
               1 (emit toy (EvClassWeight toy [])
                       (initial_state toy [0; 0] 0%nat)) = Ok st' /\
    roc_auc_score toy [Fin 1] [sdiv (Fin 1) (sadd (Fin 1) (sexp (sneg (Fin 0))))]
    = Some valid_auc /\
    val_auc_all_epochs (st_metrics st') = [valid_auc].
Proof.
  assert (Hbs : (0 < args_batch_size toy_args)%nat) by (simpl; lia).
  assert (Hv : TextDataset toy [8%nat] [1%nat] [[Fin 0; Fin 1]] <> []).
  { apply TextDataset_nonempty. }
  destruct (epoch_body_total toy toy_args toy_weight_dict 1 2
              (TextDataset toy [7%nat] [0%nat] [[Fin 0; Fin 0]])
              (TextDataset toy [8%nat] [1%nat] [[Fin 0; Fin 1]])
              1 (emit toy (EvClassWeight toy [])
                      (initial_state toy [0; 0] 0%nat))
              toy_well_behaved eq_refl eq_refl Hbs Hv
              (initial_state_ready toy [0; 0] 0%nat [])) as (st' & Hst & _).
  destruct (auc_is_computed_on_every_validation_file toy toy_args toy_weight_dict
              (TextDataset toy [7%nat] [0%nat] [[Fin 0; Fin 0]])
              (TextDataset toy [8%nat] [1%nat] [[Fin 0; Fin 1]])
              1 _ st' Hbs Hst) as (st1 & tls & m & auc & _ & _ & Hauc & Haucs).
  exists st', auc. split; [exact Hst |]. split; [exact Hauc | exact Haucs].
Defined.

(* ================================================================= *)
(** ** The attention of the examples that are skipped *)

Lemma normalize_length (line_atts : list tensor) :
  forall line_atts' : list tensor,
    normalize line_atts = Some line_atts' ->
    length line_atts' = length line_atts.
Proof.
  induction line_atts as [| row rest IH]; intros la H.
  - simpl in H. injection H as <-. reflexivity.
  - cbn [normalize] in H.
    destruct (normalize_row row) as [r |]; [| discriminate].
    destruct (normalize rest) as [rs |]; [| discriminate].
    injection H as <-. simpl. f_equal. apply IH. reflexivity.
Qed.

Lemma line_loss_loop_ignores_skipped (la1 : list tensor) :
  forall (la2 line_labels : list tensor) (labels : tensor) (cnt : nat)
         (losses : tensor),
    length la1 = length la2 ->
    (forall (i : nat) (a1 a2 ll : tensor) (fl : scalar),
        nth_error la1 i = Some a1 -> nth_error la2 i = Some a2 ->
        nth_error line_labels i = Some ll -> nth_error labels i = Some fl ->
        skipped fl ll = false -> a1 = a2) ->
    line_loss_loop la1 line_labels labels cnt losses
    = line_loss_loop la2 line_labels labels cnt losses.
Proof.
  induction la1 as [| a1 la1 IH]; intros la2 lls fls cnt losses Hlen Hsame.
  - destruct la2; [reflexivity | discriminate].
  - destruct la2 as [| a2 la2]; [discriminate |].
    destruct lls as [| ll lls]; [reflexivity |].
    destruct fls as [| fl fls]; [reflexivity |].
    assert (Hrest : forall cnt' losses',
               line_loss_loop la1 lls fls cnt' losses'
               = line_loss_loop la2 lls fls cnt' losses').
    { intros cnt' losses'. apply IH.
      - simpl in Hlen. lia.
      - intros i b1 b2 l f H1 H2 H3 H4 Hs.
        exact (Hsame (S i) b1 b2 l f H1 H2 H3 H4 Hs). }
    cbn [line_loss_loop].
    destruct (skipped fl ll) eqn:Hs.
    + apply Hrest.
    + rewrite (Hsame 0%nat a1 a2 ll fl eq_refl eq_refl eq_refl eq_refl Hs).
      destruct (example_line_loss a2 ll); [apply Hrest | reflexivity].
Qed.

(** X27.  The loss of a batch does not read the attention of the examples
    it skips: two batches that differ only in the attention rows of
    examples with file label 0, or without a line marked 1, have the same
    loss, whatever these rows hold (not-a-number after the normalisation of
    a constant row included). *)
Theorem skipped_examples_attention_is_never_read
        (args_k : R) (file_loss : scalar)
        (line_atts line_atts' line_labels : list tensor) (labels : tensor) :
  length line_atts = length line_atts' ->
  Forall (fun row => row <> []) line_atts ->
  Forall (fun row => row <> []) line_atts' ->
  (forall (i : nat) (att att' ll : tensor) (fl : scalar),
      nth_error line_atts i = Some att -> nth_error line_atts' i = Some att' ->
      nth_error line_labels i = Some ll -> nth_error labels i = Some fl ->
      skipped fl ll = false -> att = att') ->
  batch_loss args_k file_loss line_atts line_labels labels
  = batch_loss args_k file_loss line_atts' line_labels labels.
Proof.
  intros Hlen Hne Hne' Hsame.
  destruct (normalize_total line_atts Hne) as (la & Hla).
  destruct (normalize_total line_atts' Hne') as (la' & Hla').
  unfold batch_loss. rewrite Hla, Hla'.
  rewrite (line_loss_loop_ignores_skipped la la' line_labels labels 0 []).
  - reflexivity.
  - rewrite (normalize_length _ _ Hla), (normalize_length _ _ Hla'). exact Hlen.
  - intros i a1 a2 ll fl H1 H2 H3 H4 Hs.
    assert (Hi : (i < length line_atts)%nat).
    { rewrite <- (normalize_length _ _ Hla). apply nth_error_Some. congruence. }
    destruct (nth_error line_atts i) as [att |] eqn:Hatt;
      [| apply nth_error_None in Hatt; lia].
    destruct (nth_error line_atts' i) as [att' |] eqn:Hatt';
      [| apply nth_error_None in Hatt'; lia].
    destruct (normalize_nth _ _ Hla i att Hatt) as (r & Hr & Hnr).
    destruct (normalize_nth _ _ Hla' i att' Hatt') as (r' & Hr' & Hnr').
    rewrite (Hsame i att att' ll fl Hatt Hatt' H3 H4 Hs) in Hnr.
    congruence.
Qed.

(** A clean file with a constant attention row, and the same file with
    the row [0, 1]. *)
Lemma skipped_examples_attention_is_never_read_witness :
  batch_loss (1 / 5) (Fin 1) [[Fin (1 / 2); Fin (1 / 2)]] [[Fin 0; Fin 1]] [Fin 0]
  = batch_loss (1 / 5) (Fin 1) [[Fin 0; Fin 1]] [[Fin 0; Fin 1]] [Fin 0].
Proof.
  apply skipped_examples_attention_is_never_read.
  - reflexivity.
  - repeat constructor. discriminate.
  - repeat constructor. discriminate.
  - intros i att att' ll fl _ _ Hll Hfl Hs. exfalso.
    destruct i as [| i].
    + simpl in Hll, Hfl. injection Hll as <-. injection Hfl as <-.
      unfold skipped in Hs. simpl in Hs.
      rewrite Reqb_true in Hs by reflexivity. discriminate.
    + destruct i; discriminate.
Defined.

(* ================================================================= *)
(** ** The seed *)

Lemma environ_get_set_other (env : os_environ) (key key' value : string) :
  String.eqb key key' = false ->
  environ_get (environ_set env key value) key' = environ_get env key'.
Proof.
  intros Hne. unfold environ_set. cbn [environ_get]. rewrite Hne.
  induction env as [| [k v] env IH]; [reflexivity |].
  cbn [filter fst environ_get].
  destruct (String.eqb k key) eqn:Hk; cbn [negb].
  - apply String.eqb_eq in Hk. subst k. rewrite Hne. exact IH.
  - cbn [environ_get]. rewrite IH. reflexivity.
Qed.

(** X28.  For a seed that NumPy accepts, [set_seed] seeds the four
    generators and sets the cuDNN flag, but the variable it writes into
    the environment is [PYHTONHASHSEED]: the variable [PYTHONHASHSEED] is
    left as it was, unset if it was unset.  A seed that is negative or not
    below [2**32] makes [np.random.seed] raise [ValueError]. *)
Theorem set_seed_leaves_the_hash_seed_alone (seed : Z) (p : process) :
  ((0 <= seed < 2 ^ 32)%Z ->
   exists p' : process,
     set_seed seed p = Ok p' /\
     environ_get (environ p') "PYTHONHASHSEED"
     = environ_get (environ p) "PYTHONHASHSEED" /\
     environ_get (environ p') "PYHTONHASHSEED" = Some (str seed) /\
     random_seed p' = Some seed /\ np_random_seed p' = Some seed /\
     torch_seed p' = Some seed /\ torch_cuda_seed p' = Some seed /\
     cudnn_deterministic p' = true) /\
  ((seed < 0 \/ 2 ^ 32 <= seed)%Z -> set_seed seed p = Raise ValueError).
Proof.
  split.
  - intros [Hlo Hhi]. unfold set_seed. cbv zeta.
    destruct (Z.leb_spec 0 seed); [| lia].
    destruct (Z.ltb_spec seed (2 ^ 32)); [| lia].
    cbn [andb]. eexists. split; [reflexivity |].
    cbn [environ random_seed np_random_seed torch_seed torch_cuda_seed
         cudnn_deterministic].
    split; [apply environ_get_set_other; reflexivity |].
    split.
    { unfold environ_set. cbn [environ_get]. rewrite String.eqb_refl.
      reflexivity. }
    repeat split.
  - intros H. unfold set_seed. cbv zeta.
    destruct (Z.leb_spec 0 seed); destruct (Z.ltb_spec seed (2 ^ 32));
      try reflexivity; lia.
Qed.

(* ================================================================= *)
(** ** The files written for a data set *)

Lemma append_cancel_l (s a b : string) :
  String.append s a = String.append s b -> a = b.
Proof.
  induction s as [| c s IH]; intros H; [exact H |].
  cbn [String.append] in H. injection H as H. apply IH. exact H.
Qed.

Lemma length_append (a b : string) :
  String.length (String.append a b) = (String.length a + String.length b)%nat.
Proof.
  induction a as [| c a IH]; [reflexivity |].
  cbn [String.append String.length]. rewrite IH. reflexivity.
Qed.

Lemma append_cancel_r (t : string) :
  forall a b : string, String.append a t = String.append b t -> a = b.
Proof.
  induction a as [| c a IH]; intros b H.
  - destruct b as [| d b]; [reflexivity |].
    apply (f_equal String.length) in H.
    cbn [String.append String.length] in H. rewrite length_append in H. lia.
  - destruct b as [| d b].
    + apply (f_equal String.length) in H.
      cbn [String.append String.length] in H. rewrite length_append in H. lia.
    + cbn [String.append] in H. injection H as Hc H.
      subst d. f_equal. apply IH. exact H.
Qed.

(** X29.  For a fixed model directory and a fixed loss directory, two
    data sets with different names have different checkpoint files and
    different loss tables: in the loop of [main], the run on one data set
    never overwrites the files of another. *)
Theorem data_sets_write_to_files_of_their_own
        (save_model_dir loss_dir name name' : string) :
  name <> name' ->
  checkpoint_path save_model_dir name <> checkpoint_path save_model_dir name' /\
  loss_record_path loss_dir name <> loss_record_path loss_dir name'.
Proof.
  intros Hne. split; intros H; apply Hne.
  - unfold checkpoint_path, actual_save_model_dir in H.
    apply append_cancel_r in H. apply append_cancel_r in H.
    apply append_cancel_l in H. exact H.
  - unfold loss_record_path in H.
    apply append_cancel_r in H. apply append_cancel_l in H. exact H.
Qed.

(** Two data sets of the study. *)
Lemma data_sets_write_to_files_of_their_own_witness :
  checkpoint_path "output/model/BARLineDP/" "activemq"
  <> checkpoint_path "output/model/BARLineDP/" "camel".
Proof.
  assert (Hne : "activemq"%string <> "camel"%string) by discriminate.
  exact (proj1 (data_sets_write_to_files_of_their_own
                  "output/model/BARLineDP/" "output/loss/BARLineDP/"
                  "activemq" "camel" Hne)).
Defined.
